(** * BD compatibility layer: a shallow embedding of the plugin adaptation
    and API emulation code, with the properties its specification states.

    The definitions follow the TypeScript sources function by function:
    the changelog engine ([vcIsNewer], [vcParseChangelog]), the plugin
    assembler ([convertPlugin], [addCustomPlugin]), the plugin registry
    facade ([PluginsHolder.enable], [softReloadBDPlugin]), the module lookup
    facade ([waitForModule], [getMangled]), the runtime [require] shim, the
    scoped API constructor and the [DataHolder] store. *)

From Stdlib Require Import ZArith NArith QArith Bool List Ascii String Lia.
From Stdlib.Strings Require Byte.
From stdpp Require Import base option list gmap strings.

Local Open Scope string_scope.
Local Open Scope list_scope.

(** ** JavaScript strings and numbers

    A JS string is modelled as a Rocq [string]: a sequence of code units in
    the 8-bit range (ASCII and Latin-1).  A JS number is an IEEE double; the
    finite ones are rationals, and the comparisons of the source are the
    comparisons of those rationals. *)
Module JS.

Inductive JSNumber : Type :=
  | JNaN
  | JInf (negative : bool)
  | JNum (q : Q).

Definition JInt (n : Z) : JSNumber := JNum (inject_Z n).

Definition Qlt_bool (p q : Q) : bool := negb (Qle_bool q p).

(** [x < y] on JS numbers: every comparison with NaN is false. *)
Definition num_lt (x y : JSNumber) : bool :=
  match x, y with
  | JNaN, _ | _, JNaN => false
  | JInf true, JInf true => false
  | JInf true, _ => true
  | _, JInf true => false
  | JInf false, _ => false
  | JNum _, JInf false => true
  | JNum p, JNum q => Qlt_bool p q
  end.

Definition num_gt (x y : JSNumber) : bool := num_lt y x.

(** ToBoolean on numbers: NaN and zero are falsy. *)
Definition num_truthy (x : JSNumber) : bool :=
  match x with
  | JNaN => false
  | JInf _ => true
  | JNum q => negb (Qeq_bool q 0)
  end.

(** A call returns a value or throws. *)
Inductive Error : Type := JSError (message : string).

Inductive Result (A : Type) : Type :=
  | Ok (a : A)
  | Throw (e : Error).
Arguments Ok {A} a.
Arguments Throw {A} e.

(** [a[i] || 0] where [a[i]] is [undefined] past the end of the array. *)
Definition or_zero (o : option JSNumber) : JSNumber :=
  match o with
  | Some x => if num_truthy x then x else JInt 0
  | None => JInt 0
  end.

(** [s.split(sep)] for a one-character separator: never the empty list. *)
Fixpoint split_on (sep : ascii) (s : string) : list string :=
  match s with
  | EmptyString => [EmptyString]
  | String c s' =>
      if Ascii.eqb c sep then EmptyString :: split_on sep s'
      else match split_on sep s' with
           | p :: ps => String c p :: ps
           | [] => [String c EmptyString]
           end
  end.

Definition is_digit (c : ascii) : bool :=
  (48 <=? nat_of_ascii c)%nat && (nat_of_ascii c <=? 57)%nat.

Definition digit_val (c : ascii) : Z := Z.of_nat (nat_of_ascii c) - 48.

Fixpoint all_digits (s : string) : bool :=
  match s with
  | EmptyString => true
  | String c s' => is_digit c && all_digits s'
  end.

Fixpoint decimal_from (acc : Z) (s : string) : Z :=
  match s with
  | EmptyString => acc
  | String c s' => decimal_from (10 * acc + digit_val c) s'
  end.

(** The integer a string of decimal digits denotes; 0 for the empty string. *)
Definition decimal_value (s : string) : Z := decimal_from 0 s.

(** The double nearest to a non-negative integer (ties to even): exact below
    2^53, a multiple of a power of two above, Infinity from 2^1024 on. *)
Definition round_to_double (n : Z) : JSNumber :=
  if (n <? 2 ^ 53)%Z then JInt n
  else
    let e := (Z.log2 n - 52)%Z in
    let q := Z.shiftr n e in
    let r := Z.land n (Z.ones e) in
    let half := Z.shiftl 1 (e - 1) in
    let q' := if (half <? r)%Z || ((r =? half)%Z && Z.odd q)
              then (q + 1)%Z else q in
    let v := Z.shiftl q' e in
    if (2 ^ 1024 <=? v)%Z then JInf false else JInt v.

(** White space and line terminators in the 8-bit range: what [trim] strips
    and what [\s] matches. *)
Definition is_space (c : ascii) : bool :=
  let n := nat_of_ascii c in
  ((9 <=? n)%nat && (n <=? 13)%nat) || (n =? 32)%nat || (n =? 160)%nat.

Fixpoint trimStart (s : string) : string :=
  match s with
  | EmptyString => EmptyString
  | String c s' => if is_space c then trimStart s' else s
  end.

Fixpoint trimEnd (s : string) : string :=
  match s with
  | EmptyString => EmptyString
  | String c s' =>
      match trimEnd s' with
      | EmptyString => if is_space c then EmptyString else String c EmptyString
      | t => String c t
      end
  end.

(** [s.trim()] *)
Definition trim (s : string) : string := trimEnd (trimStart s).

(** [s.startsWith(p)] *)
Fixpoint startsWith (p s : string) : bool :=
  match p, s with
  | EmptyString, _ => true
  | String a p', String b s' => Ascii.eqb a b && startsWith p' s'
  | String _ _, EmptyString => false
  end.

(** [s.includes(sub)] *)
Fixpoint includes (sub s : string) : bool :=
  startsWith sub s ||
  match s with
  | EmptyString => false
  | String _ s' => includes sub s'
  end.

(** [s.slice(1)] *)
Definition slice1 (s : string) : string :=
  match s with
  | EmptyString => EmptyString
  | String _ s' => s'
  end.

Fixpoint drop_chars (n : nat) (s : string) : string :=
  match n, s with
  | O, _ => s
  | S n', String _ s' => drop_chars n' s'
  | S _, EmptyString => EmptyString
  end.

(** The longest prefix whose characters satisfy [p], and the rest. *)
Fixpoint span_chars (p : ascii -> bool) (s : string) : string * string :=
  match s with
  | EmptyString => (EmptyString, EmptyString)
  | String c s' =>
      if p c then let '(a, b) := span_chars p s' in (String c a, b)
      else (EmptyString, s)
  end.

Definition lower_char (c : ascii) : ascii :=
  let n := nat_of_ascii c in
  if ((65 <=? n)%nat && (n <=? 90)%nat)
     || ((192 <=? n)%nat && (n <=? 222)%nat && negb (n =? 215)%nat)
  then ascii_of_nat (n + 32) else c.

(** [s.toLowerCase()] on 8-bit code units. *)
Fixpoint toLowerCase (s : string) : string :=
  match s with
  | EmptyString => EmptyString
  | String c s' => String (lower_char c) (toLowerCase s')
  end.

Definition upper_char (c : ascii) : ascii :=
  let n := nat_of_ascii c in
  if ((97 <=? n)%nat && (n <=? 122)%nat)
     || ((224 <=? n)%nat && (n <=? 254)%nat && negb (n =? 247)%nat)
  then ascii_of_nat (n - 32) else c.

(** [s.toUpperCase()] on 8-bit code units whose upper case is one 8-bit
    code unit (all of ASCII). *)
Fixpoint toUpperCase (s : string) : string :=
  match s with
  | EmptyString => EmptyString
  | String c s' => String (upper_char c) (toUpperCase s')
  end.

(** ToBoolean on strings: only the empty string is falsy. *)
Definition str_truthy (s : string) : bool :=
  match s with EmptyString => false | String _ _ => true end.

Definition opt_truthy (o : option string) : bool :=
  match o with Some s => str_truthy s | None => false end.

(** [xs.join(sep)] *)
Fixpoint join (sep : string) (xs : list string) : string :=
  match xs with
  | [] => EmptyString
  | [x] => x
  | x :: rest => x ++ sep ++ join sep rest
  end.

(** A value as the code tests and stores it; every object, array and
    function is an [VObject], told apart by its identity. *)
Inductive JSValue : Type :=
  | VUndefined
  | VNull
  | VBool (b : bool)
  | VNumber (n : JSNumber)
  | VString (s : string)
  | VObject (identity : nat).

(** ToBoolean *)
Definition truthy (v : JSValue) : bool :=
  match v with
  | VUndefined | VNull => false
  | VBool b => b
  | VNumber n => num_truthy n
  | VString s => str_truthy s
  | VObject _ => true
  end.

(** The property names every plain object inherits from
    [Object.prototype]; each of them holds a function or an object. *)
Definition Object_prototype_keys : list string :=
  ["constructor"; "__defineGetter__"; "__defineSetter__"; "hasOwnProperty";
   "__lookupGetter__"; "__lookupSetter__"; "isPrototypeOf";
   "propertyIsEnumerable"; "toString"; "valueOf"; "__proto__";
   "toLocaleString"].

Definition on_Object_prototype (key : string) : bool :=
  existsb (String.eqb key) Object_prototype_keys.

Section Number.
(** [Number(s)] on the strings that are not plain digit sequences (signs,
    white space, exponents, hexadecimal literals, "Infinity", NaN for the
    rest) is left to the engine. *)
Variable Number_other : string -> JSNumber.

(** [Number(s)]: the empty string is 0, a digit sequence is the nearest
    double of the integer it denotes. *)
Definition Number (s : string) : JSNumber :=
  if all_digits s then round_to_double (decimal_value s)
  else Number_other s.
End Number.

End JS.

(** ** Changelog engine (fakeBdApi: [vcIsNewer], [vcParseChangelog]) *)
Module Changelog.
Import JS.

Section WithNumber.
Variable Number_other : string -> JSNumber.

(** The [for] loop of [vcIsNewer]: [i] is the loop index and [fuel] the
    number of indices left below [Math.max(a.length, b.length)]. *)
Fixpoint vcIsNewer_loop (a b : list JSNumber) (i fuel : nat) : bool :=
  match fuel with
  | O => false
  | S fuel' =>
      let x := or_zero (a !! i) in
      let y := or_zero (b !! i) in
      if num_gt x y then true
      else if num_lt x y then false
      else vcIsNewer_loop a b (S i) fuel'
  end.

Definition vcIsNewer (v1 v2 : string) : bool :=
  let a := map (Number Number_other) (split_on "." v1) in
  let b := map (Number Number_other) (split_on "." v2) in
  vcIsNewer_loop a b 0 (Nat.max (length a) (length b)).

Record VersionBlock : Type := mkBlock {
  version : string;
  items : list string
}.

(** [line.match(/^###\s+([\d.]+)/)?.[1]]: the three hashes at the start
    of the line, at least one white space character, then the longest
    non-empty run of digits and dots. *)
Definition match_heading (line : string) : option string :=
  if startsWith "###" line then
    let '(ws, rest) := span_chars is_space (drop_chars 3 line) in
    match ws with
    | EmptyString => None
    | String _ _ =>
        let '(ver, _) :=
          span_chars (fun c => is_digit c || Ascii.eqb c ".") rest in
        match ver with
        | EmptyString => None
        | String _ _ => Some ver
        end
    end
  else None.

(** The variables of the line loop: [versions], [curVer], [items]. *)
Record LineLoop : Type := mkLoop {
  versions : list VersionBlock;
  curVer : option string;
  cur_items : list string
}.

Definition push_current (st : LineLoop) : list VersionBlock :=
  match curVer st with
  | Some v => if str_truthy v then versions st ++ [mkBlock v (cur_items st)]
              else versions st
  | None => versions st
  end.

(** One iteration of [for (const line of lines)]. *)
Definition line_step (st : LineLoop) (line : string) : LineLoop :=
  let m := match_heading line in
  if opt_truthy m then
    mkLoop (push_current st) m []
  else if opt_truthy (curVer st) && startsWith "-" (trim line) then
    let item := trim (slice1 (trim line)) in
    if str_truthy item
    then mkLoop (versions st) (curVer st) (cur_items st ++ [item])
    else st
  else st.

(** The version blocks collected from the markdown text. *)
Definition parse_versions (md : string) : list VersionBlock :=
  push_current (fold_left line_step (split_on "010" md) (mkLoop [] None [])).

Record Grouped : Type := mkGrouped {
  g_added : list string;
  g_improved : list string;
  g_fixed : list string;
  g_other : list string
}.

(** [`${it} (v${v.version})`] *)
Definition tagged (it ver : string) : string := it ++ " (v" ++ ver ++ ")".

(** The body of the inner loop: one bullet goes to one bucket. *)
Definition group_item (ver : string) (g : Grouped) (it : string) : Grouped :=
  let lower := toLowerCase it in
  let t := tagged it ver in
  if includes "fix" lower then
    mkGrouped (g_added g) (g_improved g) (g_fixed g ++ [t]) (g_other g)
  else if includes "add" lower || includes "initial" lower then
    mkGrouped (g_added g ++ [t]) (g_improved g) (g_fixed g) (g_other g)
  else if includes "improv" lower || includes "updat" lower then
    mkGrouped (g_added g) (g_improved g ++ [t]) (g_fixed g) (g_other g)
  else
    mkGrouped (g_added g) (g_improved g) (g_fixed g) (g_other g ++ [t]).

Definition group_block (g : Grouped) (v : VersionBlock) : Grouped :=
  fold_left (group_item (version v)) (items v) g.

Inductive ChangeType : Type := added | improved | fixed | progress.

Record ChangelogEntry : Type := mkEntry {
  title : string;
  type : ChangeType;
  entry_items : list string
}.

Definition push_if_any (result : list ChangelogEntry) (t : string)
    (ty : ChangeType) (its : list string) : list ChangelogEntry :=
  match its with
  | [] => result
  | _ :: _ => result ++ [mkEntry t ty its]
  end.

Definition vcParseChangelog (md from to : string) : list ChangelogEntry :=
  let versions := parse_versions md in
  let relevant :=
    List.filter (fun v => vcIsNewer (version v) from
                          && negb (vcIsNewer (version v) to)) versions in
  let grouped := fold_left group_block relevant (mkGrouped [] [] [] []) in
  let result := [] in
  let result := push_if_any result "New Features" added (g_added grouped) in
  let result := push_if_any result "Improvements" improved (g_improved grouped) in
  let result := push_if_any result "Fixes" fixed (g_fixed grouped) in
  let result := push_if_any result "Other Changes" progress (g_other grouped) in
  result.
End WithNumber.

(** *** The comparison and the bucketing as the specification words them *)

(** The integer tuple of a dotted version string. *)
Definition components (v : string) : list Z :=
  map decimal_value (split_on "." v).

(** Missing components count as 0. *)
Definition pad_zero (n : nat) (xs : list Z) : list Z :=
  xs ++ replicate (n - length xs) 0%Z.

(** The component at index [i], 0 past the end. *)
Definition component_at (xs : list Z) (i : nat) : Z := default 0%Z (xs !! i).

(** Left to right, numerically, on tuples of the same length. *)
Fixpoint lex_gt (xs ys : list Z) : bool :=
  match xs, ys with
  | x :: xs', y :: ys' =>
      if (y <? x)%Z then true
      else if (x <? y)%Z then false
      else lex_gt xs' ys'
  | _, _ => false
  end.

Definition tuple_gt (xs ys : list Z) : bool :=
  let n := Nat.max (length xs) (length ys) in
  lex_gt (pad_zero n xs) (pad_zero n ys).

(** A dotted version whose components are digit sequences below 2^53, the
    range in which a double holds every integer exactly. *)
Definition exact_version (v : string) : bool :=
  forallb (fun c => all_digits c && (decimal_value c <? 2 ^ 53)%Z)
          (split_on "." v).

(** Priority fixed > added-or-initial > improved-or-updated > other. *)
Definition bucket_of (it : string) : ChangeType :=
  let lower := toLowerCase it in
  if includes "fix" lower then fixed
  else if includes "add" lower || includes "initial" lower then added
  else if includes "improv" lower || includes "updat" lower then improved
  else progress.

Definition ChangeType_eqb (a b : ChangeType) : bool :=
  match a, b with
  | added, added | improved, improved | fixed, fixed | progress, progress => true
  | _, _ => false
  end.

(** The bucket of [g] that holds the bullets of type [ty]. *)
Definition bucket (g : Grouped) (ty : ChangeType) : list string :=
  match ty with
  | added => g_added g
  | improved => g_improved g
  | fixed => g_fixed g
  | progress => g_other g
  end.

Definition relevant_spec (from to : string) (v : VersionBlock) : bool :=
  tuple_gt (components (version v)) (components from)
  && negb (tuple_gt (components (version v)) (components to)).

(** The tagged bullets of the relevant blocks that fall in bucket [ty]. *)
Definition bucket_items (blocks : list VersionBlock) (from to : string)
    (ty : ChangeType) : list string :=
  flat_map
    (fun v => map (fun it => tagged it (version v))
                  (List.filter (fun it => ChangeType_eqb (bucket_of it) ty)
                               (items v)))
    (List.filter (relevant_spec from to) blocks).

Definition bucket_title (ty : ChangeType) : string :=
  match ty with
  | added => "New Features"
  | improved => "Improvements"
  | fixed => "Fixes"
  | progress => "Other Changes"
  end.

(** One entry per non-empty bucket, in the order added, improved, fixed,
    other. *)
Definition changelog_spec (blocks : list VersionBlock) (from to : string)
    : list ChangelogEntry :=
  flat_map
    (fun ty => match bucket_items blocks from to ty with
               | [] => []
               | its => [mkEntry (bucket_title ty) ty its]
               end)
    [added; improved; fixed; progress].

(** *** Sample inputs *)

Definition newline : string := String "010" EmptyString.

(** Two version blocks, one bullet each. *)
Definition sample_markdown : string :=
  "### 1.0.0" ++ newline ++ "- Added X" ++ newline
  ++ "### 1.1.0" ++ newline ++ "- Fixed Y" ++ newline.

(** A block whose version is beyond the integers a double holds exactly. *)
Definition large_markdown : string :=
  "### 9007199254740993" ++ newline ++ "- Reworked everything" ++ newline.

End Changelog.

(** ** The compatibility layer's shared state and the host runtime

    Plugin records are JavaScript objects shared between the host registry
    ([Vencord.Plugins.plugins]), [window.GeneratedPlugins] and
    [BdCompatLayer.queuedPlugins]; they live in a heap and the three
    containers hold references.  Effects are threaded through a state and
    exception monad over [World]; [events] records the order in which the
    code reaches its effects.

    A call runs to completion: nothing else is scheduled at the [await]s of
    [softReloadBDPlugin].  The code of a plugin (its constructor, [load],
    [start], [stop], the legacy getters) returns or throws and does not
    itself reach into the registries.  The names, versions, descriptions
    and file names that metadata gives are text, as the type
    [AssembledBetterDiscordPlugin] has them; [started] and [__bdFileSig]
    hold whatever value a metadata key of that name gave until the layer
    writes them, and [authors] may have been set to [null].  The fields of
    a record that no operation below reads ([options], [internals]) are
    left out.  [fs] is what [window.require("fs")] gives: the files by
    path, or nothing when there is no [require]; [innerHTML] is what the
    document gives back as the [innerHTML] of a new [div] after the markup
    has been assigned to it. *)
Module Compat.
Import JS.

Definition Ref : Type := nat.

(** What the sandboxed plugin object does when the layer calls into it: a
    method that is there returns or throws. *)
Record Instance : Type := mkInstance {
  load : option (Result unit);
  getName : option (Result string);
  getVersion : option (Result string);
  getDescription : option (Result string);
  instance_start : Result unit;
  instance_stop : Result unit
}.

(** [AssembledBetterDiscordPlugin]; a host plugin has no [instance].
    [bdFileSig] is the number in [__bdFileSig] when it holds a 32-bit
    integer: any other value there is never equal to a signature and
    reads as no signature (see [file_changed]). *)
Record PluginObj : Type := mkPluginObj {
  name : string;
  originalName : option string;
  plugin_id : string;
  filename : string;
  sourcePath : string;
  version : option string;
  description : string;
  started_value : JSValue;
  instance : option Instance;
  bdFileSig : option Z;
  authors_null : bool
}.

(** [o.started === true] *)
Definition started (o : PluginObj) : bool :=
  match started_value o with
  | VBool true => true
  | _ => false
  end.

(** A record whose [started] is a boolean and whose [authors] is a list. *)
Definition mkPlugin (name : string) (originalName : option string)
    (plugin_id filename sourcePath : string) (version : option string)
    (description : string) (started : bool) (instance : option Instance)
    (bdFileSig : option Z) : PluginObj :=
  mkPluginObj name originalName plugin_id filename sourcePath version
              description (VBool started) instance bdFileSig false.

Record File : Type := mkFile { content : string; mtimeMs : Z }.

Record Notice : Type := mkNotice {
  notice_title : string;
  notice_content : string;
  notice_buttons : list string;
  notice_autoclose : option Z
}.

Inductive Event : Type :=
  | EvParseMeta (file : string)
  | EvQueuePush (r : Ref)
  | EvSandboxEval (file : string)
  | EvInstantiate (r : Ref)
  | EvQueueRemove (index : nat)
  | EvLoggerError (file : string)
  | EvConsoleWarn (message : string)
  | EvStartPlugin (target : option Ref)
  | EvStopPlugin (target : option Ref)
  | EvUnpatchAll (caller : string)
  | EvRemoveStyle (style : string)
  | EvReadFile (path : string)
  | EvChangelogScheduled (plugin from to : string).

Record World : Type := mkWorld {
  heap : gmap Ref PluginObj;
  next_ref : Ref;
  plugins : gmap string Ref;
  GeneratedPlugins : list Ref;
  queuedPlugins : list Ref;
  settings_enabled : gmap string bool;
  pluginsStatus : gmap string bool;
  fs : option (gmap string File);
  notices : list Notice;
  events : list Event;
  innerHTML : string -> string
}.

Definition M (A : Type) : Type := World -> Result A * World.

Definition ret {A} (a : A) : M A := fun w => (Ok a, w).
Definition throw {A} (e : Error) : M A := fun w => (Throw e, w).
Definition bind {A B} (m : M A) (k : A -> M B) : M B :=
  fun w => match m w with
           | (Ok a, w') => k a w'
           | (Throw e, w') => (Throw e, w')
           end.
(** [try { m } catch (e) { h e }] *)
Definition try_catch {A} (m : M A) (h : Error -> M A) : M A :=
  fun w => match m w with
           | (Ok a, w') => (Ok a, w')
           | (Throw e, w') => h e w'
           end.
Definition get_world : M World := fun w => (Ok w, w).
Definition modify (f : World -> World) : M unit := fun w => (Ok tt, f w).
Definition lift {A} (r : Result A) : M A := fun w => (r, w).

Declare Scope js_scope.
Delimit Scope js_scope with js.
Notation "x <- m ;; k" := (bind m (fun x => k))
  (at level 100, m at next level, right associativity) : js_scope.
Notation "m ;;; k" := (bind m (fun _ => k))
  (at level 100, right associativity) : js_scope.
Local Open Scope js_scope.

(** [I] holds after [m] whenever it holds before. *)
Definition stable {A} (I : World -> Prop) (m : M A) : Prop :=
  forall w, I w -> I (snd (m w)).

Definition set_heap (h : gmap Ref PluginObj) (w : World) : World :=
  mkWorld h (next_ref w) (plugins w) (GeneratedPlugins w) (queuedPlugins w)
          (settings_enabled w) (pluginsStatus w) (fs w) (notices w) (events w)
          (innerHTML w).
Definition set_next_ref (n : Ref) (w : World) : World :=
  mkWorld (heap w) n (plugins w) (GeneratedPlugins w) (queuedPlugins w)
          (settings_enabled w) (pluginsStatus w) (fs w) (notices w) (events w)
          (innerHTML w).
Definition set_plugins (p : gmap string Ref) (w : World) : World :=
  mkWorld (heap w) (next_ref w) p (GeneratedPlugins w) (queuedPlugins w)
          (settings_enabled w) (pluginsStatus w) (fs w) (notices w) (events w)
          (innerHTML w).
Definition set_GeneratedPlugins (g : list Ref) (w : World) : World :=
  mkWorld (heap w) (next_ref w) (plugins w) g (queuedPlugins w)
          (settings_enabled w) (pluginsStatus w) (fs w) (notices w) (events w)
          (innerHTML w).
Definition set_queuedPlugins (q : list Ref) (w : World) : World :=
  mkWorld (heap w) (next_ref w) (plugins w) (GeneratedPlugins w) q
          (settings_enabled w) (pluginsStatus w) (fs w) (notices w) (events w)
          (innerHTML w).
Definition set_settings_enabled (e : gmap string bool) (w : World) : World :=
  mkWorld (heap w) (next_ref w) (plugins w) (GeneratedPlugins w)
          (queuedPlugins w) e (pluginsStatus w) (fs w) (notices w) (events w)
          (innerHTML w).
Definition set_pluginsStatus (s : gmap string bool) (w : World) : World :=
  mkWorld (heap w) (next_ref w) (plugins w) (GeneratedPlugins w)
          (queuedPlugins w) (settings_enabled w) s (fs w) (notices w)
          (events w) (innerHTML w).
Definition set_notices (n : list Notice) (w : World) : World :=
  mkWorld (heap w) (next_ref w) (plugins w) (GeneratedPlugins w)
          (queuedPlugins w) (settings_enabled w) (pluginsStatus w) (fs w) n
          (events w) (innerHTML w).
Definition set_events (e : list Event) (w : World) : World :=
  mkWorld (heap w) (next_ref w) (plugins w) (GeneratedPlugins w)
          (queuedPlugins w) (settings_enabled w) (pluginsStatus w) (fs w)
          (notices w) e (innerHTML w).

Definition emit (e : Event) : M unit :=
  modify (fun w => set_events (events w ++ [e]) w).

Definition set_name (v : string) (o : PluginObj) : PluginObj :=
  mkPluginObj v (originalName o) (plugin_id o) (filename o) (sourcePath o)
              (version o) (description o) (started_value o) (instance o)
              (bdFileSig o) (authors_null o).
Definition set_originalName (v : option string) (o : PluginObj) : PluginObj :=
  mkPluginObj (name o) v (plugin_id o) (filename o) (sourcePath o)
              (version o) (description o) (started_value o) (instance o)
              (bdFileSig o) (authors_null o).
Definition set_plugin_id (v : string) (o : PluginObj) : PluginObj :=
  mkPluginObj (name o) (originalName o) v (filename o) (sourcePath o)
              (version o) (description o) (started_value o) (instance o)
              (bdFileSig o) (authors_null o).
Definition set_filename (v : string) (o : PluginObj) : PluginObj :=
  mkPluginObj (name o) (originalName o) (plugin_id o) v (sourcePath o)
              (version o) (description o) (started_value o) (instance o)
              (bdFileSig o) (authors_null o).
Definition set_sourcePath (v : string) (o : PluginObj) : PluginObj :=
  mkPluginObj (name o) (originalName o) (plugin_id o) (filename o) v
              (version o) (description o) (started_value o) (instance o)
              (bdFileSig o) (authors_null o).
Definition set_version (v : option string) (o : PluginObj) : PluginObj :=
  mkPluginObj (name o) (originalName o) (plugin_id o) (filename o)
              (sourcePath o) v (description o) (started_value o) (instance o)
              (bdFileSig o) (authors_null o).
Definition set_description (v : string) (o : PluginObj) : PluginObj :=
  mkPluginObj (name o) (originalName o) (plugin_id o) (filename o)
              (sourcePath o) (version o) v (started_value o) (instance o)
              (bdFileSig o) (authors_null o).
Definition set_started_value (v : JSValue) (o : PluginObj) : PluginObj :=
  mkPluginObj (name o) (originalName o) (plugin_id o) (filename o)
              (sourcePath o) (version o) (description o) v (instance o)
              (bdFileSig o) (authors_null o).
(** [o.started = v] for a boolean. *)
Definition set_started (v : bool) (o : PluginObj) : PluginObj :=
  set_started_value (VBool v) o.
Definition set_instance (v : option Instance) (o : PluginObj) : PluginObj :=
  mkPluginObj (name o) (originalName o) (plugin_id o) (filename o)
              (sourcePath o) (version o) (description o) (started_value o) v
              (bdFileSig o) (authors_null o).
Definition set_bdFileSig (v : option Z) (o : PluginObj) : PluginObj :=
  mkPluginObj (name o) (originalName o) (plugin_id o) (filename o)
              (sourcePath o) (version o) (description o) (started_value o)
              (instance o) v (authors_null o).
Definition set_authors_null (v : bool) (o : PluginObj) : PluginObj :=
  mkPluginObj (name o) (originalName o) (plugin_id o) (filename o)
              (sourcePath o) (version o) (description o) (started_value o)
              (instance o) (bdFileSig o) v.

(** A property read through a reference; a dangling one cannot occur for
    references the code holds. *)
Definition deref (w : World) (r : Ref) : option PluginObj := heap w !! r.

(** [obj.field = v] on the object behind [r]. *)
Definition update (r : Ref) (f : PluginObj -> PluginObj) : M unit :=
  modify (fun w => set_heap (alter f r (heap w)) w).

(** [{}]: a fresh object. *)
Definition alloc (o : PluginObj) : M Ref :=
  fun w => (Ok (next_ref w),
            set_next_ref (S (next_ref w))
                         (set_heap (<[next_ref w := o]> (heap w)) w)).

(** *** Host plugin manager ([Vencord.Plugins], [Vencord.Settings])

    The host runtime is not part of the repository; this is the behaviour of
    its plugin manager that the layer relies on: [startPlugin] and
    [stopPlugin] dereference their argument (a TypeError on [undefined]), do
    nothing for a plugin already in the requested state (a [started] that
    is truthy or falsy), run the record's [start]/[stop], catch what it
    throws and set [started] to [true] or [false] when it returned. *)

Definition type_error : Error := JSError "TypeError".

(** The record's [start] as bound by [convertPlugin]: the intent is
    persisted, then the instance is started. *)
Definition startFunction (o : PluginObj) : M unit :=
  match instance o with
  | Some i =>
      modify (fun w => set_pluginsStatus (<[name o := true]> (pluginsStatus w)) w) ;;;
      lift (instance_start i)
  | None => ret tt
  end.

Definition stopFunction (o : PluginObj) : M unit :=
  match instance o with
  | Some i =>
      modify (fun w => set_pluginsStatus (<[name o := false]> (pluginsStatus w)) w) ;;;
      lift (instance_stop i)
  | None => ret tt
  end.

Definition startPlugin (target : option Ref) : M unit :=
  emit (EvStartPlugin target) ;;;
  w <- get_world ;;
  match target ≫= deref w with
  | None => throw type_error
  | Some o =>
      if truthy (started_value o) then ret tt
      else
        ok <- try_catch (startFunction o ;;; ret true) (fun _ => ret false) ;;
        if ok : bool
        then match target with
             | Some r => update r (set_started true)
             | None => ret tt
             end
        else ret tt
  end.

Definition stopPlugin (target : option Ref) : M unit :=
  emit (EvStopPlugin target) ;;;
  w <- get_world ;;
  match target ≫= deref w with
  | None => throw type_error
  | Some o =>
      if truthy (started_value o) then
        ok <- try_catch (stopFunction o ;;; ret true) (fun _ => ret false) ;;
        if ok : bool
        then match target with
             | Some r => update r (set_started false)
             | None => ret tt
             end
        else ret tt
      else ret tt
  end.

(** [Vencord.Plugins.isPluginEnabled(name)] *)
Definition isPluginEnabled (w : World) (n : string) : bool :=
  default false (settings_enabled w !! n).

Definition set_enabled (n : string) (b : bool) : M unit :=
  modify (fun w => set_settings_enabled (<[n := b]> (settings_enabled w)) w).

Definition set_status (n : string) (b : bool) : M unit :=
  modify (fun w => set_pluginsStatus (<[n := b]> (pluginsStatus w)) w).

(** [PluginsHolder.folder]: [rootFolder + "/plugins"]. *)
Definition folder : string := "/BD/plugins".

(** [`${folder}/${filename}`] *)
Definition plugin_path (file : string) : string := folder ++ "/" ++ file.

(** [x | 0]: ToInt32 of a whole number, with its wrap-around. *)
Definition to_int32 (z : Z) : Z := ((z + 2 ^ 31) mod 2 ^ 32 - 2 ^ 31)%Z.


(** *** Plugin assembler (pluginConstructor.ts) *)

(** The keys of the parsed metadata that land on a field of the record; a
    key the comment does not give is absent.  A key [instance] is
    overwritten by the instantiation before the layer reads it. *)
Record PluginMeta : Type := mkMeta {
  meta_name : option string;
  meta_id : option string;
  meta_description : option string;
  meta_version : option string;
  meta_originalName : option string;
  meta_filename : option string;
  meta_sourcePath : option string;
  meta_started : option JSValue;
  meta_bdFileSig : option JSValue;
  (** the metadata has [authors: null] *)
  meta_authors_null : bool
}.

(** Metadata that holds the four keys of [parseNewMeta]'s initial object
    and nothing else that bears on the record. *)
Definition plain_meta (name id description version : string) : PluginMeta :=
  mkMeta (Some name) (Some id) (Some description) (Some version)
         None None None None None false.

(** A callable export of the evaluated plugin module. *)
Record Export : Type := mkExport {
  has_prototype : bool;
  construct : PluginObj -> Result (option Instance);
  call : PluginObj -> Result (option Instance)
}.

(** [module.exports] after evaluation. *)
Inductive Exports : Type :=
  | ExportsObject (named : string -> option Export) (default_export : option Export)
  | ExportsValue (e : option Export).

(** The signature that a value of [__bdFileSig] is: a 32-bit integer. *)
Definition sig_of_value (v : JSValue) : option Z :=
  match v with
  | VNumber (JNum q) =>
      let r := Qred q in
      if (Qden r =? 1)%positive
         && (- 2 ^ 31 <=? Qnum r)%Z && (Qnum r <? 2 ^ 31)%Z
      then Some (Qnum r) else None
  | _ => None
  end.

(** [target[key] = v] when the source has the key. *)
Definition assign_key {A} (v : option A) (set : A -> PluginObj -> PluginObj)
    (o : PluginObj) : PluginObj :=
  match v with
  | Some a => set a o
  | None => o
  end.

(** [Object.assign(final, parsedMeta.pluginMeta)]: every key of the
    metadata is copied. *)
Definition assign_meta (m : PluginMeta) (o : PluginObj) : PluginObj :=
  let o := assign_key (meta_name m) set_name o in
  let o := assign_key (meta_id m) set_plugin_id o in
  let o := assign_key (meta_description m) set_description o in
  let o := assign_key (meta_version m) (fun v => set_version (Some v)) o in
  let o := assign_key (meta_originalName m)
                      (fun v => set_originalName (Some v)) o in
  let o := assign_key (meta_filename m) set_filename o in
  let o := assign_key (meta_sourcePath m) set_sourcePath o in
  let o := assign_key (meta_started m) set_started_value o in
  let o := assign_key (meta_bdFileSig m)
                      (fun v => set_bdFileSig (sig_of_value v)) o in
  set_authors_null (meta_authors_null m) o.

(** [final[prop]] for the fields that hold metadata text. *)
Definition get_prop (o : PluginObj) (prop : string) : option string :=
  if String.eqb prop "name" then Some (name o)
  else if String.eqb prop "version" then version o
  else if String.eqb prop "description" then Some (description o)
  else None.

Definition neededMeta : list string := ["name"; "version"; "description"].

(** [neededMeta.filter(prop => !final || !final[prop])] *)
Definition whatsMissing (o : PluginObj) : list string :=
  List.filter (fun prop => negb (opt_truthy (get_prop o prop))) neededMeta.

(** The markup assigned to [newTextElement.innerHTML]. *)
Definition incomplete_html (o : PluginObj) (missing : list string) : string :=
  "The BD Plugin " ++ (if str_truthy (name o) then name o else plugin_id o)
  ++ " is missing the following metadata below<br><br>"
  ++ String "010" "        <strong>" ++ toUpperCase (join ", " missing)
  ++ "</strong><br><br>"
  ++ String "010" "        The plugin could not be started, Please fix.".



(** [UIHolder.showNotice_]: a "Close" button is always there, and the notice
    closes by itself only for a positive [timeout]. *)
Definition showNotice_ (title content : string) (timeout : Z)
    (buttons : list string) : M unit :=
  modify (fun w =>
    set_notices
      (notices w ++ [mkNotice title content ("Close" :: buttons)
                              (if (0 <? timeout)%Z then Some timeout else None)])
      w).

Definition showNotice (content : string) (timeout : Z)
    (buttons : list string) : M unit :=
  showNotice_ "Notice" content timeout buttons.

Definition read (r : Ref) : M PluginObj :=
  fun w => match deref w r with
           | Some o => (Ok o, w)
           | None => (Throw type_error, w)
           end.

Definition when (b : bool) (m : M unit) : M unit := if b then m else ret tt.

(** [xs.findIndex(p)] *)
Fixpoint findIndex {A} (p : A -> bool) (xs : list A) : option nat :=
  match xs with
  | [] => None
  | x :: rest => if p x then Some 0%nat else S <$> findIndex p rest
  end.

(** [xs.splice(i, 1)] *)
Definition splice1 {A} (i : nat) (xs : list A) : list A := delete i xs.

Definition filename_is (w : World) (f : string) (r : Ref) : bool :=
  match deref w r with
  | Some x => String.eqb (filename x) f
  | None => false
  end.

(** The state of the world while the record [final] of file [file] is being
    assembled, [w0] being the world in which [convertPlugin] was called: the
    placeholder is the last entry of the queue, the events so far start with
    the parse and the push, the record keeps the file name [recorded] and
    the [authors] that the metadata left it with, and nothing else in the
    heap or the registry has changed. *)
Definition assembling (w0 : World) (final : Ref) (file recorded : string)
    (no_authors : bool) (w : World) : Prop :=
  queuedPlugins w = queuedPlugins w0 ++ [final]
  /\ (exists rest,
        events w = events w0 ++ [EvParseMeta file; EvQueuePush final] ++ rest)
  /\ (exists o, heap w !! final = Some o /\ filename o = recorded
                /\ authors_null o = no_authors)
  /\ (forall x, x <> final -> heap w !! x = heap w0 !! x)
  /\ plugins w = plugins w0
  /\ GeneratedPlugins w = GeneratedPlugins w0
  /\ innerHTML w = innerHTML w0.

(** A change of the record that leaves its file name and its authors
    alone. *)
Definition keeps_filename (f : PluginObj -> PluginObj) : Prop :=
  forall o, filename (f o) = filename o /\ authors_null (f o) = authors_null o.

(** An event other than a call of [startPlugin] on a plugin record. *)
Definition quiet_event (e : Event) : bool :=
  match e with
  | EvStartPlugin (Some _) => false
  | _ => true
  end.

(** Since the events [before], no plugin record was handed to
    [startPlugin]. *)
Definition quiet_since (before : list Event) (w : World) : Prop :=
  exists evs, events w = before ++ evs /\ forallb quiet_event evs = true.

(** The plugin [n] is detached from the registry. *)
Definition unregistered (n : string) (before : list Event) (w : World) : Prop :=
  plugins w !! n = None /\ quiet_since before w.

(** While the record [p] of the plugin [n] is being stopped: the file
    system, the registry and the identity of the record stay as they are. *)
Definition detaching (files : option (gmap string File)) (p : Ref)
    (file n : string) (registry : gmap string Ref) (before : list Event)
    (w : World) : Prop :=
  fs w = files
  /\ (exists o, heap w !! p = Some o /\ filename o = file /\ name o = n)
  /\ plugins w = registry
  /\ quiet_since before w.

Section Assembler.
(** The metadata parsers and the evaluation of the plugin text in its
    constructed scope, as functions of the source text and file name. *)
Variable parseLegacyMeta : string -> string -> Result PluginMeta.
Variable parseNewMeta : string -> string -> Result PluginMeta.
Variable wrapBetterDiscordPluginCode : string -> string -> Result Exports.

Definition parse_meta (BetterDiscordPlugin file : string) : Result PluginMeta :=
  if includes "//META" (substring 0 64 BetterDiscordPlugin)
  then parseLegacyMeta BetterDiscordPlugin file
  else parseNewMeta BetterDiscordPlugin file.

(** [exports[final.name] ?? exports.default] for an object, the export
    itself otherwise. *)
Definition resolve_export (e : Exports) (n : string) : option Export :=
  match e with
  | ExportsObject named dflt =>
      match named n with Some x => Some x | None => dflt end
  | ExportsValue x => x
  end.

(** [exports.prototype ? new exports(final) : exports(final)] *)
Definition instantiate (e : option Export) (o : PluginObj)
    : Result (option Instance) :=
  match e with
  | None => Throw type_error
  | Some x => if has_prototype x then construct x o else call x o
  end.

(** Lines 184-223: the record is created, the metadata parsed and merged
    into it, and its proxy pushed on the queued list. *)
Definition convert_parse_and_queue (BetterDiscordPlugin file srcPath : string)
    : M Ref :=
  final <- alloc (mkPlugin "" None "" file srcPath None "" false None None) ;;
  emit (EvParseMeta file) ;;;
  parsedMeta <- lift (parse_meta BetterDiscordPlugin file) ;;
  update final (assign_meta parsedMeta) ;;;
  emit (EvQueuePush final) ;;;
  modify (fun w => set_queuedPlugins (queuedPlugins w ++ [final]) w) ;;;
  ret final.

(** Lines 225-253: the code is evaluated and instantiated, the legacy
    getters applied and a duplicate name suffixed. *)
Definition convert_instantiate (BetterDiscordPlugin file : string)
    (detectDuplicateName : bool) (final : Ref) : M unit :=
  emit (EvSandboxEval file) ;;;
  exports <- lift (wrapBetterDiscordPluginCode BetterDiscordPlugin file) ;;
  o <- read final ;;
  emit (EvInstantiate final) ;;;
  made <- try_catch (lift (instantiate (resolve_export exports (name o)) o))
                    (fun error => emit (EvLoggerError file) ;;; throw error) ;;
  match made with
  | None => throw type_error
  | Some inst =>
      update final (set_instance (Some inst)) ;;;
      match load inst with Some r => lift r | None => ret tt end ;;;
      match getName inst with
      | Some r => n <- lift r ;; update final (set_name n)
      | None => ret tt
      end ;;;
      match getVersion inst with
      | Some r =>
          v <- lift r ;;
          update final (set_version (Some (if str_truthy v then v else "6.6.6")))
      | None => ret tt
      end ;;;
      match getDescription inst with
      | Some r => d <- lift r ;; update final (set_description d)
      | None => ret tt
      end ;;;
      o <- read final ;;
      update final (set_originalName (Some (name o))) ;;;
      w <- get_world ;;
      when (detectDuplicateName &&
            match plugins w !! name o ≫= deref w with
            | Some existing =>
                match instance existing with None => true | Some _ => false end
            | None => on_Object_prototype (name o)
            end)
           (update final (set_name (name o ++ "-BD")))
  end.

(** Lines 256-279: the required fields are checked; a missing one raises
    the notice and throws.  The notice shows the element, and the error
    carries its [innerHTML]: the markup as the document parsed and
    serialised it. *)
Definition convert_validate (final : Ref) : M unit :=
  o <- read final ;;
  match whatsMissing o with
  | [] => ret tt
  | missing =>
      w <- get_world ;;
      let newTextElement := innerHTML w (incomplete_html o missing) in
      showNotice newTextElement 0 ["Didn't ask ;-)"] ;;;
      throw (JSError ("Incomplete plugin, " ++ newTextElement))
  end.

(** Lines 281-320: the options are built (line 293 reads
    [final.authors[0]]), [start]/[stop] are bound and the placeholder leaves
    the queue. *)
Definition convert_finish (final : Ref) : M Ref :=
  o <- read final ;;
  when (authors_null o) (throw type_error) ;;;
  w <- get_world ;;
  match findIndex (filename_is w (filename o)) (queuedPlugins w) with
  | Some index =>
      emit (EvQueueRemove index) ;;;
      modify (fun w => set_queuedPlugins (splice1 index (queuedPlugins w)) w)
  | None => ret tt
  end ;;;
  ret final.

(** Lines 184-253: the record after metadata parsing and legacy-getter
    overrides. *)
Definition convert_assemble (BetterDiscordPlugin file : string)
    (detectDuplicateName : bool) (srcPath : string) : M Ref :=
  final <- convert_parse_and_queue BetterDiscordPlugin file srcPath ;;
  convert_instantiate BetterDiscordPlugin file detectDuplicateName final ;;;
  ret final.

Definition convertPlugin (BetterDiscordPlugin file : string)
    (detectDuplicateName : bool) (srcPath : string) : M Ref :=
  final <- convert_assemble BetterDiscordPlugin file detectDuplicateName srcPath ;;
  convert_validate final ;;;
  convert_finish final.

(** [statSync(path).mtimeMs | 0] when the file is there. *)
Definition stat_sig (w : World) (path : string) : option (option Z) :=
  match fs w with
  | None => None
  | Some files => Some ((fun f => to_int32 (mtimeMs f)) <$> files !! path)
  end.

(** [addCustomPlugin].  The test [name in pluginsStatus] is the test for a
    remembered status: the names that the settings object inherits
    ([constructor], [toString] and the like), under which nothing is
    remembered, are also [in] it and are left to the properties that speak
    of this function. *)
Definition addCustomPlugin (generated : Ref) : M unit :=
  g <- read generated ;;
  modify (fun w => set_plugins (<[name g := generated]> (plugins w)) w) ;;;
  w <- get_world ;;
  match stat_sig w (plugin_path (filename g)) with
  | None => update generated (set_bdFileSig (Some 0%Z))
  | Some (Some sig) => update generated (set_bdFileSig (Some sig))
  | Some None => ret tt
  end ;;;
  set_enabled (name g) false ;;;
  w <- get_world ;;
  match pluginsStatus w !! name g with
  | Some thePluginStatus =>
      set_enabled (name g) thePluginStatus ;;;
      when thePluginStatus (startPlugin (plugins w !! name g))
  | None => ret tt
  end ;;;
  w <- get_world ;;
  match plugins w !! name g with
  | Some r => modify (fun w => set_GeneratedPlugins (GeneratedPlugins w ++ [r]) w)
  | None => ret tt
  end.

(** *** Plugin registry facade (fakeBdApi: [PluginsHolder]) *)

Definition matches_any (w : World) (idOrFile : string) (r : Ref) : bool :=
  match deref w r with
  | Some p =>
      String.eqb (name p) idOrFile
      || match originalName p with
         | Some n => String.eqb n idOrFile | None => false end
      || String.eqb (plugin_id p) idOrFile
      || String.eqb (filename p) idOrFile
  | None => false
  end.

Definition resolvePluginByAny (w : World) (idOrFile : string) : option Ref :=
  List.find (matches_any w idOrFile) (GeneratedPlugins w ++ queuedPlugins w).

Definition safeStopPlugin (n : string) : M unit :=
  try_catch (w <- get_world ;; stopPlugin (plugins w !! n)) (fun _ => ret tt) ;;;
  emit (EvUnpatchAll n) ;;;
  emit (EvRemoveStyle n).

Definition getFileSig (w : World) (p : option PluginObj) : option Z :=
  match fs w, p with
  | Some files, Some o =>
      if str_truthy (filename o)
      then (fun f => to_int32 (mtimeMs f)) <$> files !! plugin_path (filename o)
      else None
  | _, _ => None
  end.

Definition stampFileSigOnCurrent (n : string) : M unit :=
  w <- get_world ;;
  match plugins w !! n with
  | Some r =>
      match deref w r with
      | Some inst =>
          when (str_truthy (filename inst))
               (update r (set_bdFileSig (getFileSig w (Some inst))))
      | None => ret tt
      end
  | None => ret tt
  end.

Definition readFileSync (path : string) : M string :=
  emit (EvReadFile path) ;;;
  w <- get_world ;;
  match fs w ≫= (fun files => files !! path) with
  | Some f => ret (content f)
  | None => throw (JSError "ENOENT")
  end.

(** [xs.indexOf(x)] *)
Definition indexOf (x : Ref) (xs : list Ref) : option nat :=
  findIndex (Nat.eqb x) xs.

(** [softReloadBDPlugin], "Stop & cleanup" and "Detach from registries". *)
Definition soft_detach (p : Ref) : M unit :=
  w <- get_world ;;
  o <- read p ;;
  match fs w with
  | None => throw (JSError "no-fs-or-filename")
  | Some _ =>
    if negb (str_truthy (filename o)) then throw (JSError "no-fs-or-filename")
    else
      let wasEnabled := isPluginEnabled w (name o) in
      set_status (name o) wasEnabled ;;;
      safeStopPlugin (name o) ;;;
      w <- get_world ;;
      match plugins w !! name o ≫= (fun inst => indexOf inst (GeneratedPlugins w)) with
      | Some idx =>
          modify (fun w => set_GeneratedPlugins (splice1 idx (GeneratedPlugins w)) w)
      | None => ret tt
      end ;;;
      modify (fun w => set_plugins (delete (name o) (plugins w)) w)
  end.

(** [softReloadBDPlugin], "Load new code + reconvert + re-add", then the
    changelog that a version change schedules. *)
Definition soft_reattach (p : Ref) : M unit :=
  o <- read p ;;
  let fullPath := plugin_path (filename o) in
  let oldVer := version o in
  code <- readFileSync fullPath ;;
  assembled <- convertPlugin code (filename o) true folder ;;
  a <- read assembled ;;
  let newVer := version a in
  addCustomPlugin assembled ;;;
  stampFileSigOnCurrent (name o) ;;;
  match oldVer, newVer with
  | Some ov, Some nv =>
      when (str_truthy ov && str_truthy nv && negb (String.eqb ov nv))
           (emit (EvChangelogScheduled (name o) ov nv))
  | _, _ => ret tt
  end.

Definition softReloadBDPlugin (p : Ref) : M unit :=
  soft_detach p ;;;
  soft_reattach p.

(** The test that sends [enable] to the soft reload. *)
Definition file_changed (current : option PluginObj) (hadSig nowSig : option Z)
    : bool :=
  match nowSig with
  | None => false
  | Some now =>
      (match current with Some c => str_truthy (filename c) | None => false end
       && match hadSig with Some had => negb (had =? now)%Z | None => true end)
      || match hadSig with Some had => (had =? 0)%Z | None => true end
  end.

(** [PluginsHolder.enable] after the plugin [p] has been resolved and the
    intent recorded. *)
Definition enable_resolved (p : Ref) (n : string) : M unit :=
  w <- get_world ;;
  let current := plugins w !! n ≫= deref w in
  let hadSig := current ≫= bdFileSig in
  let nowSig :=
    getFileSig w (match current with Some c => Some c | None => deref w p end) in
  reloaded <-
    (if file_changed current hadSig nowSig then
       try_catch (softReloadBDPlugin p ;;; ret true)
                 (fun e =>
                    emit (EvConsoleWarn
                      "[BdCompat] enable(): soft reload failed, starting old instance") ;;;
                    ret false)
     else ret false) ;;
  if reloaded : bool then ret tt
  else
    try_catch (w <- get_world ;;
               startPlugin (plugins w !! n) ;;;
               stampFileSigOnCurrent n)
              (fun _ => ret tt).

Definition enable (idOrFile : string) : M unit :=
  w <- get_world ;;
  match resolvePluginByAny w idOrFile with
  | None => ret tt
  | Some p =>
      o <- read p ;;
      set_enabled (name o) true ;;;
      set_status (name o) true ;;;
      enable_resolved p (name o)
  end.
End Assembler.


(** *** A sample environment for evaluating the assembler and the registry

    Metadata is read from markers in the text: [@name P] gives the name [P]
    and [@name <!--] the name [<!--], [@version] a version, [@description]
    a description, [@filename Q.plugin.js] and [@started yes] the keys
    [filename] and [started]; the text [@bad] makes the parser throw.  The module exports a constructor that throws
    when the text holds [@throw]. *)
Module Sample.

Definition parseNewMeta (src file : string) : Result PluginMeta :=
  if includes "@bad" src then Throw (JSError "meta")
  else Ok (mkMeta
             (Some (if includes "@name P" src then "P"
                    else if includes "@name <!--" src then "<!--" else ""))
             (Some (if includes "@name P" src then "P"
                    else if includes "@name <!--" src then "<!--" else file))
             (Some (if includes "@description" src then "A plugin" else ""))
             (Some (if includes "@version 2" src then "2.0.0"
                    else if includes "@version" src then "1.0.0" else ""))
             None
             (if includes "@filename Q.plugin.js" src
              then Some "Q.plugin.js" else None)
             None
             (if includes "@started yes" src
              then Some (VString "yes") else None)
             None false).

Definition parseLegacyMeta (src file : string) : Result PluginMeta :=
  Throw (JSError "JSON").

Definition quiet : Instance :=
  mkInstance None None None None (Ok tt) (Ok tt).

Definition wrapBetterDiscordPluginCode (src file : string) : Result Exports :=
  Ok (ExportsValue (Some (mkExport true
        (fun _ => if includes "@throw" src
                  then Throw (JSError "constructor") else Ok (Some quiet))
        (fun _ => Throw type_error)))).

Definition convertPlugin :=
  Compat.convertPlugin parseLegacyMeta parseNewMeta wrapBetterDiscordPluginCode.
Definition addCustomPlugin := Compat.addCustomPlugin.
Definition enable :=
  Compat.enable parseLegacyMeta parseNewMeta wrapBetterDiscordPluginCode.

(** A document for the sample texts: a comment that the markup opens and
    does not close runs to the end of the markup and is serialised with
    its end; nothing else in the samples is changed by the document. *)
Definition document (markup : string) : string :=
  if includes "<!--" markup && negb (includes "-->" markup)
  then markup ++ "-->" else markup.

Definition empty_world : World :=
  mkWorld ∅ 0 ∅ [] [] ∅ ∅ (Some ∅) [] [] document.

Definition good_source : string := "/** @name P @version @description */".
Definition no_version_source : string := "/** @name P @description */".
Definition renamed_source : string :=
  "/** @name P @version @description @filename Q.plugin.js */".
Definition started_source : string :=
  "/** @name P @version @description @started yes */".
Definition throwing_source : string := "/** @name P @version @description @throw */".

(** The plugin [P], loaded from [P.plugin.js] (last modified at 1000 ms),
    registered and disabled. *)
Definition loaded_world : World :=
  let w := set_pluginsStatus {[ "P" := false ]}
             (mkWorld ∅ 0 ∅ [] [] ∅ ∅
                (Some {[ plugin_path "P.plugin.js" := mkFile good_source 1000 ]})
                [] [] document) in
  snd (bind (convertPlugin good_source "P.plugin.js" true folder)
            addCustomPlugin w).

(** The file on disk is then replaced by a text that lacks [@version]. *)
Definition edited_world : World :=
  mkWorld (heap loaded_world) (next_ref loaded_world) (plugins loaded_world)
          (GeneratedPlugins loaded_world) (queuedPlugins loaded_world)
          (settings_enabled loaded_world) (pluginsStatus loaded_world)
          (Some {[ plugin_path "P.plugin.js" := mkFile no_version_source 2000 ]})
          (notices loaded_world) [] (innerHTML loaded_world).

(** Or by a text whose metadata comment does not parse. *)
Definition broken_source : string := "/** @bad */".

Definition broken_world : World :=
  mkWorld (heap loaded_world) (next_ref loaded_world) (plugins loaded_world)
          (GeneratedPlugins loaded_world) (queuedPlugins loaded_world)
          (settings_enabled loaded_world) (pluginsStatus loaded_world)
          (Some {[ plugin_path "P.plugin.js" := mkFile broken_source 2000 ]})
          (notices loaded_world) [] (innerHTML loaded_world).

(** The record of [P] in [loaded_world]. *)
Definition loaded_record : PluginObj :=
  mkPlugin "P" (Some "P") "P" "P.plugin.js" folder (Some "1.0.0") "A plugin"
           false (Some quiet) (Some 1000%Z).
End Sample.

End Compat.

(** ** Runtime shims: [require] (index: [FakeRequireRedirect]) *)
Module Shims.
Import JS.

(** What a lookup in [ReImplementationObject] can give. *)
Inductive Shim : Type :=
  | shim_fs
  | shim_path
  | shim_https
  | shim_request
  | shim_events
  | shim_electron
  | shim_crypto
  | shim_process
  | inherited (key : string)
  | undefined.

(** [ReImplementationObject[name]]: the own keys of the object literal, the
    getter [request] (which gives the shim only with the experimental
    polyfills enabled), then what the object inherits. *)
Definition ReImplementationObject (enableExperimentalRequestPolyfills : bool)
    (name : string) : Shim :=
  if String.eqb name "fs" then shim_fs
  else if String.eqb name "path" then shim_path
  else if String.eqb name "https" then shim_https
  else if String.eqb name "request_" then shim_request
  else if String.eqb name "request" then
    (if enableExperimentalRequestPolyfills then shim_request else undefined)
  else if String.eqb name "events" then shim_events
  else if String.eqb name "electron" then shim_electron
  else if String.eqb name "crypto" then shim_crypto
  else if String.eqb name "process" then shim_process
  else if on_Object_prototype name then inherited name
  else undefined.

(** [window.require]: a property read, nothing else. *)
Definition FakeRequireRedirect (enableExperimentalRequestPolyfills : bool)
    (name : string) : Result Shim :=
  Ok (ReImplementationObject enableExperimentalRequestPolyfills name).

Definition own_keys : list string :=
  ["fs"; "path"; "https"; "request_"; "request"; "events"; "electron";
   "crypto"; "process"].

(** The allow-list of the specification. *)
Definition allow_list : list string :=
  ["fs"; "path"; "events"; "electron"; "crypto"; "process"; "https"; "request"].

End Shims.

(** ** Persistent data (fakeBdApi: [DataHolder]) *)
Module Data.
Import JS.

Inductive FsCall : Type :=
  | existsSync (path : string)
  | readFileSync (path : string)
  | writeFileSync (path : string).

(** What a label of [DataHolder.pluginData] holds: a plain object, as the
    literal [{}] and [JSON.parse] on the text of an object make one, with
    its own properties and its prototype; or any other value ([JSON.parse]
    also returns [null], numbers, strings, booleans and arrays, and a label
    that names a member of [Object.prototype] reads as that member). *)
Inductive Cached : Type :=
  | Plain (own : gmap string JSValue) (proto : JSValue)
  | Other (v : JSValue).

Section DataHolder.
(** The objects of the engine other than the cache and the plain objects it
    holds ([Object.prototype] and what it inherits to them, arrays, the
    objects stored as data) are left to the engine, with its state. *)
Variable Engine : Type.

(** What the engine does with the assignment [o[key] = data] on a plain
    object [o] that does not own [key]: [o] gets the property, unless a
    setter or a read-only property up its prototype chain handles the
    assignment its own way; [__proto__] is such a setter, and replaces the
    prototype of [o]. *)
Inductive Assignment : Type :=
  | Creates
  | Handled (outcome : Result unit) (after : Engine) (proto : JSValue).

Record Store : Type := mkStore {
  pluginData : gmap string Cached;
  engine : Engine;
  disk : gmap string string;
  fs_calls : list FsCall;
  debug_log : list string
}.

(** [JSON.parse] ([None] when it throws), [JSON.stringify(_, null, 4)]
    ([Ok None] when it returns [undefined], as for a function), the
    conversion of a label or a key to a string (taken to be the same in a
    property name and in the path of a file), the prototype of object
    literals, the read [o[key]] of a property that [o] does not own and
    inherits through [proto], the assignment of such a property, the read
    and the assignment of a property of any other value (a [TypeError] on
    [null]), and what the file system does when it is handed [undefined] to
    write. *)
Variable JSON_parse : string -> option Cached.
Variable JSON_stringify : Engine -> Cached -> Result (option string).
Variable ToString : JSValue -> string.
Variable Object_prototype : JSValue.
Variable get_inherited : Engine -> JSValue -> string -> Result JSValue.
Variable assign_inherited : Engine -> JSValue -> string -> JSValue -> Assignment.
Variable get_property : Engine -> JSValue -> string -> Result JSValue.
Variable set_property :
  Engine -> JSValue -> string -> JSValue -> Result unit * Engine.
Variable write_undefined :
  string -> gmap string string -> Result unit * gmap string string.

(** [PluginsHolder.folder + "/" + key + ".config.json"] *)
Definition config_path (key : string) : string :=
  "/BD/plugins" ++ "/" ++ key ++ ".config.json".

(** [{}] *)
Definition empty_object : Cached := Plain ∅ Object_prototype.

Definition set_pluginData (d : gmap string Cached) (st : Store) : Store :=
  mkStore d (engine st) (disk st) (fs_calls st) (debug_log st).

Definition set_engine (e : Engine) (st : Store) : Store :=
  mkStore (pluginData st) e (disk st) (fs_calls st) (debug_log st).

Definition set_disk (d : gmap string string) (st : Store) : Store :=
  mkStore (pluginData st) (engine st) d (fs_calls st) (debug_log st).

Definition call_fs (c : FsCall) (st : Store) : Store :=
  mkStore (pluginData st) (engine st) (disk st) (fs_calls st ++ [c])
          (debug_log st).

Definition debug (line : string) (st : Store) : Store :=
  mkStore (pluginData st) (engine st) (disk st) (fs_calls st)
          (debug_log st ++ [line]).

(** [this.pluginData[key]]: the cache is an object literal, so a label it
    does not own reads as what [Object.prototype] inherits to it. *)
Definition cached (key : string) (st : Store) : Result Cached :=
  match pluginData st !! key with
  | Some c => Ok c
  | None =>
      match get_inherited (engine st) Object_prototype key with
      | Ok v => Ok (Other v)
      | Throw e => Throw e
      end
  end.

(** [typeof c !== "undefined"] *)
Definition defined (c : Cached) : bool :=
  match c with
  | Other VUndefined => false
  | _ => true
  end.

(** [this.pluginData[key] = c], which runs only where the read of the label
    gave [undefined]: nothing is inherited under the label, and the cache
    gets the property. *)
Definition set_cached (key : string) (c : Cached) (st : Store) : Store :=
  set_pluginData (<[key := c]> (pluginData st)) st.

Definition latestDataCheck (key : string) (st : Store) : Result unit * Store :=
  match cached key st with
  | Throw e => (Throw e, st)
  | Ok c =>
      if defined c then (Ok tt, st)
      else
        let p := config_path key in
        let st := call_fs (existsSync p) st in
        match disk st !! p with
        | None => (Ok tt, set_cached key empty_object st)
        | Some text =>
            let st := call_fs (readFileSync p) st in
            match JSON_parse text with
            | Some parsed => (Ok tt, set_cached key parsed st)
            | None =>
                (Ok tt,
                 set_cached key empty_object
                   (debug ("Reset corrupted config: " ++ key) st))
            end
        end
  end.

(** [c[key]] *)
Definition read_entry (c : Cached) (key : string) (e : Engine)
    : Result JSValue :=
  match c with
  | Plain own proto =>
      match own !! key with
      | Some v => Ok v
      | None => get_inherited e proto key
      end
  | Other v => get_property e v key
  end.

(** [c[key] = data]: the outcome, the object after it and the engine after
    it. *)
Definition write_entry (c : Cached) (key : string) (data : JSValue)
    (e : Engine) : Result unit * Cached * Engine :=
  match c with
  | Plain own proto =>
      match own !! key with
      | Some _ => (Ok tt, Plain (<[key := data]> own) proto, e)
      | None =>
          match assign_inherited e proto key data with
          | Creates => (Ok tt, Plain (<[key := data]> own) proto, e)
          | Handled r e' proto' => (r, Plain own proto', e')
          end
      end
  | Other v =>
      let '(r, e') := set_property e v key data in (r, Other v, e')
  end.

(** [DataHolder.load(key, value)]: [key] is the label, [value] the name of
    the entry. *)
Definition load (key value : JSValue) (st : Store) : Result JSValue * Store :=
  if negb (truthy value) || negb (truthy key) then (Ok VUndefined, st)
  else
    match latestDataCheck (ToString key) st with
    | (Throw e, st) => (Throw e, st)
    | (Ok _, st) =>
        match cached (ToString key) st with
        | Throw e => (Throw e, st)
        | Ok c => (read_entry c (ToString value) (engine st), st)
        end
    end.

(** [DataHolder.save(key, value, data)] *)
Definition save (key value data : JSValue) (st : Store) : Result unit * Store :=
  if negb (truthy value) || negb (truthy key) || negb (truthy data)
  then (Ok tt, st)
  else
    match latestDataCheck (ToString key) st with
    | (Throw e, st) => (Throw e, st)
    | (Ok _, st) =>
        match cached (ToString key) st with
        | Throw e => (Throw e, st)
        | Ok c =>
            let '(r, c', e') :=
              write_entry c (ToString value) data (engine st) in
            let st :=
              set_engine e'
                (set_pluginData
                   (alter (fun _ => c') (ToString key) (pluginData st)) st) in
            match r with
            | Throw e => (Throw e, st)
            | Ok _ =>
                let p := config_path (ToString key) in
                match cached (ToString key) st with
                | Throw e => (Throw e, st)
                | Ok c =>
                    match JSON_stringify (engine st) c with
                    | Throw e => (Throw e, st)
                    | Ok (Some text) =>
                        (Ok tt,
                         set_disk (<[p := text]> (disk st))
                           (call_fs (writeFileSync p) st))
                    | Ok None =>
                        let st := call_fs (writeFileSync p) st in
                        let '(r, d) := write_undefined p (disk st) in
                        (r, set_disk d st)
                    end
                end
            end
        end
    end.
End DataHolder.

Arguments mkStore {Engine} _ _ _ _ _.
Arguments pluginData {Engine} _.
Arguments engine {Engine} _.
Arguments disk {Engine} _.
Arguments fs_calls {Engine} _.
Arguments debug_log {Engine} _.
Arguments Creates {Engine}.
Arguments Handled {Engine} _ _ _.

(** *** A sample engine

    Keys are strings, nothing parses, every object is written as ["{}"];
    [Object.prototype] is the object 0 and its members are the objects 1;
    [__proto__] is its setter, which takes objects and [null] as the new
    prototype; values other than plain objects have no properties and take
    none. *)
Module Sample.

Definition ToString (v : JSValue) : string :=
  match v with VString s => s | _ => "" end.

Definition Object_prototype : JSValue := VObject 0.

Definition get_inherited (_ : unit) (proto : JSValue) (key : string)
    : Result JSValue :=
  match proto with
  | VObject 0 =>
      if String.eqb key "__proto__" then Ok proto
      else if on_Object_prototype key then Ok (VObject 1)
      else Ok VUndefined
  | _ => Ok VUndefined
  end.

Definition assign_inherited (e : unit) (proto : JSValue) (key : string)
    (data : JSValue) : Assignment unit :=
  if String.eqb key "__proto__" then
    match data with
    | VObject _ | VNull => Handled (Ok tt) e data
    | _ => Handled (Ok tt) e proto
    end
  else Creates.

Definition get_property (_ : unit) (v : JSValue) (_ : string)
    : Result JSValue :=
  match v with
  | VUndefined | VNull => Throw (JSError "TypeError")
  | _ => Ok VUndefined
  end.

Definition set_property (e : unit) (_ : JSValue) (_ : string) (_ : JSValue)
    : Result unit * unit :=
  (Throw (JSError "TypeError"), e).

Definition write_undefined (_ : string) (d : gmap string string)
    : Result unit * gmap string string :=
  (Throw (JSError "TypeError"), d).

Definition JSON_stringify (_ : unit) (c : Cached) : Result (option string) :=
  match c with
  | Plain _ _ => Ok (Some "{}")
  | Other _ => Ok None
  end.

Definition latestDataCheck (JSON_parse : string -> option Cached) :=
  latestDataCheck unit JSON_parse Object_prototype get_inherited.

Definition load (JSON_parse : string -> option Cached) :=
  load unit JSON_parse ToString Object_prototype get_inherited get_property.

Definition save (JSON_parse : string -> option Cached) :=
  save unit JSON_parse JSON_stringify ToString Object_prototype get_inherited
       assign_inherited set_property write_undefined.

Definition store : Store unit :=
  mkStore {[ "P" := Plain {[ "k" := VString "old" ]} Object_prototype ]}
          tt ∅ [] [].

End Sample.

End Data.

(** ** Module lookup facade (fakeBdApi: [WebpackHolder]) *)
Module Webpack.
Import JS.

(** *** [waitForModule]

    The promise, the closure variable [aborted], the abort listener on the
    signal and the subscription with the host's [waitFor] form the state;
    the signal firing and the host finding the module are the events. *)

Record FoundModule : Type := mkFound {
  module_id : nat;
  is_function : bool
}.

(** What the promise can be resolved with. *)
Inductive Resolution : Type :=
  | NotFound
  | Module (m : FoundModule)
  | Wrapper (m : FoundModule)
  | RawExports (result : Resolution).

Record WaitOptions : Type := mkOptions {
  defaultExport : bool;
  raw : bool;
  signal : option bool
}.

Record Wait : Type := mkWait {
  aborted : bool;
  signal_aborted : bool;
  listening : bool;
  subscribed : bool;
  settled : option Resolution;
  resolve_calls : nat
}.

(** [resolve(v)]: a promise that is already settled ignores the call. *)
Definition resolve (v : Resolution) (st : Wait) : Wait :=
  mkWait (aborted st) (signal_aborted st) (listening st) (subscribed st)
         (match settled st with Some old => Some old | None => Some v end)
         (S (resolve_calls st)).

Definition removeEventListener (st : Wait) : Wait :=
  mkWait (aborted st) (signal_aborted st) false (subscribed st)
         (settled st) (resolve_calls st).

Definition onAbort (st : Wait) : Wait :=
  resolve NotFound
    (removeEventListener
       (mkWait true (signal_aborted st) (listening st) (subscribed st)
               (settled st) (resolve_calls st))).

(** The executor of the promise; [existingModule] is what [getModule]
    finds at call time. *)
Definition waitForModule (options : WaitOptions)
    (existingModule : option FoundModule) : Wait :=
  let st := mkWait false (default false (signal options)) false false None 0 in
  match signal options with
  | Some true => onAbort st
  | _ =>
      let st :=
        match signal options with
        | Some _ => mkWait (aborted st) (signal_aborted st) true (subscribed st)
                           (settled st) (resolve_calls st)
        | None => st
        end in
      match existingModule with
      | Some m => resolve (Module m) (removeEventListener st)
      | None => mkWait (aborted st) (signal_aborted st) (listening st) true
                       (settled st) (resolve_calls st)
      end
  end.

(** The callback handed to [Vencord.Webpack.waitFor]. *)
Definition onFound (options : WaitOptions) (foundModule : FoundModule)
    (st : Wait) : Wait :=
  let st := removeEventListener st in
  if aborted st then st
  else
    let result :=
      if negb (defaultExport options) && is_function foundModule
      then Wrapper foundModule else Module foundModule in
    resolve (if raw options then RawExports result else result) st.

Inductive WaitEvent : Type :=
  | SignalAborts
  | Discovery (foundModule : FoundModule).

(** The signal fires its listeners once, when it goes from not aborted to
    aborted; the host calls a subscription once and drops it. *)
Definition wait_step (options : WaitOptions) (st : Wait) (ev : WaitEvent)
    : Wait :=
  match ev with
  | SignalAborts =>
      match signal options with
      | None => st
      | Some _ =>
          if signal_aborted st then st
          else
            let st := mkWait (aborted st) true (listening st) (subscribed st)
                             (settled st) (resolve_calls st) in
            if listening st then onAbort st else st
      end
  | Discovery m =>
      if subscribed st
      then onFound options m
             (mkWait (aborted st) (signal_aborted st) (listening st) false
                     (settled st) (resolve_calls st))
      else st
  end.

Definition wait_run (options : WaitOptions) (st : Wait)
    (evs : list WaitEvent) : Wait :=
  fold_left (wait_step options) evs st.

(** The promise is pending and [resolve] has not been called, or it has
    been called once, the abort listener is gone and a subscription that is
    left belongs to an aborted wait. *)
Definition settled_once (st : Wait) : Prop :=
  (resolve_calls st = 0%nat /\ settled st = None)
  \/ (resolve_calls st = 1%nat /\ is_Some (settled st)
      /\ listening st = false
      /\ (subscribed st = true -> aborted st = true)).

(** No discovery among the events. *)
Definition no_discovery (evs : list WaitEvent) : Prop :=
  forall m, ~ In (Discovery m) evs.

(** *** [getMangled] *)

Inductive Property : Type :=
  | DataProperty (value : JSValue)
  | AccessorProperty (get : option (Result JSValue)) (has_set : bool).

(** A key that [for (const key in module)] visits: an own property with
    its descriptor, or an inherited one with what reading it gives. *)
Inductive Enumerated : Type :=
  | Own (p : Property)
  | Inherited (read : Result JSValue).

(** The found module: its enumerable keys in enumeration order. *)
Definition ModuleObj : Type := list (string * Enumerated).

Definition Validator : Type := JSValue -> Result bool.

(** The own properties of a plain object, in the order in which they were
    created; all of them are enumerable, writable data properties. *)
Definition Bag : Type := list (string * JSValue).

(** What an object inherits from: [Object.prototype] for an object
    literal, until an assignment to [__proto__] puts [null] or another
    object in its place. *)
Inductive Prototype : Type :=
  | ObjectPrototype
  | NullPrototype
  | ObjectValue (identity : nat).

(** The objects [writableModule] and [mapped], both created as [{}]. *)
Record Obj : Type := mkObj {
  own : Bag;
  prototype : Prototype
}.

(** [{}] *)
Definition empty_object : Obj := mkObj [] ObjectPrototype.

(** [Object.prototype.hasOwnProperty.call(o, key)] *)
Definition hasOwnProperty (o : Bag) (key : string) : bool :=
  existsb (fun kv => String.eqb (fst kv) key) o.

(** [o[key]] for a key that [o] owns; [undefined] stands for the others. *)
Fixpoint get_property (o : Bag) (key : string) : JSValue :=
  match o with
  | [] => VUndefined
  | (k, v) :: rest => if String.eqb k key then v else get_property rest key
  end.

(** Writing an own data property, created last when it is new. *)
Fixpoint set_property (o : Bag) (key : string) (v : JSValue) : Bag :=
  match o with
  | [] => [(key, v)]
  | (k, old) :: rest =>
      if String.eqb k key then (k, v) :: rest
      else (k, old) :: set_property rest key v
  end.

(** What the prototype chain holds for a key that the object does not own,
    as an assignment sees it. *)
Inductive Inherited_slot : Type :=
  | Assignable
      (** nothing, or a writable data property: the assignment creates an
          own property *)
  | ReadOnly
      (** a data property that is not writable, or an accessor without a
          setter: the assignment throws a TypeError in module code *)
  | Setter (set : JSValue -> Obj -> Result unit * Obj)
      (** an accessor with a setter: the setter runs on the receiver *).

Definition type_error : Error := JSError "TypeError".

(** The setter of [Object.prototype.__proto__]: an object or [null]
    becomes the prototype of the receiver, any other value is ignored. *)
Definition set_proto (v : JSValue) (o : Obj) : Result unit * Obj :=
  match v with
  | VObject identity => (Ok tt, mkObj (own o) (ObjectValue identity))
  | VNull => (Ok tt, mkObj (own o) NullPrototype)
  | _ => (Ok tt, o)
  end.

(** What [Object.prototype] holds for an assignment: the accessor
    [__proto__], and writable methods under its other names. *)
Definition Object_prototype_slot (key : string) : Inherited_slot :=
  if String.eqb key "__proto__" then Setter set_proto else Assignable.

(** A key is an array index when it is the canonical decimal form of an
    integer from 0 to 2^32 - 2. *)
Definition array_index (key : string) : option N :=
  match key with
  | EmptyString => None
  | String c rest =>
      if all_digits key
         && (negb (Ascii.eqb c "0") || String.eqb rest EmptyString)
      then let n := Z.to_N (decimal_value key) in
           if (n <=? 4294967294)%N then Some n else None
      else None
  end.

Definition is_array_index (key : string) : bool :=
  match array_index key with Some _ => true | None => false end.

Fixpoint insert_index {A : Type} (n : N) (entry : string * A)
    (sorted : list (N * (string * A))) : list (N * (string * A)) :=
  match sorted with
  | [] => [(n, entry)]
  | (m, other) :: rest =>
      if (n <=? m)%N then (n, entry) :: sorted
      else (m, other) :: insert_index n entry rest
  end.

(** The properties whose keys are array indices, in ascending order. *)
Fixpoint index_entries {A : Type} (o : list (string * A))
    : list (N * (string * A)) :=
  match o with
  | [] => []
  | entry :: rest =>
      match array_index (fst entry) with
      | Some n => insert_index n entry (index_entries rest)
      | None => index_entries rest
      end
  end.

(** The order of [Object.keys(o)], each key with the value [o[key]]: array
    indices in ascending order, then the other keys in creation order. *)
Definition own_entries {A : Type} (o : list (string * A))
    : list (string * A) :=
  map snd (index_entries o)
  ++ List.filter (fun entry => negb (is_array_index (fst entry))) o.

Definition outcome (r : Result unit * Obj) : Result Obj :=
  match fst r with
  | Ok _ => Ok (snd r)
  | Throw e => Throw e
  end.

(** [module[key]] *)
Definition read_enumerated (e : Enumerated) : Result JSValue :=
  match e with
  | Own (DataProperty v) => Ok v
  | Own (AccessorProperty (Some r) _) => r
  | Own (AccessorProperty None _) => Ok VUndefined
  | Inherited r => r
  end.

(** The result with the object that the hidden symbol refers to. *)
Record Mangled : Type := mkMangled {
  fields : Obj;
  marker : option Obj
}.

Section GetMangled.
(** What the objects among the module's values hold along their prototype
    chains; it matters only once such a value has become the prototype of
    [writableModule] or [mapped]. *)
Variable chain : nat -> string -> Inherited_slot.

Definition inherited (p : Prototype) (key : string) : Inherited_slot :=
  match p with
  | ObjectPrototype => Object_prototype_slot key
  | NullPrototype => Assignable
  | ObjectValue identity => chain identity key
  end.

(** [o[key] = v] in module code, with the object as the assignment leaves
    it. *)
Definition assign (o : Obj) (key : string) (v : JSValue)
    : Result unit * Obj :=
  if hasOwnProperty (own o) key
  then (Ok tt, mkObj (set_property (own o) key v) (prototype o))
  else match inherited (prototype o) key with
       | Assignable => (Ok tt, mkObj (set_property (own o) key v) (prototype o))
       | ReadOnly => (Throw type_error, o)
       | Setter set => set v o
       end.

(** One iteration of the loop that fills [writableModule]. *)
Definition flatten_step (acc : Result Obj) (entry : string * Enumerated)
    : Result Obj :=
  match acc with
  | Throw e => Throw e
  | Ok writableModule =>
      let '(key, e) := entry in
      match e with
      | Own (AccessorProperty (Some r) false) =>
          match r with
          | Ok value =>
              match assign writableModule key value with
              | (Ok _, o) => Ok o
              | (Throw _, o) => outcome (assign o key VUndefined)
              end
          | Throw _ => outcome (assign writableModule key VUndefined)
          end
      | _ =>
          match read_enumerated e with
          | Ok value => outcome (assign writableModule key value)
          | Throw err => Throw err
          end
      end
  end.

Definition flatten (module : ModuleObj) : Result Obj :=
  fold_left flatten_step module (Ok empty_object).

(** The body of the inner loop over [mapperKeys]; what the validator or
    the assignment throws is caught. *)
Definition try_mapper (value : JSValue) (mapped : Obj)
    (mapper : string * Validator) : Obj :=
  let '(key, validator) := mapper in
  if hasOwnProperty (own mapped) key then mapped
  else match validator value with
       | Ok true => snd (assign mapped key value)
       | _ => mapped
       end.

Definition match_property (mapperKeys : list (string * Validator))
    (mapped : Obj) (searched : string * JSValue) : Obj :=
  fold_left (try_mapper (snd searched)) mapperKeys mapped.

(** "Ensure ALL mapper keys exist (even if undefined)" *)
Definition ensure_key (acc : Result Obj) (mapper : string * Validator)
    : Result Obj :=
  match acc with
  | Throw e => Throw e
  | Ok mapped =>
      if hasOwnProperty (own mapped) (fst mapper) then Ok mapped
      else outcome (assign mapped (fst mapper) VUndefined)
  end.

(** [getMangled]; [found] is what [getModule] returns for the filter (its
    [exports] when [raw] is set), [mappers] the own enumerable properties
    of the mapping in creation order. *)
Definition getMangled (found : option ModuleObj)
    (mappers : list (string * Validator)) : Result Mangled :=
  match found with
  | None => Ok (mkMangled empty_object None)
  | Some module =>
      match flatten module with
      | Throw e => Throw e
      | Ok writableModule =>
          let moduleKeys := own_entries (own writableModule) in
          let mapperKeys := own_entries mappers in
          let mapped :=
            fold_left (match_property mapperKeys) moduleKeys empty_object in
          match fold_left ensure_key mapperKeys (Ok mapped) with
          | Throw e => Throw e
          | Ok mapped => Ok (mkMangled mapped (Some writableModule))
          end
      end
  end.

End GetMangled.

(** A mapping without the key [__proto__]. *)
Definition plain_keys (mapperKeys : list (string * Validator)) : Prop :=
  Forall (fun mapper => fst mapper <> "__proto__") mapperKeys.

(** Objects that inherit from [Object.prototype] and from nothing else. *)
Definition ordinary_chain : nat -> string -> Inherited_slot :=
  fun _ => Object_prototype_slot.

End Webpack.

(** ** Scoped API instances (fakeBdApi: [BdApiReImplementationInstance]) *)
Module ScopedApi.
Import JS.

Definition Ref : Type := nat.

(** A facade is one of the shared holders or a wrapper object created for a
    label. *)
Inductive Facade : Type :=
  | Holder
  | WrapperObject (identity : Ref) (label : string).

Record Instance : Type := mkInstance {
  targetPlugin : option string;
  patcher : Facade;
  data : Facade;
  dom : Facade
}.

(** What [new BdApiReImplementationInstance(label)] evaluates to. *)
Inductive ApiValue : Type :=
  | GlobalApi
  | Scoped (r : Ref)
  | PrototypeMember (key : string).

Record Api : Type := mkApi {
  next_ref : Ref;
  instances : gmap Ref Instance;
  (** [window.BdApi] is set *)
  global_ready : bool;
  (** own properties of [getGlobalApi().labelsOfInstancedAPI] *)
  labelsOfInstancedAPI : gmap string Ref
}.

(** [getGlobalApi().labelsOfInstancedAPI[label]]: an own entry, or what the
    plain object inherits. *)
Definition lookup_label (api : Api) (label : string) : option ApiValue :=
  match labelsOfInstancedAPI api !! label with
  | Some r => Some (Scoped r)
  | None => if on_Object_prototype label then Some (PrototypeMember label)
            else None
  end.

(** The constructor. The object under construction takes the reference
    [next_ref]; the wrappers take the three that follow. *)
Definition construct (label : option string) (api : Api)
    : Result (ApiValue * Api) :=
  let this := next_ref api in
  if opt_truthy label then
    let l := default "" label in
    if global_ready api then
      match lookup_label api l with
      | Some existing =>
          Ok (existing,
              mkApi (S this) (instances api) (global_ready api)
                    (labelsOfInstancedAPI api))
      | None =>
          let inst := mkInstance (Some l)
                        (WrapperObject (this + 1) l) (WrapperObject (this + 2) l)
                        (WrapperObject (this + 3) l) in
          Ok (Scoped this,
              mkApi (this + 4) (<[this := inst]> (instances api))
                    (global_ready api)
                    (<[l := this]> (labelsOfInstancedAPI api)))
      end
    else Throw (JSError "TypeError")
  else
    let inst := mkInstance None Holder Holder Holder in
    Ok (if global_ready api then GlobalApi else Scoped this,
        mkApi (S this) (<[this := inst]> (instances api)) (global_ready api)
              (labelsOfInstancedAPI api)).

(** The getters [Patcher], [Data], [DOM] on what the constructor gave. *)
Definition facade_of (proj : Instance -> Facade) (api : Api) (v : ApiValue)
    : option Facade :=
  match v with
  | GlobalApi => Some Holder
  | Scoped r => proj <$> instances api !! r
  | PrototypeMember _ => None
  end.

(** Further constructions, whatever they return. *)
Definition construct_then (api : Api) (label : option string) : Api :=
  match construct label api with
  | Ok (_, api') => api'
  | Throw _ => api
  end.

Definition construct_all (labels : list (option string)) (api : Api) : Api :=
  fold_left construct_then labels api.

(** The references in the label table were handed out by the allocator. *)
Definition well_formed (api : Api) : Prop :=
  forall l r, labelsOfInstancedAPI api !! l = Some r -> (r < next_ref api)%nat.

(** A result that later allocations cannot touch. *)
Definition allocated (api : Api) (v : ApiValue) : Prop :=
  match v with
  | Scoped r => (r < next_ref api)%nat
  | _ => True
  end.

Definition initial_api : Api := mkApi 1 {[ 0%nat := mkInstance None Holder Holder Holder ]} true ∅.

End ScopedApi.

(** ** Texts *)
Module Text.

(** Every character of the text satisfies [p]. *)
Fixpoint all_chars (p : ascii -> bool) (s : string) : bool :=
  match s with
  | EmptyString => true
  | String c s' => p c && all_chars p s'
  end.

End Text.

(** ** The remote changelog parser and [Utils.semverCompare] (fakeBdApi:
    [tryShowCompatChangelog], [Utils]) *)
Module Versions.
Import JS Changelog.
Section Remote.
Variable Number_other : string -> JSNumber.

(** The variables of the line loop of [tryShowCompatChangelog]: [blocks]
    and the block [cur] under construction. *)
Record BlockLoop : Type := mkBlockLoop {
  blocks : list VersionBlock;
  cur : option VersionBlock
}.

(** [if (cur) blocks.push(cur)] *)
Definition push_cur (st : BlockLoop) : list VersionBlock :=
  match cur st with
  | Some c => blocks st ++ [c]
  | None => blocks st
  end.

(** One iteration of [for (const line of lines)] in the remote parser. *)
Definition block_step (st : BlockLoop) (line : string) : BlockLoop :=
  let ver := match_heading line in
  if opt_truthy ver then
    mkBlockLoop (push_cur st) (Some (mkBlock (default "" ver) []))
  else
    match cur st with
    | Some c =>
        if startsWith "-" (trim line) then
          let item := trim (slice1 (trim line)) in
          if str_truthy item
          then mkBlockLoop (blocks st)
                           (Some (mkBlock (version c) (items c ++ [item])))
          else st
        else st
    | None => st
    end.

(** The closure [isNewer] of [tryShowCompatChangelog]. *)
Definition isNewer (a b : string) : bool :=
  let A := map (Number Number_other) (split_on "." a) in
  let B := map (Number Number_other) (split_on "." b) in
  vcIsNewer_loop A B 0 (Nat.max (length A) (length B)).

(** What [tryShowCompatChangelog] hands to [openModal] for the markdown
    text [md] fetched from the plugin's changelog URL. *)
Definition remote_changes (md fromVer toVer : string) : list ChangelogEntry :=
  let blocks :=
    push_cur (fold_left block_step (split_on "010" md) (mkBlockLoop [] None)) in
  let relevant :=
    List.filter (fun b => isNewer (version b) fromVer
                          && negb (isNewer (version b) toVer)) blocks in
  let buckets := fold_left group_block relevant (mkGrouped [] [] [] []) in
  let changes := [] in
  let changes := push_if_any changes "New Features" added (g_added buckets) in
  let changes := push_if_any changes "Improvements" improved (g_improved buckets) in
  let changes := push_if_any changes "Bug Fixes" fixed (g_fixed buckets) in
  let changes := push_if_any changes "Other Changes" progress (g_other buckets) in
  changes.
End Remote.

(** The entry with the title that the remote parser gives its bucket. *)
Definition remote_title (e : ChangelogEntry) : ChangelogEntry :=
  match type e with
  | fixed => mkEntry "Bug Fixes" fixed (entry_items e)
  | _ => e
  end.

(** [a[i] || 0] for the component [i] of a parsed version. *)
Definition component (a : list JSNumber) (i : nat) : JSNumber := or_zero (a !! i).

(** Neither smaller nor greater. *)
Definition num_eqv (x y : JSNumber) : bool :=
  negb (num_lt x y) && negb (num_lt y x).

(** [cParts[i] ?? 0] *)
Definition or_zero_nullish (o : option JSNumber) : JSNumber :=
  default (JInt 0) o.

Section Semver.
Variable Number_other : string -> JSNumber.

(** The [for] loop of [Utils.semverCompare]; [fuel] counts the indices left
    below 3. *)
Fixpoint semverCompare_loop (cParts nParts : list JSNumber) (i fuel : nat) : Z :=
  match fuel with
  | O => 0
  | S fuel' =>
      let cNum := or_zero_nullish (cParts !! i) in
      let nNum := or_zero_nullish (nParts !! i) in
      if num_lt cNum nNum then (-1)
      else if num_gt cNum nNum then 1
      else semverCompare_loop cParts nParts (S i) fuel'
  end.

Definition semverCompare (c n : string) : Z :=
  let cParts := map (Number Number_other) (split_on "." c) in
  let nParts := map (Number Number_other) (split_on "." n) in
  semverCompare_loop cParts nParts 0 3.
End Semver.

(** The first three components of a version tuple, 0 for a missing one. *)
Definition first_three (xs : list Z) : list Z :=
  map (component_at xs) (seq 0 3).

(** The two line loops, step by step: same blocks so far, and the block
    under construction is [curVer] with [items]. *)
Definition same_loop (st : LineLoop) (bst : BlockLoop) : Prop :=
  versions st = blocks bst
  /\ match cur bst with
     | Some c => curVer st = Some (version c) /\ cur_items st = items c
                 /\ str_truthy (version c) = true
     | None => curVer st = None
     end.

End Versions.

(** ** The rest of the plugin life cycle (fakeBdApi: [PluginsHolder];
    pluginConstructor.ts: [removeAllCustomPlugins]) *)
Module Lifecycle.
Import JS Compat.
Local Open Scope js_scope.

(** [PluginsHolder.getAll] *)
Definition getAll (w : World) : list Ref :=
  GeneratedPlugins w ++ queuedPlugins w.

(** [PluginsHolder.get]: by name, then by original name. *)
Definition get (w : World) (n : string) : option Ref :=
  match List.find (fun r => match deref w r with
                            | Some x => String.eqb (name x) n
                            | None => false
                            end) (getAll w) with
  | Some r => Some r
  | None =>
      List.find (fun r => match deref w r ≫= originalName with
                          | Some o => String.eqb o n
                          | None => false
                          end) (getAll w)
  end.

(** [PluginsHolder.disable] *)
Definition disable (idOrFile : string) : M unit :=
  w <- get_world ;;
  match resolvePluginByAny w idOrFile with
  | None => ret tt
  | Some p =>
      o <- read p ;;
      set_enabled (name o) false ;;;
      set_status (name o) false ;;;
      safeStopPlugin (name o)
  end.

(** The closure [removePlugin] of [removeAllCustomPlugins]. *)
Definition removePlugin (generated : Ref) : M unit :=
  g <- read generated ;;
  set_enabled (name g) false ;;;
  when (started g)
       (w <- get_world ;;
        let currentStatus := pluginsStatus w !! name g in
        stopPlugin (Some generated) ;;;
        when (bool_decide (currentStatus = Some true))
             (set_status (name g) true)) ;;;
  modify (fun w => set_plugins (delete (name g) (plugins w)) w).

(** [for (let i = 0; i < GeneratedPlugins.length; i++)]: the array is read
    at every turn; [fuel] is its length when the loop starts. *)
Fixpoint removeAll_loop (i fuel : nat) : M unit :=
  match fuel with
  | O => ret tt
  | S fuel' =>
      w <- get_world ;;
      match GeneratedPlugins w !! i with
      | Some element => removePlugin element ;;; removeAll_loop (S i) fuel'
      | None => ret tt
      end
  end.

Definition removeAllCustomPlugins : M unit :=
  w <- get_world ;;
  removeAll_loop 0 (length (GeneratedPlugins w)) ;;;
  modify (set_GeneratedPlugins []).

(** Whether the record's [start] and [stop] return; a record without an
    instance has the empty functions of the host. *)
Definition start_returns (o : PluginObj) : bool :=
  match instance o with
  | Some i => match instance_start i with Ok _ => true | Throw _ => false end
  | None => true
  end.

Definition stop_returns (o : PluginObj) : bool :=
  match instance o with
  | Some i => match instance_stop i with Ok _ => true | Throw _ => false end
  | None => true
  end.

(** The names of the records behind the references [l]. *)
Definition names_of (w : World) (l : list Ref) : list string :=
  omap (fun r => name <$> deref w r) l.

(** The record after the host has been asked to stop it. *)
Definition after_stop (g : PluginObj) : PluginObj :=
  if started g && stop_returns g then set_started false g else g.

(** The state of the world while [convertPlugin], called in [w0], assembles
    the record [final]: the registry, the list of generated plugins, the
    two settings bags and the file system are as in [w0], so is every other
    record, and the record itself has the file name [recorded] and the
    value [flag] in [started]. *)
Definition converting (w0 : World) (final : Ref) (recorded : string)
    (flag : JSValue) (w : World) : Prop :=
  plugins w = plugins w0
  /\ GeneratedPlugins w = GeneratedPlugins w0
  /\ pluginsStatus w = pluginsStatus w0
  /\ settings_enabled w = settings_enabled w0
  /\ fs w = fs w0
  /\ (forall x, x <> final -> heap w !! x = heap w0 !! x)
  /\ (exists a, heap w !! final = Some a /\ started_value a = flag
                /\ filename a = recorded).

(** What an assembly called in [w] leaves alone, whether it returns or
    throws: the registry, the list of generated plugins, the two settings
    bags and every object but the one it allocated. *)
Definition frame (w w' : World) : Prop :=
  plugins w' = plugins w /\ GeneratedPlugins w' = GeneratedPlugins w
  /\ pluginsStatus w' = pluginsStatus w
  /\ settings_enabled w' = settings_enabled w
  /\ (forall r, r <> next_ref w -> deref w' r = deref w r).

(** A change of the record that leaves [started] and the file name alone. *)
Definition keeps_started (f : PluginObj -> PluginObj) : Prop :=
  forall o, started_value (f o) = started_value o
            /\ filename (f o) = filename o.

(** [P] after [enable "P"] in [Sample.loaded_world]: registered, enabled
    and running. *)
Definition running_world : World :=
  snd (Sample.enable "P" Sample.loaded_world).

Definition running_record : PluginObj :=
  set_started true Sample.loaded_record.

(** A record assembled from [Sample.good_source] in a world that remembers
    [P] as enabled; it is not registered yet. *)
Definition assembled_world : World :=
  snd (Sample.convertPlugin Sample.good_source "P.plugin.js" true folder
         (set_pluginsStatus {[ "P" := true ]} Sample.empty_world)).

End Lifecycle.

(** ** Metadata parser (pluginConstructor.ts: [parseNewMeta]) *)
Module MetaParser.
Import JS Text.

(** [s.split(sep)] for a non-empty separator string: the text is cut at
    each occurrence of [sep], found from left to right; [skip] counts the
    characters of a separator that are still to be passed over. *)
Fixpoint split_by_from (sep : string) (skip : nat) (s : string)
    : list string :=
  match s with
  | EmptyString => [EmptyString]
  | String c s' =>
      match skip with
      | S k => split_by_from sep k s'
      | O =>
          if startsWith sep s
          then EmptyString :: split_by_from sep (String.length sep - 1) s'
          else match split_by_from sep 0 s' with
               | p :: ps => String c p :: ps
               | [] => [String c EmptyString]
               end
      end
  end.

Definition split_by (sep s : string) : list string := split_by_from sep 0 s.

(** [s.replaceAll(c, "")] for a character [c]. *)
Fixpoint remove_char (c : ascii) (s : string) : string :=
  match s with
  | EmptyString => EmptyString
  | String a s' =>
      if Ascii.eqb a c then remove_char c s' else String a (remove_char c s')
  end.

Record Author : Type := mkAuthor { author_name : string; author_id : Z }.

(** [resultMeta.authors]: the array the parser starts with, or the text a
    line of the comment has stored under the key [authors]. *)
Inductive AuthorsField : Type :=
  | AuthorList (l : list Author)
  | AuthorsText (s : string).

(** [resultMeta]: its five initial keys, and the keys the comment adds, in
    insertion order. *)
Record ResultMeta : Type := mkResultMeta {
  rm_name : string;
  rm_id : string;
  rm_description : option string;
  rm_authors : AuthorsField;
  rm_version : string;
  rm_other : list (string * string)
}.

Fixpoint assoc_set (kvs : list (string * string)) (k v : string)
    : list (string * string) :=
  match kvs with
  | [] => [(k, v)]
  | (k', v') :: rest =>
      if String.eqb k' k then (k', v) :: rest else (k', v') :: assoc_set rest k v
  end.

Fixpoint assoc_get (kvs : list (string * string)) (k : string)
    : option string :=
  match kvs with
  | [] => None
  | (k', v') :: rest => if String.eqb k' k then Some v' else assoc_get rest k
  end.

(** [resultMeta[key] = value] for a text [value]; assigning a text to
    [__proto__] changes nothing. *)
Definition set_field (rm : ResultMeta) (key value : string) : ResultMeta :=
  if String.eqb key "name" then
    mkResultMeta value (rm_id rm) (rm_description rm) (rm_authors rm)
                 (rm_version rm) (rm_other rm)
  else if String.eqb key "id" then
    mkResultMeta (rm_name rm) value (rm_description rm) (rm_authors rm)
                 (rm_version rm) (rm_other rm)
  else if String.eqb key "description" then
    mkResultMeta (rm_name rm) (rm_id rm) (Some value) (rm_authors rm)
                 (rm_version rm) (rm_other rm)
  else if String.eqb key "authors" then
    mkResultMeta (rm_name rm) (rm_id rm) (rm_description rm)
                 (AuthorsText value) (rm_version rm) (rm_other rm)
  else if String.eqb key "version" then
    mkResultMeta (rm_name rm) (rm_id rm) (rm_description rm) (rm_authors rm)
                 value (rm_other rm)
  else if String.eqb key "__proto__" then rm
  else
    mkResultMeta (rm_name rm) (rm_id rm) (rm_description rm) (rm_authors rm)
                 (rm_version rm) (assoc_set (rm_other rm) key value).

(** [resultMeta[key]] for the keys that hold a text. *)
Definition get_field (rm : ResultMeta) (key : string) : option string :=
  if String.eqb key "name" then Some (rm_name rm)
  else if String.eqb key "id" then Some (rm_id rm)
  else if String.eqb key "description" then rm_description rm
  else if String.eqb key "authors" then
    match rm_authors rm with AuthorsText s => Some s | AuthorList _ => None end
  else if String.eqb key "version" then Some (rm_version rm)
  else assoc_get (rm_other rm) key.

(** The variables of the parser: [resultMeta], [authorIds], [authorNames]. *)
Record ParseLoop : Type := mkParseLoop {
  resultMeta : ResultMeta;
  authorIds : list Z;
  authorNames : list string
}.

Definition TypeError : Error := JSError "TypeError".

(** [xs.map(f)] for an [f] that may throw: the first throw ends the map. *)
Fixpoint map_throwing {A B} (f : A -> Result B) (xs : list A)
    : Result (list B) :=
  match xs with
  | [] => Ok []
  | x :: rest =>
      match f x with
      | Throw e => Throw e
      | Ok y => match map_throwing f rest with
                | Throw e => Throw e
                | Ok ys => Ok (y :: ys)
                end
      end
  end.

(** The [metadata] array: the text between the first [/**] and the next
    [*/], line breaks removed, cut at the stars, the pieces [""] and [" "]
    dropped.  There is no [split("/**")[1]] to call [split] on in a text
    without [/**]. *)
Definition metadata_of (pluginCode : string) : Result (list string) :=
  match split_by "/**" pluginCode !! 1%nat with
  | None => Throw TypeError
  | Some after =>
      let comment := List.hd EmptyString (split_by "*/" after) in
      Ok (List.filter
            (fun x => negb (String.eqb x "") && negb (String.eqb x " "))
            (split_on "*" (remove_char "010" (remove_char "013" comment))))
  end.

Section Parser.
(** [window.require("path").basename] and [BigInt] belong to the engine and
    the shims; both may throw. *)
Variable basename : string -> Result string.
Variable BigInt : string -> Result Z.

(** One turn of the loop over [metadata]. *)
Definition meta_step (filename : string) (st : ParseLoop) (raw : string)
    : Result ParseLoop :=
  let element := trim raw in
  let rm := resultMeta st in
  if startsWith "@name" element then
    match split_by "@name" element !! 1%nat with
    | None => Throw TypeError
    | Some v =>
        let n := trim v in
        match (if str_truthy n then Ok n else basename filename) with
        | Throw e => Throw e
        | Ok i =>
            Ok (mkParseLoop
                  (mkResultMeta n i (rm_description rm) (rm_authors rm)
                                (rm_version rm) (rm_other rm))
                  (authorIds st) (authorNames st))
        end
    end
  else if startsWith "@description" element then
    Ok (mkParseLoop
          (mkResultMeta (rm_name rm) (rm_id rm)
                        (split_by "@description " element !! 1%nat)
                        (rm_authors rm) (rm_version rm) (rm_other rm))
          (authorIds st) (authorNames st))
  else if startsWith "@authorLink" element then Ok st
  else if startsWith "@authorId" element then
    match split_by "@authorId " element !! 1%nat with
    | None => Throw TypeError
    | Some v =>
        match map_throwing (fun x => BigInt (trim x)) (split_on "," v) with
        | Throw e => Throw e
        | Ok ids => Ok (mkParseLoop rm ids (authorNames st))
        end
    end
  else if startsWith "@author" element then
    match split_by "@author " element !! 1%nat with
    | None => Throw TypeError
    | Some v => Ok (mkParseLoop rm (authorIds st) (map trim (split_on "," v)))
    end
  else if negb (String.eqb element "") && (2 <? String.length element)%nat then
    match split_on "@" element !! 1%nat with
    | None => Throw TypeError
    | Some after =>
        let key := List.hd EmptyString (split_on " " after) in
        Ok (mkParseLoop
              (set_field rm key (drop_chars (String.length key + 2) element))
              (authorIds st) (authorNames st))
    end
  else Ok st.

Fixpoint meta_loop (filename : string) (st : ParseLoop)
    (metadata : list string) : Result ParseLoop :=
  match metadata with
  | [] => Ok st
  | raw :: rest =>
      match meta_step filename st raw with
      | Throw e => Throw e
      | Ok st' => meta_loop filename st' rest
      end
  end.

(** The loop after the [try]: one author per name, with the id at the same
    index or [0n]. *)
Definition push_authors (st : ParseLoop) : Result ResultMeta :=
  let rm := resultMeta st in
  match authorNames st with
  | [] => Ok rm
  | _ :: _ =>
      match rm_authors rm with
      | AuthorsText _ => Throw TypeError
      | AuthorList l =>
          Ok (mkResultMeta (rm_name rm) (rm_id rm) (rm_description rm)
                (AuthorList
                   (l ++ imap (fun index name =>
                                 mkAuthor name (default 0%Z (authorIds st !! index)))
                              (authorNames st)))
                (rm_version rm) (rm_other rm))
      end
  end.

Definition initial_loop : ParseLoop :=
  mkParseLoop (mkResultMeta "" "" (Some "") (AuthorList []) "" []) [] [].

(** [parseNewMeta]: the parsed object and [metaEndLine].  What the [catch]
    block does is log and throw the error again. *)
Definition parseNewMeta (pluginCode filename : string)
    : Result (ResultMeta * nat) :=
  match metadata_of pluginCode with
  | Throw e => Throw e
  | Ok metadata =>
      match meta_loop filename initial_loop metadata with
      | Throw e => Throw e
      | Ok st =>
          match push_authors st with
          | Throw e => Throw e
          | Ok rm => Ok (rm, (List.length metadata + 3)%nat)
          end
      end
  end.
End Parser.

(** A line of the comment that is no tag: longer than two characters, with
    none of the five tags at its start and no [@] anywhere. *)
Definition free_text (element : string) : bool :=
  negb (startsWith "@name" element)
  && negb (startsWith "@description" element)
  && negb (startsWith "@author" element)
  && (2 <? String.length element)%nat
  && negb (includes "@" element).

(** The line [@key value]. *)
Definition tag_line (t : string * string) : string :=
  "@" ++ fst t ++ " " ++ snd t.

(** A key is a word: no blank and no [@] in it. *)
Definition word (k : string) : bool :=
  str_truthy k
  && all_chars (fun c => negb (Ascii.eqb c " ") && negb (Ascii.eqb c "@")) k.

(** The tags whose line the parser reads back as written: [@name] with a
    value that is not blank and holds no second [@name], [@description]
    with a value that holds no second [@description ], and every other key
    that starts with none of [name], [description], [author] and is not
    [id] or [__proto__]. *)
Definition plain_tag (t : string * string) : bool :=
  let '(k, v) := t in
  word k &&
  (if String.eqb k "name" then
     str_truthy (trim (" " ++ v)) && negb (includes "@name" v)
   else if String.eqb k "description" then
     negb (includes "@description " v)
   else
     negb (startsWith "name" k) && negb (startsWith "description" k)
     && negb (startsWith "author" k)
     && negb (String.eqb k "id") && negb (String.eqb k "__proto__")).

(** What the parser stores for a tag: the trimmed value for [@name], the
    value as written for the others. *)
Definition stored (t : string * string) : string :=
  if String.eqb (fst t) "name" then trim (" " ++ snd t) else snd t.

(** A sample engine: no [path] module, no author ids. *)
Definition no_basename (f : string) : Result string := Throw TypeError.
Definition no_BigInt (s : string) : Result Z := Throw (JSError "SyntaxError").

Definition sample_header : string :=
  "/**" ++ String "010" " * @name Sample Plugin" ++ String "010"
  " * @version 1.2.3" ++ String "010" " * @description Does things."
  ++ String "010" " */" ++ String "010" "module.exports = class {};".

Definition prose_header : string :=
  "/**" ++ String "010" " * A plugin that does things." ++ String "010"
  " * @name Sample Plugin" ++ String "010" " */".

End MetaParser.

(** ** Persistent data across sessions *)
Module Persistence.
Import JS Data.

(** The session after a restart: the disk as it is, nothing cached, on the
    engine [e] of the new session. *)
Definition restarted {Engine} (e : Engine) (st : Store Engine) : Store Engine :=
  mkStore ∅ e (disk st) [] [].

(** The entries of a label as the specification has them: those of the
    cache; for a label that is not cached those of its file, and no entries
    when there is no file or its text does not parse. *)
Definition entries_of {Engine} (JSON_parse : string -> option Cached)
    (Object_prototype : JSValue) (key : string) (st : Store Engine) : Cached :=
  match pluginData st !! key with
  | Some c => c
  | None =>
      match disk st !! config_path key with
      | None => Plain ∅ Object_prototype
      | Some text => default (Plain ∅ Object_prototype) (JSON_parse text)
      end
  end.

Definition sample_entries : Cached :=
  Plain {[ "k" := VString "new" ]} Sample.Object_prototype.

End Persistence.

(** ** Helpers of the facade (fakeBdApi: [Utils], [DOMHolder]; index:
    [fixGhRaw]) *)
Module Helpers.
Import JS Text.

Section GetNestedValue.
(** [current[prop]] on a value that is neither [null] nor [undefined]
    belongs to the engine. *)
Variable get_prop : JSValue -> string -> JSValue.

(** [current == null] *)
Definition nullish (v : JSValue) : bool :=
  match v with VUndefined | VNull => true | _ => false end.

Fixpoint getNestedValue_loop (current : JSValue) (properties : list string)
    : JSValue :=
  match properties with
  | [] => current
  | prop :: rest =>
      if nullish current then VUndefined
      else getNestedValue_loop (get_prop current prop) rest
  end.

(** [Utils.getNestedValue(obj, path)] *)
Definition getNestedValue (obj : JSValue) (path : string) : JSValue :=
  getNestedValue_loop obj (split_on "." path).
End GetNestedValue.

Definition is_letter (c : ascii) : bool :=
  let n := nat_of_ascii c in
  ((65 <=? n)%nat && (n <=? 90)%nat) || ((97 <=? n)%nat && (n <=? 122)%nat).

(** [\w] or [-] *)
Definition is_id_char (c : ascii) : bool :=
  is_letter c || is_digit c || Ascii.eqb c "_" || Ascii.eqb c "-".

(** The second alternative of the pattern, [[^\w-]+], replaced all along
    the text: each maximal run of other characters becomes one [-];
    [in_run] tells that the character before belongs to such a run. *)
Fixpoint replace_runs (in_run : bool) (s : string) : string :=
  match s with
  | EmptyString => EmptyString
  | String c s' =>
      if is_id_char c then String c (replace_runs false s')
      else if in_run then replace_runs true s'
      else String "-" (replace_runs true s')
  end.

(** [id.replace(/^[^a-z]+|[^\w-]+/gi, "-")]: at the start of the text the
    first alternative takes every character up to the first letter. *)
Definition sanitize (id : string) : string :=
  match span_chars (fun c => negb (is_letter c)) id with
  | (EmptyString, _) => replace_runs false id
  | (String _ _, rest) => String "-" (replace_runs false rest)
  end.

(** [s.replace(pat, rep)] for a text pattern and a replacement without [$]:
    the first occurrence only. *)
Fixpoint replace_first (pat rep s : string) : string :=
  if startsWith pat s then rep ++ drop_chars (String.length pat) s
  else match s with
       | EmptyString => EmptyString
       | String c s' => String c (replace_first pat rep s')
       end.

(** [fixGhRaw(url)] *)
Definition fixGhRaw (url : string) : string :=
  if startsWith "https://github.com/" url && includes "/raw/" url then
    replace_first "/raw/" "/"
      (replace_first "https://github.com/" "https://raw.githubusercontent.com/"
         url)
  else url.

(** A sample engine: no value has a property. *)
Definition no_prop (v : JSValue) (prop : string) : JSValue := VUndefined.

End Helpers.

(** ** The plugin itself (index: [stop]) and the [crypto] shim *)
Module Index.
Import JS.

Inductive Call : Type :=
  | RemoveStyle (id : string)
  | DisableTheme (id : string).

(** The globals [stop] removes last, the themes of the facade and the calls
    made on the facade. *)
Record Page : Type := mkPage {
  BdApi : bool;
  zip : bool;
  BrowserFS : bool;
  Buffer : option nat;
  originalBuffer : option nat;
  themes : list (string * bool);
  calls : list Call
}.

Definition TypeError : Error := JSError "TypeError".

(** [getGlobalApi().DOM.removeStyle(id)]: [getGlobalApi()] is
    [window.BdApi]. *)
Definition removeStyle (id : string) (p : Page) : Result unit * Page :=
  if BdApi p then
    (Ok tt, mkPage (BdApi p) (zip p) (BrowserFS p) (Buffer p)
                   (originalBuffer p) (themes p) (calls p ++ [RemoveStyle id]))
  else (Throw TypeError, p).

(** [getGlobalApi().Themes.getAll().forEach(t => { if (t.enabled)
    getGlobalApi().Themes.disable(t.id); })] *)
Definition disable_themes (p : Page) : Result unit * Page :=
  if BdApi p then
    (Ok tt, mkPage (BdApi p) (zip p) (BrowserFS p) (Buffer p)
                   (originalBuffer p)
                   (map (fun t => (fst t, false)) (themes p))
                   (calls p ++ map (fun t => DisableTheme (fst t))
                                   (List.filter snd (themes p))))
  else (Throw TypeError, p).

Section Stop.
(** What [stop] does before it removes [window.BdApi]: the observer, the
    router listener, the patches, the plugins, the styles, the settings tab,
    the commands; it may throw and may change the page. *)
Variable teardown : Page -> Result unit * Page.

(** [stop()] *)
Definition stop (p : Page) : Result unit * Page :=
  match teardown p with
  | (Throw e, p1) => (Throw e, p1)
  | (Ok _, p1) =>
      (* delete window.BdApi; if (window.zip) delete window.zip;
         delete window.BrowserFS; window.Buffer = originalBuffer *)
      let p2 := mkPage false false false (originalBuffer p1)
                       (originalBuffer p1) (themes p1) (calls p1) in
      match removeStyle "bd-flex-styles" p2 with
      | (Throw e, p3) => (Throw e, p3)
      | (Ok _, p3) => disable_themes p3
      end
  end.
End Stop.

(** One hexadecimal digit, in lower case. *)
Definition hex_digit (n : N) : ascii :=
  if (n <? 10)%N then ascii_of_N (48 + n) else ascii_of_N (87 + n).

Fixpoint hex_digits (fuel : nat) (n : N) (acc : string) : string :=
  match fuel with
  | O => acc
  | S fuel' =>
      let acc' := String (hex_digit (n mod 16)) acc in
      if (n / 16 =? 0)%N then acc' else hex_digits fuel' (n / 16)%N acc'
  end.

(** [n.toString(16)] for a non-negative integer. *)
Definition toString16 (n : N) : string :=
  hex_digits (S (N.to_nat (N.log2 n))) n EmptyString.

Fixpoint repeat_char (c : ascii) (n : nat) : string :=
  match n with
  | O => EmptyString
  | S n' => String c (repeat_char c n')
  end.

(** [s.padStart(targetLength, c)] for a one-character filler. *)
Definition padStart (targetLength : nat) (c : ascii) (s : string) : string :=
  (repeat_char c (targetLength - String.length s) ++ s)%string.

(** [digest("hex")]: the loop over the bytes of the digest. *)
Definition digest_hex (out : list Byte.byte) : string :=
  fold_left (fun s b => (s ++ padStart 2 "0" (toString16 (Byte.to_N b)))%string)
            out EmptyString.

Definition hex_value (c : ascii) : option N :=
  let n := N_of_ascii c in
  if ((48 <=? n) && (n <=? 57))%N then Some (n - 48)%N
  else if ((97 <=? n) && (n <=? 102))%N then Some (n - 87)%N
  else None.

(** Reading a text of hexadecimal digit pairs back as bytes. *)
Fixpoint unhex (fuel : nat) (s : string) : option (list Byte.byte) :=
  match fuel, s with
  | _, EmptyString => Some []
  | S fuel', String a (String b rest) =>
      match hex_value a, hex_value b with
      | Some h, Some l =>
          match Byte.of_N (16 * h + l), unhex fuel' rest with
          | Some x, Some xs => Some (x :: xs)
          | _, _ => None
          end
      | _, _ => None
      end
  | _, _ => None
  end.

Definition is_hex (c : ascii) : bool :=
  match hex_value c with Some _ => true | None => false end.

End Index.

(** ** Scoped API instances and their labels *)
Module Scoping.
Import JS ScopedApi.

(** The instance behind [r] was made for the label [l]: it is the target
    plugin, and the three wrappers were created with it. *)
Definition bound_to (api : Api) (r : Ref) (l : string) : Prop :=
  exists inst i1 i2 i3,
    instances api !! r = Some inst
    /\ targetPlugin inst = Some l
    /\ patcher inst = WrapperObject i1 l
    /\ data inst = WrapperObject i2 l
    /\ dom inst = WrapperObject i3 l.

(** Every entry of the label table leads to an instance made for its
    label. *)
Definition labels_bound (api : Api) : Prop :=
  forall l r, labelsOfInstancedAPI api !! l = Some r -> bound_to api r l.

End Scoping.

(** * Properties *)

(** ** Changelog engine *)
Module ChangelogFacts.
Import JS Changelog.

Lemma num_truthy_JInt n : num_truthy (JInt n) = negb (n =? 0)%Z.
Proof.
  unfold num_truthy, JInt, Qeq_bool, inject_Z; simpl.
  by rewrite Z.mul_1_r.
Qed.

Lemma or_zero_JInt n : or_zero (Some (JInt n)) = JInt n.
Proof.
  unfold or_zero. rewrite num_truthy_JInt.
  destruct (Z.eqb_spec n 0) as [->|]; reflexivity.
Qed.

Lemma num_lt_JInt x y : num_lt (JInt x) (JInt y) = (x <? y)%Z.
Proof.
  unfold num_lt, JInt, Qlt_bool, Qle_bool, inject_Z; simpl.
  rewrite !Z.mul_1_r. symmetry. apply Z.ltb_antisym.
Qed.

Lemma or_zero_lookup xs i :
  or_zero (map JInt xs !! i) = JInt (component_at xs i).
Proof.
  unfold component_at. change (map JInt xs) with (JInt <$> xs).
  rewrite list_lookup_fmap.
  destruct (xs !! i); simpl; [apply or_zero_JInt | reflexivity].
Qed.

Lemma vcIsNewer_loop_lex xs ys fuel : forall i,
  vcIsNewer_loop (map JInt xs) (map JInt ys) i fuel
  = lex_gt (map (component_at xs) (seq i fuel))
           (map (component_at ys) (seq i fuel)).
Proof.
  induction fuel as [|fuel IH]; intros i; simpl; [reflexivity|].
  rewrite !or_zero_lookup. unfold num_gt. rewrite !num_lt_JInt.
  destruct (component_at ys i <? component_at xs i)%Z; [reflexivity|].
  destruct (component_at xs i <? component_at ys i)%Z; [reflexivity|].
  apply IH.
Qed.

Lemma pad_zero_components (xs : list Z) n :
  (length xs <= n)%nat -> pad_zero n xs = map (component_at xs) (seq 0 n).
Proof.
  intros Hn. apply list_eq; intros i.
  change (map (component_at xs) (seq 0 n)) with (component_at xs <$> seq 0 n).
  rewrite list_lookup_fmap. unfold pad_zero, component_at.
  destruct (decide (i < n)%nat) as [Hi|Hi].
  - rewrite lookup_seq_lt by done. simpl.
    destruct (decide (i < length xs)%nat) as [Hx|Hx].
    + rewrite lookup_app_l by done.
      destruct (lookup_lt_is_Some_2 xs i Hx) as [x ->]. reflexivity.
    + rewrite lookup_app_r by lia.
      rewrite (lookup_ge_None_2 xs i) by lia. simpl.
      rewrite lookup_replicate_2 by lia. reflexivity.
  - rewrite lookup_seq_ge by lia. simpl.
    apply lookup_ge_None_2. rewrite length_app, length_replicate. lia.
Qed.

Lemma Number_exact other c :
  all_digits c = true -> (decimal_value c <? 2 ^ 53)%Z = true ->
  Number other c = JInt (decimal_value c).
Proof.
  intros Hd Hb. unfold Number, round_to_double. by rewrite Hd, Hb.
Qed.

Lemma Number_exact_version other v :
  exact_version v = true ->
  map (Number other) (split_on "." v) = map JInt (components v).
Proof.
  unfold exact_version, components. intros H.
  induction (split_on "." v) as [|c cs IH]; simpl in *; [reflexivity|].
  apply andb_true_iff in H as [Hc Hcs].
  apply andb_true_iff in Hc as [Hd Hb].
  rewrite (Number_exact other c Hd Hb), (IH Hcs). reflexivity.
Qed.

Lemma vcIsNewer_exact other a b :
  exact_version a = true -> exact_version b = true ->
  vcIsNewer other a b = tuple_gt (components a) (components b).
Proof.
  intros Ha Hb. unfold vcIsNewer, tuple_gt.
  rewrite (Number_exact_version other a Ha), (Number_exact_version other b Hb).
  rewrite vcIsNewer_loop_lex, !length_map.
  rewrite <- !pad_zero_components by lia. reflexivity.
Qed.

(** C5 (as amended). For dotted version strings whose components are digit
    sequences below 2^53, [vcIsNewer a b] is true exactly when the integer
    tuple of [a] is greater than that of [b], compared numerically from left
    to right with missing components read as 0; and
    [vcIsNewer "1.9.0" "1.10.0"] is false while
    [vcIsNewer "1.10.0" "1.9.0"] is true. *)
Theorem vcIsNewer_numeric_tuple other a b :
  exact_version a = true -> exact_version b = true ->
  (vcIsNewer other a b = true
     <-> tuple_gt (components a) (components b) = true)
  /\ vcIsNewer other "1.9.0" "1.10.0" = false
  /\ vcIsNewer other "1.10.0" "1.9.0" = true.
Proof.
  intros Ha Hb. split; [|split].
  - by rewrite (vcIsNewer_exact other a b Ha Hb).
  - by rewrite vcIsNewer_exact.
  - by rewrite vcIsNewer_exact.
Qed.

Lemma vcIsNewer_numeric_tuple_witness :
  exact_version "2.10" = true /\ exact_version "2.9" = true
  /\ (vcIsNewer (fun _ => JNaN) "2.10" "2.9" = true
        <-> tuple_gt (components "2.10") (components "2.9") = true).
Proof.
  split; [reflexivity|]. split; [reflexivity|].
  apply (vcIsNewer_numeric_tuple (fun _ => JNaN) "2.10" "2.9");
    reflexivity.
Defined.

(** C5 as stated fails: above 2^53 two different digit sequences denote the
    same double, so the greater tuple is not reported as newer. *)
Lemma vcIsNewer_large_component_counterexample :
  all_digits "9007199254740993" = true
  /\ all_digits "9007199254740992" = true
  /\ tuple_gt (components "9007199254740993")
              (components "9007199254740992") = true
  /\ vcIsNewer (fun _ => JNaN) "9007199254740993" "9007199254740992" = false.
Proof. vm_compute. tauto. Qed.

Lemma group_item_bucket ver g it ty :
  bucket (group_item ver g it) ty
  = bucket g ty ++ (if ChangeType_eqb (bucket_of it) ty
                    then [tagged it ver] else []).
Proof.
  unfold group_item, bucket_of.
  destruct (includes "fix" (toLowerCase it)).
  { destruct ty; simpl; by rewrite ?app_nil_r. }
  destruct (includes "add" (toLowerCase it) || includes "initial" (toLowerCase it)).
  { destruct ty; simpl; by rewrite ?app_nil_r. }
  destruct (includes "improv" (toLowerCase it) || includes "updat" (toLowerCase it)).
  { destruct ty; simpl; by rewrite ?app_nil_r. }
  destruct ty; simpl; by rewrite ?app_nil_r.
Qed.

Lemma group_items_bucket ver its : forall g ty,
  bucket (fold_left (group_item ver) its g) ty
  = bucket g ty
    ++ map (fun it => tagged it ver)
           (List.filter (fun it => ChangeType_eqb (bucket_of it) ty) its).
Proof.
  induction its as [|it its IH]; intros g ty; simpl.
  - by rewrite app_nil_r.
  - rewrite IH, group_item_bucket.
    destruct (ChangeType_eqb (bucket_of it) ty); simpl.
    + by rewrite <- app_assoc.
    + by rewrite app_nil_r.
Qed.

Lemma group_blocks_bucket vs : forall g ty,
  bucket (fold_left group_block vs g) ty
  = bucket g ty
    ++ flat_map
         (fun v => map (fun it => tagged it (version v))
                       (List.filter
                          (fun it => ChangeType_eqb (bucket_of it) ty)
                          (items v)))
         vs.
Proof.
  induction vs as [|v vs IH]; intros g ty; simpl.
  - by rewrite app_nil_r.
  - rewrite IH. unfold group_block. rewrite group_items_bucket.
    by rewrite <- app_assoc.
Qed.

Lemma relevant_filter_exact other from to vs :
  exact_version from = true -> exact_version to = true ->
  forallb (fun v => exact_version (version v)) vs = true ->
  List.filter (fun v => vcIsNewer other (version v) from
                        && negb (vcIsNewer other (version v) to)) vs
  = List.filter (relevant_spec from to) vs.
Proof.
  intros Hf Ht. induction vs as [|v vs IH]; simpl; [reflexivity|].
  intros H. apply andb_true_iff in H as [Hv Hvs].
  unfold relevant_spec at 1.
  rewrite !vcIsNewer_exact by assumption.
  rewrite (IH Hvs). reflexivity.
Qed.

Lemma push_if_any_spec result t ty its :
  push_if_any result t ty its
  = result ++ match its with [] => [] | _ => [mkEntry t ty its] end.
Proof. destruct its; simpl; [by rewrite app_nil_r | reflexivity]. Qed.

(** What [vcParseChangelog] returns, with the relevance test of the code:
    the buckets of the grouped bullets in the order added, improved, fixed,
    other, the empty ones left out. *)
Lemma vcParseChangelog_buckets other md from to :
  vcParseChangelog other md from to
  = flat_map
      (fun ty =>
         match
           flat_map
             (fun v => map (fun it => tagged it (version v))
                           (List.filter
                              (fun it => ChangeType_eqb (bucket_of it) ty)
                              (items v)))
             (List.filter
                (fun v => vcIsNewer other (version v) from
                          && negb (vcIsNewer other (version v) to))
                (parse_versions md))
         with
         | [] => []
         | its => [mkEntry (bucket_title ty) ty its]
         end)
      [added; improved; fixed; progress].
Proof.
  unfold vcParseChangelog. rewrite !push_if_any_spec.
  set (rel := List.filter _ (parse_versions md)).
  assert (Hb : forall ty,
    flat_map
      (fun v => map (fun it => tagged it (version v))
                    (List.filter
                       (fun it => ChangeType_eqb (bucket_of it) ty) (items v)))
      rel
    = bucket (fold_left group_block rel (mkGrouped [] [] [] [])) ty).
  { intros ty. rewrite group_blocks_bucket. by destruct ty. }
  simpl. rewrite !Hb. simpl.
  destruct (g_added _), (g_improved _), (g_fixed _), (g_other _); reflexivity.
Qed.

(** C4 (as amended). For every markdown text and every pair of dotted
    versions, all components (of the pair and of the [###] headings) being
    digit sequences below 2^53: the bullets of a version block are included
    iff the block's version is strictly newer than [from] and not newer than
    [to] as integer tuples; each included bullet carries the suffix
    [" (vX.Y.Z)"] of its block and lies in exactly one bucket, chosen by
    case-insensitive substring match with priority fixed > added-or-initial >
    improved-or-updated > other; the result has one entry per non-empty
    bucket in the order added, improved, fixed, other. *)
Theorem vcParseChangelog_spec other md from to :
  exact_version from = true -> exact_version to = true ->
  forallb (fun v => exact_version (version v)) (parse_versions md) = true ->
  vcParseChangelog other md from to
  = changelog_spec (parse_versions md) from to.
Proof.
  intros Hf Ht Hmd. rewrite vcParseChangelog_buckets.
  rewrite (relevant_filter_exact other from to _ Hf Ht Hmd). reflexivity.
Qed.

Lemma vcParseChangelog_spec_witness :
  exact_version "1.0.0" = true /\ exact_version "1.1.0" = true
  /\ forallb (fun v => exact_version (version v))
             (parse_versions sample_markdown) = true
  /\ vcParseChangelog (fun _ => JNaN) sample_markdown "1.0.0" "1.1.0"
     = changelog_spec (parse_versions sample_markdown) "1.0.0" "1.1.0".
Proof.
  split; [reflexivity|]. split; [reflexivity|]. split; [reflexivity|].
  apply (vcParseChangelog_spec (fun _ => JNaN) sample_markdown "1.0.0" "1.1.0");
    reflexivity.
Defined.

(** The blocks [### 1.0.0 / - Added X] and [### 1.1.0 / - Fixed Y], parsed
    from 1.0.0 to 1.1.0, give the one entry of fixes. *)
Example vcParseChangelog_sample :
  vcParseChangelog (fun _ => JNaN) sample_markdown "1.0.0" "1.1.0"
  = [mkEntry "Fixes" fixed ["Fixed Y (v1.1.0)"]].
Proof. reflexivity. Qed.

(** C4 as stated fails: a block whose version is, as an integer tuple,
    strictly newer than [from] and not newer than [to] is left out when the
    components are too large for a double to tell them apart. *)
Lemma vcParseChangelog_large_component_counterexample :
  parse_versions large_markdown
  = [mkBlock "9007199254740993" ["Reworked everything"]]
  /\ relevant_spec "9007199254740992" "9007199254740993"
       (mkBlock "9007199254740993" ["Reworked everything"]) = true
  /\ changelog_spec (parse_versions large_markdown)
       "9007199254740992" "9007199254740993"
     = [mkEntry "Other Changes" progress
          ["Reworked everything (v9007199254740993)"]]
  /\ vcParseChangelog (fun _ => JNaN) large_markdown
       "9007199254740992" "9007199254740993" = [].
Proof. vm_compute. tauto. Qed.

End ChangelogFacts.

(** ** Plugin assembler and registry facade *)
Module CompatFacts.
Import JS Compat.
Local Open Scope js_scope.

Section Stable.
Context {A B : Type} (I : World -> Prop).

Lemma stable_ret (a : A) : stable I (ret a).
Proof. intros w H. exact H. Qed.

Lemma stable_throw (e : Error) : stable I (@throw A e).
Proof. intros w H. exact H. Qed.

Lemma stable_lift (r : Result A) : stable I (lift r).
Proof. intros w H. exact H. Qed.

Lemma stable_get_world : stable I get_world.
Proof. intros w H. exact H. Qed.

Lemma stable_read r : stable I (read r).
Proof. intros w H. unfold read. by destruct (deref w r). Qed.

Lemma stable_bind (m : M A) (k : A -> M B) :
  stable I m -> (forall a, stable I (k a)) -> stable I (bind m k).
Proof.
  intros Hm Hk w H. unfold bind. specialize (Hm w H).
  destruct (m w) as [[a|e] w']; simpl in *; [by apply Hk | done].
Qed.

Lemma stable_try_catch (m : M A) (h : Error -> M A) :
  stable I m -> (forall e, stable I (h e)) -> stable I (try_catch m h).
Proof.
  intros Hm Hh w H. unfold try_catch. specialize (Hm w H).
  destruct (m w) as [[a|e] w']; simpl in *; [done | by apply Hh].
Qed.

Lemma stable_modify (f : World -> World) :
  (forall w, I w -> I (f w)) -> stable I (modify f).
Proof. intros Hf w H. by apply Hf. Qed.

End Stable.

Lemma stable_when I (b : bool) (m : M unit) : stable I m -> stable I (when b m).
Proof. intros Hm. destruct b; simpl; [exact Hm | apply stable_ret]. Qed.

Section Assembling.
Variables (w0 : World) (final : Ref) (file recorded : string).
Variable no_authors : bool.

Lemma assembling_emit e :
  stable (assembling w0 final file recorded no_authors) (emit e).
Proof.
  apply stable_modify.
  intros w (Hq & [rest Hev] & Ho & Hx & Hp & Hg & Hd).
  repeat split; try done.
  exists (rest ++ [e]). simpl. rewrite Hev. by rewrite <- !app_assoc.
Qed.

Lemma assembling_update f :
  keeps_filename f ->
  stable (assembling w0 final file recorded no_authors) (update final f).
Proof.
  intros Hf. apply stable_modify.
  intros w (Hq & Hev & (o & Ho & Hfile & Hauthors) & Hx & Hp & Hg & Hd).
  repeat split; try done.
  - exists (f o). simpl. rewrite lookup_alter_eq, Ho. simpl.
    destruct (Hf o) as [-> ->]. done.
  - intros x Hne. simpl. rewrite lookup_alter_ne by done. by apply Hx.
Qed.

Lemma assembling_showNotice c t b :
  stable (assembling w0 final file recorded no_authors) (showNotice c t b).
Proof. apply stable_modify. intros w H. exact H. Qed.
End Assembling.

Ltac stable_step :=
  first
    [ apply stable_bind; [|intros ?]
    | apply stable_try_catch; [|intros ?]
    | apply stable_ret
    | apply stable_throw
    | apply stable_lift
    | apply stable_get_world
    | apply stable_read
    | apply stable_when
    | apply assembling_emit
    | apply assembling_update; intros ?; split; reflexivity
    | apply assembling_showNotice
    | match goal with
      | |- stable _ (match ?x with _ => _ end) => destruct x
      end ].

Lemma findIndex_app_last {A} (p p' : A -> bool) (xs : list A) (x : A) :
  (forall y, y ∈ xs -> p' y = p y) -> p' x = true ->
  findIndex p' (xs ++ [x]) = Some (default (length xs) (findIndex p xs)).
Proof.
  intros Hxs Hx. induction xs as [|y ys IH]; simpl.
  - by rewrite Hx.
  - rewrite (Hxs y) by apply list_elem_of_here.
    destruct (p y); [reflexivity|].
    rewrite IH by (intros z Hz; apply Hxs; by apply list_elem_of_further).
    simpl. by destruct (findIndex p ys).
Qed.

Lemma stable_alloc I o :
  (forall w, I w ->
     I (set_next_ref (S (next_ref w))
          (set_heap (<[next_ref w := o]> (heap w)) w))) ->
  stable I (alloc o).
Proof. intros H w Hw. by apply H. Qed.

Lemma quiet_since_emit before e w :
  quiet_event e = true -> quiet_since before w ->
  quiet_since before (set_events (events w ++ [e]) w).
Proof.
  intros He (evs & Hev & Hq). exists (evs ++ [e]). simpl. split.
  - rewrite Hev. by rewrite <- app_assoc.
  - rewrite forallb_app, Hq. simpl. by rewrite He.
Qed.

Lemma unregistered_emit n before e :
  quiet_event e = true -> stable (unregistered n before) (emit e).
Proof.
  intros He. apply stable_modify. intros w [Hp Hq].
  split; [exact Hp | by apply quiet_since_emit].
Qed.

Lemma detaching_emit files p file n registry before e :
  quiet_event e = true ->
  stable (detaching files p file n registry before) (emit e).
Proof.
  intros He. apply stable_modify. intros w (Hf & Ho & Hp & Hq).
  repeat split; try done. by apply quiet_since_emit.
Qed.

Lemma detaching_set_started files p file n registry before r b :
  stable (detaching files p file n registry before) (update r (set_started b)).
Proof.
  apply stable_modify. intros w (Hf & (o & Ho & Hfile & Hn) & Hp & Hq).
  repeat split; try done. simpl.
  destruct (decide (r = p)) as [->|Hne].
  - exists (set_started b o). by rewrite lookup_alter_eq, Ho.
  - exists o. by rewrite lookup_alter_ne.
Qed.

Ltac quiet_step :=
  first
    [ apply stable_bind; [|intros ?]
    | apply stable_try_catch; [|intros ?]
    | apply stable_ret
    | apply stable_throw
    | apply stable_lift
    | apply stable_get_world
    | apply stable_read
    | apply stable_when
    | apply unregistered_emit; reflexivity
    | apply detaching_emit; reflexivity
    | apply detaching_set_started
    | apply stable_alloc; intros ? H; exact H
    | apply stable_modify; intros ? H; exact H
    | match goal with
      | |- stable _ (match ?x with _ => _ end) => destruct x
      end ].

Lemma detaching_stopPlugin files p file n registry before target :
  stable (detaching files p file n registry before) (stopPlugin target).
Proof. unfold stopPlugin, stopFunction. repeat quiet_step. Qed.

Lemma detaching_safeStopPlugin files p file n registry before m :
  stable (detaching files p file n registry before) (safeStopPlugin m).
Proof. unfold safeStopPlugin, stopPlugin, stopFunction. repeat quiet_step. Qed.

Lemma safeStopPlugin_returns m w : fst (safeStopPlugin m w) = Ok tt.
Proof.
  unfold safeStopPlugin, bind, try_catch, get_world.
  destruct (stopPlugin (plugins w !! m) w) as [[[]|e] w']; reflexivity.
Qed.

Section AssemblerFacts.
Variable parseLegacyMeta : string -> string -> Result PluginMeta.
Variable parseNewMeta : string -> string -> Result PluginMeta.
Variable wrapBetterDiscordPluginCode : string -> string -> Result Exports.

Abbreviation parse_meta := (parse_meta parseLegacyMeta parseNewMeta).
Abbreviation convert_parse_and_queue :=
  (convert_parse_and_queue parseLegacyMeta parseNewMeta).
Abbreviation convert_instantiate :=
  (convert_instantiate wrapBetterDiscordPluginCode).
Abbreviation convert_assemble :=
  (convert_assemble parseLegacyMeta parseNewMeta wrapBetterDiscordPluginCode).
Abbreviation convertPlugin :=
  (convertPlugin parseLegacyMeta parseNewMeta wrapBetterDiscordPluginCode).

Lemma assembling_instantiate w0 final src file recorded no_authors dd :
  stable (assembling w0 final file recorded no_authors)
         (convert_instantiate src file dd final).
Proof. unfold Compat.convert_instantiate. repeat stable_step. Qed.

Lemma assembling_validate w0 final file recorded no_authors :
  stable (assembling w0 final file recorded no_authors)
         (convert_validate final).
Proof. unfold convert_validate. repeat stable_step. Qed.

(** A parse error ends the assembly before anything is queued. *)
Lemma parse_and_queue_throw src file sp w e :
  parse_meta src file = Throw e ->
  exists w',
    convert_parse_and_queue src file sp w = (Throw e, w')
    /\ queuedPlugins w' = queuedPlugins w
    /\ events w' = events w ++ [EvParseMeta file]
    /\ plugins w' = plugins w.
Proof.
  intros Hp. unfold Compat.convert_parse_and_queue, bind, alloc, emit, modify, lift.
  rewrite Hp. eexists. split; [reflexivity|]. by repeat split.
Qed.

(** What the merge of the metadata leaves in the fields that the rest of
    the assembly does not write. *)
Lemma assign_meta_fields m o :
  filename (assign_meta m o) = default (filename o) (meta_filename m)
  /\ authors_null (assign_meta m o) = meta_authors_null m
  /\ started_value (assign_meta m o)
     = default (started_value o) (meta_started m).
Proof.
  unfold assign_meta, assign_key.
  by destruct (meta_name m), (meta_id m), (meta_description m),
              (meta_version m), (meta_originalName m), (meta_filename m),
              (meta_sourcePath m), (meta_started m), (meta_bdFileSig m).
Qed.

(** After a successful parse the record is queued. *)
Lemma parse_and_queue_ok src file sp w m :
  parse_meta src file = Ok m ->
  exists w',
    convert_parse_and_queue src file sp w = (Ok (next_ref w), w')
    /\ assembling w (next_ref w) file (default file (meta_filename m))
                  (meta_authors_null m) w'.
Proof.
  intros Hp.
  unfold Compat.convert_parse_and_queue, bind, alloc, emit, modify, lift, update, ret.
  rewrite Hp. eexists. split; [reflexivity|].
  repeat split; simpl; try done.
  - exists []. by rewrite <- app_assoc.
  - eexists. rewrite lookup_alter_eq, lookup_insert_eq. simpl.
    split; [reflexivity|].
    destruct (assign_meta_fields m
                (mkPlugin "" None "" file sp None "" false None None))
      as (-> & -> & _). done.
  - intros x Hne. rewrite lookup_alter_ne, lookup_insert_ne by done. done.
Qed.

(** When assembly returns, the first queued entry with the file name of
    the record has left the queue; with [authors] set to [null] the last
    step throws and the queue stays as it is. *)
Lemma finish_assembling w0 final file recorded no_authors w :
  final ∉ queuedPlugins w0 ->
  assembling w0 final file recorded no_authors w ->
  exists w',
    plugins w' = plugins w0
    /\ (exists rest,
          events w' = events w0 ++ [EvParseMeta file; EvQueuePush final] ++ rest)
    /\ if no_authors
       then convert_finish final w = (Throw type_error, w')
            /\ queuedPlugins w' = queuedPlugins w0 ++ [final]
       else convert_finish final w = (Ok final, w')
            /\ queuedPlugins w'
               = splice1 (default (length (queuedPlugins w0))
                            (findIndex (filename_is w0 recorded)
                                       (queuedPlugins w0)))
                         (queuedPlugins w0 ++ [final]).
Proof.
  intros Hfresh (Hq & [rest Hev] & (o & Ho & Hfile & Hauthors) & Hx & Hp & Hg & Hd).
  assert (Hread : read final w = (Ok o, w)) by (unfold read, deref; by rewrite Ho).
  destruct no_authors.
  { exists w. split; [done|]. split; [by exists rest|]. split; [|done].
    unfold convert_finish, bind at 1. rewrite Hread.
    unfold bind at 1. by rewrite Hauthors. }
  eexists. split; [|split; [|split]].
  3:{ unfold convert_finish, bind at 1. rewrite Hread.
      unfold bind at 1. rewrite Hauthors.
      cbv beta iota delta [when ret bind get_world]. rewrite Hfile, Hq.
      rewrite (findIndex_app_last (filename_is w0 recorded)).
      - unfold emit, modify, ret. simpl. reflexivity.
      - intros y Hy. unfold filename_is, deref. rewrite Hx; [done|].
        intros ->. by apply Hfresh.
      - unfold filename_is, deref. rewrite Ho, Hfile. apply String.eqb_refl. }
  - simpl. done.
  - exists (rest ++ [EvQueueRemove
      (default (length (queuedPlugins w0))
               (findIndex (filename_is w0 recorded) (queuedPlugins w0)))]).
    simpl. rewrite Hev. by rewrite <- !app_assoc.
  - simpl. by rewrite Hq.
Qed.

(** C3 (as amended).  In every call of [convertPlugin] the placeholder is
    pushed on the queued list right after the metadata has been parsed
    successfully and merged into the record, before the code is evaluated
    and instantiated; a parse error queues nothing.  When assembly
    completes, the first queued entry with the record's file name (the
    [filename] key of the metadata when it has one, the file name argument
    otherwise) is removed.  When assembly fails after the push, the
    placeholder stays queued; metadata with [authors] set to [null] always
    ends in such a failure. *)
Theorem convertPlugin_queue_window src file dd sp w :
  next_ref w ∉ queuedPlugins w ->
  let final := next_ref w in
  let res := fst (convertPlugin src file dd sp w) in
  let w' := snd (convertPlugin src file dd sp w) in
  match parse_meta src file with
  | Throw e =>
      res = Throw e
      /\ queuedPlugins w' = queuedPlugins w
      /\ events w' = events w ++ [EvParseMeta file]
  | Ok meta =>
      (exists rest,
         events w' = events w ++ [EvParseMeta file; EvQueuePush final] ++ rest)
      /\ (forall r, res = Ok r ->
            r = final
            /\ meta_authors_null meta = false
            /\ queuedPlugins w'
               = splice1 (default (length (queuedPlugins w))
                            (findIndex
                               (filename_is w
                                  (default file (meta_filename meta)))
                               (queuedPlugins w)))
                         (queuedPlugins w ++ [final]))
      /\ (forall e, res = Throw e ->
            queuedPlugins w' = queuedPlugins w ++ [final])
  end.
Proof.
  intros Hfresh final res w'. subst final res w'.
  unfold Compat.convertPlugin, convert_assemble, bind.
  destruct (parse_meta src file) as [m|e] eqn:Hp.
  - destruct (parse_and_queue_ok src file sp w m Hp) as (w1 & Hrun & Hasm).
    rewrite Hrun.
    pose proof (assembling_instantiate w (next_ref w) src file _ _ dd w1 Hasm)
      as H2.
    destruct (convert_instantiate src file dd (next_ref w) w1)
      as [[[]|e2] w2]; simpl in H2; simpl.
    2:{ split; [apply H2|]. split; [intros r Hr; discriminate|].
        intros _ _. apply H2. }
    pose proof (assembling_validate w (next_ref w) file _ _ w2 H2) as H3.
    destruct (convert_validate (next_ref w) w2) as [[[]|e3] w3]; simpl in H3.
    2:{ simpl. split; [apply H3|]. split; [intros r Hr; discriminate|].
        intros _ _. apply H3. }
    destruct (finish_assembling w (next_ref w) file _ _ w3 Hfresh H3)
      as (w4 & _ & Hev4 & Hfin).
    destruct (meta_authors_null m); destruct Hfin as [Hfin Hq4];
      rewrite Hfin; simpl; (split; [exact Hev4|]).
    + split; [intros r Hr; discriminate | by intros _ _].
    + split; [|intros e0 He0; discriminate].
      intros r Hr. injection Hr as <-. by repeat split.
  - destruct (parse_and_queue_throw src file sp w e Hp)
      as (w1 & Hrun & Hq & Hev & _).
    rewrite Hrun. simpl. by repeat split.
Qed.





(** [enable] records the intent in both settings bags before it looks at
    the file signature. *)
Lemma enable_marks_intent_first idOrFile w p o :
  resolvePluginByAny w idOrFile = Some p ->
  deref w p = Some o ->
  enable parseLegacyMeta parseNewMeta wrapBetterDiscordPluginCode idOrFile w
  = enable_resolved parseLegacyMeta parseNewMeta wrapBetterDiscordPluginCode
      p (name o)
      (set_pluginsStatus (<[name o := true]> (pluginsStatus w))
         (set_settings_enabled (<[name o := true]> (settings_enabled w)) w)).
Proof.
  intros Hres Ho. unfold enable, bind at 1, get_world. rewrite Hres.
  unfold bind at 1, read. rewrite Ho. reflexivity.
Qed.

Lemma unregistered_convertPlugin n before src file dd sp :
  stable (unregistered n before) (convertPlugin src file dd sp).
Proof.
  unfold Compat.convertPlugin, Compat.convert_assemble,
    Compat.convert_parse_and_queue, Compat.convert_instantiate,
    convert_validate, convert_finish.
  repeat quiet_step.
Qed.

(** The first half of the soft reload leaves the plugin stopped or
    stopping and out of the registry. *)
Lemma soft_detach_spec p w o files :
  deref w p = Some o -> fs w = Some files ->
  str_truthy (filename o) = true ->
  exists w',
    soft_detach p w = (Ok tt, w')
    /\ plugins w' !! name o = None
    /\ fs w' = Some files
    /\ (exists o', heap w' !! p = Some o' /\ filename o' = filename o
                   /\ name o' = name o)
    /\ quiet_since (events w) w'.
Proof.
  intros Ho Hfs Hfile.
  unfold soft_detach, bind at 1, get_world, bind at 1, read.
  rewrite Ho, Hfs, Hfile. change (negb true) with false. cbv beta iota.
  unfold bind at 1, set_status, modify at 1. cbv beta iota.
  set (w1 := set_pluginsStatus _ w).
  assert (H1 : detaching (Some files) p (filename o) (name o) (plugins w)
                         (events w) w1).
  { repeat split; try done; [by exists o | exists []; by rewrite app_nil_r]. }
  pose proof (detaching_safeStopPlugin _ _ _ _ _ _ (name o) w1 H1) as H2.
  pose proof (safeStopPlugin_returns (name o) w1) as Hret.
  unfold bind at 1.
  destruct (safeStopPlugin (name o) w1) as [r2 w2]; simpl in H2, Hret.
  subst r2. destruct H2 as (Hfs2 & Ho2 & Hp2 & Hq2).
  unfold bind at 1, get_world, bind at 1.
  destruct (plugins w2 !! name o ≫= _) as [idx|]; simpl;
    (eexists; split; [reflexivity|]; simpl;
     split; [apply lookup_delete_eq | by repeat split]).
Qed.

(** When the text on disk does not assemble, the second half throws and
    the plugin stays out of the registry. *)
Lemma soft_reattach_fails p w o files f before :
  deref w p = Some o -> fs w = Some files ->
  files !! plugin_path (filename o) = Some f ->
  (forall w0, exists e,
      fst (convertPlugin (content f) (filename o) true folder w0) = Throw e) ->
  unregistered (name o) before w ->
  exists e w',
    soft_reattach parseLegacyMeta parseNewMeta wrapBetterDiscordPluginCode p w
    = (Throw e, w')
    /\ unregistered (name o) before w'.
Proof.
  intros Ho Hfs Hf Hfail Hun.
  unfold soft_reattach, bind at 1, read. rewrite Ho.
  unfold bind at 1, readFileSync, bind at 1, emit, modify, bind at 1, get_world.
  cbv beta iota. set (w1 := set_events _ w).
  change (fs w1) with (fs w). rewrite Hfs. simpl (Some files ≫= _).
  rewrite Hf. unfold ret at 1. cbv beta iota. unfold bind at 1.
  assert (H1 : unregistered (name o) before w1).
  { destruct Hun as [Hp Hq]. split; [exact Hp|].
    by apply quiet_since_emit. }
  pose proof (unregistered_convertPlugin (name o) before (content f)
                (filename o) true folder w1 H1) as H2.
  destruct (Hfail w1) as [e He].
  destruct (convertPlugin (content f) (filename o) true folder w1)
    as [r2 w2]; simpl in *. subst r2.
  by exists e, w2.
Qed.

Lemma convertPlugin_parse_throw src file dd sp e w0 :
  parse_meta src file = Throw e ->
  fst (convertPlugin src file dd sp w0) = Throw e.
Proof.
  intros Hp. unfold Compat.convertPlugin, Compat.convert_assemble, bind.
  destruct (parse_and_queue_throw src file sp w0 e Hp) as (w1 & Hrun & _).
  by rewrite Hrun.
Qed.

(** C1, the failing path.  The plugin resolved by [enable] is the one
    registered under its name, its file has a signature other than the
    stamped one, and the text now on disk does not assemble.  Then
    [enable] returns normally, having logged the warning and called
    [startPlugin] on an empty registry slot: the plugin is no longer
    registered and no plugin record was handed to [startPlugin], whereas
    the claim has the existing instance started. *)
Theorem enable_failed_reload_unregisters idOrFile w p o files f :
  resolvePluginByAny w idOrFile = Some p ->
  deref w p = Some o ->
  plugins w !! name o = Some p ->
  fs w = Some files ->
  str_truthy (filename o) = true ->
  files !! plugin_path (filename o) = Some f ->
  bdFileSig o <> Some (to_int32 (mtimeMs f)) ->
  (forall w0, exists e,
      fst (convertPlugin (content f) (filename o) true folder w0) = Throw e) ->
  let run := enable parseLegacyMeta parseNewMeta wrapBetterDiscordPluginCode
               idOrFile w in
  fst run = Ok tt
  /\ plugins (snd run) !! name o = None
  /\ exists evs,
       events (snd run)
       = events w ++ evs
         ++ [EvConsoleWarn
               "[BdCompat] enable(): soft reload failed, starting old instance";
             EvStartPlugin None]
       /\ forallb quiet_event evs = true.
Proof.
  intros Hres Ho Hreg Hfs Hfile Hf Hsig Hfail run. subst run.
  rewrite (enable_marks_intent_first idOrFile w p o Hres Ho).
  set (w2 := set_pluginsStatus _ _).
  assert (Ho2 : deref w2 p = Some o) by exact Ho.
  assert (Hfs2 : fs w2 = Some files) by exact Hfs.
  assert (Hreg2 : plugins w2 !! name o = Some p) by exact Hreg.
  assert (Hchanged :
    file_changed (Some o) (bdFileSig o) (getFileSig w2 (Some o)) = true).
  { unfold getFileSig. rewrite Hfs2, Hfile, Hf. simpl. rewrite Hfile. simpl.
    destruct (bdFileSig o) as [had|]; [|reflexivity].
    destruct (Z.eqb_spec had (to_int32 (mtimeMs f))) as [->|]; [done|].
    reflexivity. }
  destruct (soft_detach_spec p w2 o files Ho2 Hfs2 Hfile)
    as (w3 & Hdet & Hp3 & Hfs3 & (o3 & Ho3 & Hfile3 & Hn3) & Hq3).
  assert (Hun3 : unregistered (name o3) (events w) w3)
    by (rewrite Hn3; by split).
  rewrite <- Hfile3 in Hf, Hfail.
  destruct (soft_reattach_fails p w3 o3 files f (events w) Ho3 Hfs3 Hf
              Hfail Hun3) as (e & w4 & Hre & Hp4 & evs & Hev4 & Hq4).
  rewrite Hn3 in Hp4.
  set (warned := set_events
         (events w4 ++ [EvConsoleWarn
            "[BdCompat] enable(): soft reload failed, starting old instance"])
         w4).
  assert (Hrun :
    enable_resolved parseLegacyMeta parseNewMeta wrapBetterDiscordPluginCode
      p (name o) w2
    = (Ok tt, set_events (events warned ++ [EvStartPlugin None]) warned)).
  { unfold enable_resolved, bind at 1, get_world.
    rewrite Hreg2. simpl (Some p ≫= _). rewrite Ho2.
    simpl (Some o ≫= _). rewrite Hchanged.
    unfold bind at 1, try_catch at 1, bind at 1, softReloadBDPlugin, bind at 1.
    rewrite Hdet, Hre.
    unfold bind at 1, emit, modify, bind at 1, ret. cbv beta iota.
    fold warned.
    unfold try_catch. cbv beta.
    change (plugins warned) with (plugins w4). rewrite Hp4.
    reflexivity. }
  rewrite Hrun. simpl fst. simpl snd.
  split; [reflexivity|]. split; [exact Hp4|].
  exists evs. split; [|exact Hq4].
  simpl. rewrite Hev4. by rewrite <- !app_assoc.
Qed.
End AssemblerFacts.

Lemma convertPlugin_queue_window_witness :
  (next_ref Sample.empty_world ∉ queuedPlugins Sample.empty_world)
  /\ fst (Sample.convertPlugin Sample.good_source "P.plugin.js" false ""
                               Sample.empty_world) = Ok 0%nat
  /\ queuedPlugins
       (snd (Sample.convertPlugin Sample.good_source "P.plugin.js" false ""
                                  Sample.empty_world)) = [].
Proof.
  split; [apply not_elem_of_nil|].
  split; [reflexivity|].
  pose proof (convertPlugin_queue_window
                Sample.parseLegacyMeta Sample.parseNewMeta
                Sample.wrapBetterDiscordPluginCode
                Sample.good_source "P.plugin.js" false "" Sample.empty_world
                (not_elem_of_nil _)) as H.
  destruct H as (_ & H & _). exact (proj2 (proj2 (H 0%nat eq_refl))).
Defined.

(** C3 as stated fails: the metadata is parsed before the placeholder is
    pushed, and an instantiation that throws leaves the placeholder on the
    queued list. *)
Lemma convertPlugin_queue_counterexample :
  events (snd (Sample.convertPlugin Sample.good_source "P.plugin.js" false ""
                                    Sample.empty_world))
  = [EvParseMeta "P.plugin.js"; EvQueuePush 0; EvSandboxEval "P.plugin.js";
     EvInstantiate 0; EvQueueRemove 0]
  /\ fst (Sample.convertPlugin Sample.throwing_source "P.plugin.js" false ""
                               Sample.empty_world)
     = Throw (JSError "constructor")
  /\ queuedPlugins
       (snd (Sample.convertPlugin Sample.throwing_source "P.plugin.js" false ""
                                  Sample.empty_world)) = [0%nat].
Proof. vm_compute. tauto. Qed.

(** The entry that leaves the queue is found by the file name that the
    record has after the merge of the metadata.  While the placeholder of
    [Q.plugin.js] is queued (its assembly has failed), a file [P.plugin.js]
    whose metadata has the key [filename Q.plugin.js] is assembled: the
    placeholder of [Q.plugin.js] is removed and its own stays queued. *)
Example convertPlugin_removes_by_recorded_name :
  let queued :=
    snd (Sample.convertPlugin Sample.throwing_source "Q.plugin.js" false ""
                              Sample.empty_world) in
  let run :=
    Sample.convertPlugin Sample.renamed_source "P.plugin.js" false ""
                         queued in
  queuedPlugins queued = [0%nat]
  /\ fst run = Ok 1%nat
  /\ queuedPlugins (snd run) = [1%nat]
  /\ (filename <$> heap (snd run) !! 1%nat) = Some "Q.plugin.js".
Proof. vm_compute. tauto. Qed.



Lemma enable_failed_reload_unregisters_witness :
  fst (Sample.enable "P" Sample.broken_world) = Ok tt
  /\ plugins (snd (Sample.enable "P" Sample.broken_world)) !! "P" = None.
Proof.
  destruct (enable_failed_reload_unregisters
              Sample.parseLegacyMeta Sample.parseNewMeta
              Sample.wrapBetterDiscordPluginCode
              "P" Sample.broken_world 0%nat Sample.loaded_record
              {[ plugin_path "P.plugin.js" := mkFile Sample.broken_source 2000 ]}
              (mkFile Sample.broken_source 2000))
    as (Hret & Hreg & _).
  - vm_compute. reflexivity.
  - vm_compute. reflexivity.
  - vm_compute. reflexivity.
  - reflexivity.
  - reflexivity.
  - vm_compute. reflexivity.
  - vm_compute. discriminate.
  - intros w0. exists (JSError "meta").
    apply convertPlugin_parse_throw. reflexivity.
  - split; [exact Hret | exact Hreg].
Defined.

(** The same with a text that parses but lacks its version: the plugin [P]
    is registered and stopped, its file has changed on disk.  [enable "P"]
    detaches the old record, the soft reload throws, the warning is logged
    and the fallback calls [startPlugin] on a registry slot that is now
    empty: no record is started and [P] is gone from the registry. *)
Example enable_reload_failure_leaves_plugin_stopped :
  plugins Sample.edited_world !! "P" = Some 0%nat
  /\ (bdFileSig <$> (heap Sample.edited_world !! 0%nat)) = Some (Some 1000%Z)
  /\ fst (Sample.enable "P" Sample.edited_world) = Ok tt
  /\ plugins (snd (Sample.enable "P" Sample.edited_world)) !! "P" = None
  /\ GeneratedPlugins (snd (Sample.enable "P" Sample.edited_world)) = []
  /\ (started <$> (heap (snd (Sample.enable "P" Sample.edited_world)) !! 0%nat))
     = Some false
  /\ events (snd (Sample.enable "P" Sample.edited_world))
     = [EvStopPlugin (Some 0%nat); EvUnpatchAll "P"; EvRemoveStyle "P";
        EvReadFile "/BD/plugins/P.plugin.js"; EvParseMeta "P.plugin.js";
        EvQueuePush 1; EvSandboxEval "P.plugin.js"; EvInstantiate 1;
        EvConsoleWarn
          "[BdCompat] enable(): soft reload failed, starting old instance";
        EvStartPlugin None].
Proof. vm_compute. tauto. Qed.

(** With the file unchanged since it was stamped, [enable] starts the
    record that is registered. *)
Example enable_unchanged_starts_existing :
  (started <$> (heap (snd (Sample.enable "P" Sample.loaded_world)) !! 0%nat))
  = Some true
  /\ events (snd (Sample.enable "P" Sample.loaded_world))
     = events Sample.loaded_world ++ [EvStartPlugin (Some 0%nat)].
Proof. vm_compute. tauto. Qed.

End CompatFacts.

(** ** Runtime shims *)
Module ShimsFacts.
Import JS Shims.

(** C7 (as amended).  [require(name)] is a property read on the shim table
    and never throws: a name that is neither a key of the table nor
    inherited from [Object.prototype] gives [undefined]; [fs], [path],
    [events], [electron], [crypto], [process] and [https] give their shims,
    and [request] gives its shim when the experimental polyfills are
    enabled. *)
Theorem require_is_a_table_lookup experimental name :
  FakeRequireRedirect experimental name
  = Ok (ReImplementationObject experimental name)
  /\ (existsb (String.eqb name) own_keys = false ->
      on_Object_prototype name = false ->
      FakeRequireRedirect experimental name = Ok undefined)
  /\ FakeRequireRedirect experimental "fs" = Ok shim_fs
  /\ FakeRequireRedirect experimental "path" = Ok shim_path
  /\ FakeRequireRedirect experimental "events" = Ok shim_events
  /\ FakeRequireRedirect experimental "electron" = Ok shim_electron
  /\ FakeRequireRedirect experimental "crypto" = Ok shim_crypto
  /\ FakeRequireRedirect experimental "process" = Ok shim_process
  /\ FakeRequireRedirect experimental "https" = Ok shim_https
  /\ FakeRequireRedirect true "request" = Ok shim_request.
Proof.
  split; [reflexivity|]. split; [|by repeat split].
  intros Hown Hproto. unfold FakeRequireRedirect, ReImplementationObject.
  simpl in Hown. rewrite !orb_false_iff in Hown.
  destruct Hown as (-> & -> & -> & -> & -> & -> & -> & -> & -> & _).
  by rewrite Hproto.
Qed.

Lemma require_is_a_table_lookup_witness :
  existsb (String.eqb "child_process") own_keys = false
  /\ on_Object_prototype "child_process" = false
  /\ FakeRequireRedirect false "child_process" = Ok undefined.
Proof.
  split; [reflexivity|]. split; [reflexivity|].
  apply (require_is_a_table_lookup false "child_process"); reflexivity.
Defined.

(** C7 as stated fails: a name outside the allow-list does not make
    [require] throw; the call returns [undefined], or a member of
    [Object.prototype]. *)
Lemma require_unknown_name_counterexample :
  existsb (String.eqb "child_process") allow_list = false
  /\ FakeRequireRedirect false "child_process" = Ok undefined
  /\ existsb (String.eqb "constructor") allow_list = false
  /\ FakeRequireRedirect false "constructor" = Ok (inherited "constructor").
Proof. vm_compute. tauto. Qed.

End ShimsFacts.

(** ** Persistent data *)
Module DataFacts.
Import JS Data.

Section DataHolderFacts.
Variable Engine : Type.
Variable JSON_parse : string -> option Cached.
Variable JSON_stringify : Engine -> Cached -> Result (option string).
Variable ToString : JSValue -> string.
Variable Object_prototype : JSValue.
Variable get_inherited : Engine -> JSValue -> string -> Result JSValue.
Variable assign_inherited :
  Engine -> JSValue -> string -> JSValue -> Assignment Engine.
Variable get_property : Engine -> JSValue -> string -> Result JSValue.
Variable set_property :
  Engine -> JSValue -> string -> JSValue -> Result unit * Engine.
Variable write_undefined :
  string -> gmap string string -> Result unit * gmap string string.

Abbreviation load :=
  (load Engine JSON_parse ToString Object_prototype get_inherited get_property).
Abbreviation save :=
  (save Engine JSON_parse JSON_stringify ToString Object_prototype
        get_inherited assign_inherited set_property write_undefined).

(** C10.  [save] returns with the cache, the disk and the record of file
    system calls as they are when the label, the key or the data is falsy,
    so saving [false], [0], [null] or the empty string does nothing; [load]
    with a falsy label or key returns [undefined] and makes no file system
    call. *)
Theorem save_load_falsy_noop key value data st :
  (truthy key = false \/ truthy value = false \/ truthy data = false ->
   save key value data st = (Ok tt, st))
  /\ (truthy key = false \/ truthy value = false ->
      load key value st = (Ok VUndefined, st))
  /\ save (VString "P") (VString "k") (VBool false) st = (Ok tt, st)
  /\ save (VString "P") (VString "k") (VNumber (JInt 0)) st = (Ok tt, st)
  /\ save (VString "P") (VString "k") VNull st = (Ok tt, st)
  /\ save (VString "P") (VString "k") (VString "") st = (Ok tt, st).
Proof.
  split; [|split; [|by repeat split]].
  - unfold Data.save. intros [-> | [-> | ->]]; simpl;
      by rewrite ?orb_true_r.
  - unfold Data.load. intros [-> | ->]; simpl; by rewrite ?orb_true_r.
Qed.
End DataHolderFacts.

Lemma save_load_falsy_noop_witness :
  truthy (VNumber (JInt 0)) = false
  /\ Sample.save (fun _ => None) (VString "P") (VString "k")
       (VNumber (JInt 0)) Sample.store
     = (Ok tt, Sample.store)
  /\ Sample.load (fun _ => None) (VString "") (VString "k") Sample.store
     = (Ok VUndefined, Sample.store).
Proof.
  split; [reflexivity|].
  destruct (save_load_falsy_noop unit (fun _ => None) Sample.JSON_stringify
              Sample.ToString Sample.Object_prototype Sample.get_inherited
              Sample.assign_inherited Sample.get_property
              Sample.set_property Sample.write_undefined
              (VString "P") (VString "k")
              (VNumber (JInt 0)) Sample.store) as (Hsave & _).
  destruct (save_load_falsy_noop unit (fun _ => None) Sample.JSON_stringify
              Sample.ToString Sample.Object_prototype Sample.get_inherited
              Sample.assign_inherited Sample.get_property
              Sample.set_property Sample.write_undefined
              (VString "") (VString "k")
              VUndefined Sample.store) as (_ & Hload & _).
  split; [apply Hsave | apply Hload]; auto.
Defined.

(** A truthy value is stored and written to the label's file. *)
Example save_truthy_writes :
  let st := snd (Sample.save (fun _ => None) (VString "P") (VString "k")
                   (VString "new") Sample.store) in
  pluginData st !! "P"
  = Some (Plain {[ "k" := VString "new" ]} Sample.Object_prototype)
  /\ fs_calls st = [writeFileSync "/BD/plugins/P.config.json"]
  /\ disk st !! "/BD/plugins/P.config.json" = Some "{}"
  /\ Sample.load (fun _ => None) (VString "P") (VString "k") st
     = (Ok (VString "new"), st).
Proof. vm_compute. tauto. Qed.

(** A file that holds [null] parses, and [load] then throws on the read of
    the entry. *)
Example load_null_file :
  let st := mkStore ∅ tt {[ "/BD/plugins/P.config.json" := "null" ]} [] [] in
  fst (Sample.load (fun _ => Some (Other VNull)) (VString "P") (VString "k") st)
  = Throw (JSError "TypeError").
Proof. vm_compute. reflexivity. Qed.

(** Under the key [__proto__] a text is not stored: [load] gives the
    prototype back. *)
Example save_proto_key :
  let st := snd (Sample.save (fun _ => None) (VString "P")
                   (VString "__proto__") (VString "new") Sample.store) in
  pluginData st !! "P" = pluginData Sample.store !! "P"
  /\ fst (Sample.load (fun _ => None) (VString "P") (VString "__proto__") st)
     = Ok Sample.Object_prototype.
Proof. vm_compute. tauto. Qed.

(** The label [constructor] names a member of [Object.prototype]: nothing
    is cached for it and [save] throws. *)
Example save_inherited_label :
  let run := Sample.save (fun _ => None) (VString "constructor")
               (VString "k") (VString "new") Sample.store in
  fst run = Throw (JSError "TypeError")
  /\ snd run = Sample.store.
Proof. vm_compute. tauto. Qed.

End DataFacts.

(** ** Scoped API instances *)
Module ScopedApiFacts.
Import JS ScopedApi.

(** What one construction keeps of a ready, well-formed state. *)
Lemma construct_step label api v api' :
  global_ready api = true -> well_formed api ->
  construct label api = Ok (v, api') ->
  global_ready api' = true
  /\ well_formed api'
  /\ (next_ref api <= next_ref api')%nat
  /\ allocated api' v
  /\ (forall l v0, lookup_label api l = Some v0 -> lookup_label api' l = Some v0)
  /\ (forall r, (r < next_ref api)%nat -> instances api' !! r = instances api !! r).
Proof.
  intros Hready Hwf. unfold construct. rewrite Hready.
  destruct (opt_truthy label).
  - destruct (lookup_label api (default "" label)) as [existing|] eqn:Hl.
    + intros [= <- <-]. simpl. repeat split; try done; try lia.
      * intros l r Hr. specialize (Hwf l r Hr). simpl. lia.
      * unfold lookup_label in Hl.
        destruct (labelsOfInstancedAPI api !! default "" label) as [r|] eqn:Hr.
        -- injection Hl as <-. simpl. specialize (Hwf _ _ Hr). lia.
        -- by destruct (on_Object_prototype (default "" label)); simplify_eq.
    + intros [= <- <-]. simpl. repeat split; try done; try lia.
      * intros l r. simpl. rewrite lookup_insert.
        case_decide; [intros [= <-]; lia | intros Hr; specialize (Hwf l r Hr); lia].
      * intros l v0. unfold lookup_label. simpl. rewrite lookup_insert.
        case_decide as Heq; [|done]. subst l.
        unfold lookup_label in Hl. intros Hv0. by rewrite Hv0 in Hl.
      * intros r Hr. rewrite lookup_insert_ne by lia. done.
  - intros [= <- <-]. simpl. repeat split; try done; try lia.
    + intros l r Hr. specialize (Hwf l r Hr). simpl. lia.
    + intros r Hr. rewrite lookup_insert_ne by lia. done.
Qed.

Lemma construct_ready label api :
  global_ready api = true -> exists v api', construct label api = Ok (v, api').
Proof.
  intros Hready. unfold construct. rewrite Hready.
  destruct (opt_truthy label); [|by eauto].
  destruct (lookup_label api (default "" label)); by eauto.
Qed.

Lemma construct_all_keeps labels : forall api,
  global_ready api = true -> well_formed api ->
  global_ready (construct_all labels api) = true
  /\ well_formed (construct_all labels api)
  /\ (next_ref api <= next_ref (construct_all labels api))%nat
  /\ (forall l v0, lookup_label api l = Some v0 ->
                   lookup_label (construct_all labels api) l = Some v0)
  /\ (forall r, (r < next_ref api)%nat ->
                instances (construct_all labels api) !! r = instances api !! r).
Proof.
  induction labels as [|label labels IH]; intros api Hready Hwf.
  - by repeat split.
  - change (construct_all (label :: labels) api)
      with (construct_all labels (construct_then api label)).
    destruct (construct_ready label api Hready) as (v & api' & Hc).
    assert (construct_then api label = api') as ->
      by (unfold construct_then; by rewrite Hc).
    destruct (construct_step _ _ _ _ Hready Hwf Hc)
      as (Hready' & Hwf' & Hnext & _ & Hlab & Hinst).
    destruct (IH api' Hready' Hwf') as (H1 & H2 & H3 & H4 & H5).
    repeat split; try done; try lia.
    + intros l v0 Hv0. by apply H4, Hlab.
    + intros r Hr. rewrite H5 by lia. by apply Hinst.
Qed.

(** The first construction for a label leaves its result in the table. *)
Lemma construct_registers label api v api' :
  global_ready api = true -> opt_truthy label = true ->
  construct label api = Ok (v, api') ->
  lookup_label api' (default "" label) = Some v.
Proof.
  intros Hready Hl. unfold construct. rewrite Hready, Hl.
  destruct (lookup_label api (default "" label)) as [existing|] eqn:Hlook.
  - intros [= <- <-]. exact Hlook.
  - intros [= <- <-]. unfold lookup_label. simpl. by rewrite lookup_insert_eq.
Qed.

Lemma construct_registered label api v :
  global_ready api = true -> opt_truthy label = true ->
  lookup_label api (default "" label) = Some v ->
  exists api', construct label api = Ok (v, api')
               /\ instances api' = instances api.
Proof.
  intros Hready Hl Hlook. unfold construct. rewrite Hready, Hl, Hlook.
  by eexists.
Qed.

(** C9.  Once [window.BdApi] is set, two constructions with the same label
    return the same value, whatever is constructed in between, and the
    [Patcher], [Data] and [DOM] read from it are the same objects both
    times; a construction without a label returns the global API. *)
Theorem construct_singleton_per_label api label others :
  global_ready api = true -> well_formed api ->
  exists v api1 api2,
    construct label api = Ok (v, api1)
    /\ construct label (construct_all others api1) = Ok (v, api2)
    /\ (forall proj, facade_of proj api2 v = facade_of proj api1 v)
    /\ (opt_truthy label = false -> v = GlobalApi).
Proof.
  intros Hready Hwf.
  destruct (construct_ready label api Hready) as (v & api1 & Hc1).
  destruct (construct_step _ _ _ _ Hready Hwf Hc1)
    as (Hready1 & Hwf1 & _ & Halloc & _ & _).
  destruct (construct_all_keeps others api1 Hready1 Hwf1)
    as (Hready2 & Hwf2 & Hnext & Hlab & Hinst).
  exists v, api1.
  destruct (opt_truthy label) eqn:Hl.
  - pose proof (construct_registers _ _ _ _ Hready Hl Hc1) as Hreg.
    destruct (construct_registered label _ v Hready2 Hl (Hlab _ _ Hreg))
      as (api2 & Hc2 & Hsame).
    exists api2. repeat split; try done.
    intros proj. destruct v as [|r|key]; simpl; try done.
    rewrite Hsame. simpl in Halloc. by rewrite Hinst.
  - assert (v = GlobalApi) as ->.
    { revert Hc1. unfold construct. rewrite Hready, Hl. by intros [= <- _]. }
    destruct (construct_ready label (construct_all others api1) Hready2)
      as (v2 & api2 & Hc2).
    assert (v2 = GlobalApi) as ->.
    { revert Hc2. unfold construct. rewrite Hready2, Hl. by intros [= <- _]. }
    exists api2. by repeat split.
Qed.

Lemma construct_singleton_per_label_witness :
  global_ready initial_api = true /\ well_formed initial_api
  /\ exists v api1 api2,
       construct (Some "MyPlugin") initial_api = Ok (v, api1)
       /\ construct (Some "MyPlugin")
            (construct_all [Some "Other"; None] api1) = Ok (v, api2)
       /\ (forall proj, facade_of proj api2 v = facade_of proj api1 v)
       /\ (opt_truthy (Some "MyPlugin") = false -> v = GlobalApi).
Proof.
  assert (Hwf : well_formed initial_api).
  { intros l r Hr. vm_compute in Hr. discriminate. }
  split; [reflexivity|]. split; [exact Hwf|].
  apply (construct_singleton_per_label initial_api (Some "MyPlugin")
           [Some "Other"; None] eq_refl Hwf).
Defined.

End ScopedApiFacts.

(** ** Module lookup facade *)
Module WebpackFacts.
Import JS Webpack.

(** *** [waitForModule] *)

Lemma waitForModule_settled_once options existingModule :
  settled_once (waitForModule options existingModule).
Proof.
  unfold waitForModule, settled_once.
  destruct (signal options) as [[|]|], existingModule; simpl; eauto 10.
Qed.

Lemma wait_step_settled_once options st ev :
  settled_once st -> settled_once (wait_step options st ev).
Proof.
  unfold settled_once.
  intros [[Hc Hs] | (Hc & Hs & Hl & Hsub)]; destruct ev as [|m]; simpl.
  - destruct (signal options); [|by left].
    destruct (signal_aborted st); [by left|]. simpl.
    destruct (listening st); simpl; [|by left].
    right. rewrite Hc, Hs. eauto 10.
  - destruct (subscribed st); [|by left].
    unfold onFound. simpl. destruct (aborted st); simpl; [by left|].
    right. rewrite Hc, Hs. simpl. repeat split; eauto; done.
  - destruct (signal options); [|by right].
    destruct (signal_aborted st); [by right|]. simpl.
    rewrite Hl. simpl. by right.
  - destruct (subscribed st) eqn:Hsubd;
      [|right; repeat split; auto; congruence].
    unfold onFound. simpl. rewrite (Hsub eq_refl). simpl.
    right. repeat split; try done.
Qed.

Lemma wait_run_settled_once options evs : forall st,
  settled_once st -> settled_once (wait_run options st evs).
Proof.
  induction evs as [|ev evs IH]; intros st H; simpl; [done|].
  by apply IH, wait_step_settled_once.
Qed.

Lemma wait_run_cons options st pre ev post :
  wait_run options st (pre ++ ev :: post)
  = wait_run options (wait_step options (wait_run options st pre) ev) post.
Proof. unfold wait_run. by rewrite fold_left_app. Qed.

(** A settled promise keeps its value and [resolve] is not called again. *)
Lemma wait_step_settled_stays options st ev v :
  settled_once st -> settled st = Some v ->
  settled (wait_step options st ev) = Some v
  /\ resolve_calls (wait_step options st ev) = resolve_calls st.
Proof.
  intros [[_ Hs] | (Hc & _ & Hl & Hsub)] Hv; [congruence|].
  destruct ev as [|m]; simpl.
  - destruct (signal options); [|done].
    destruct (signal_aborted st); [done|]. simpl. by rewrite Hl.
  - destruct (subscribed st); [|done].
    unfold onFound. simpl. by rewrite (Hsub eq_refl).
Qed.

Lemma wait_run_settled_stays options evs : forall st v,
  settled_once st -> settled st = Some v ->
  settled (wait_run options st evs) = Some v
  /\ resolve_calls (wait_run options st evs) = resolve_calls st.
Proof.
  induction evs as [|ev evs IH]; intros st v Hinv Hv; simpl; [done|].
  destruct (wait_step_settled_stays options st ev v Hinv Hv) as [Hv' Hc'].
  rewrite <- Hc'. apply IH; [by apply wait_step_settled_once | done].
Qed.

(** While nothing has been found the wait either is still pending with its
    listener in place, or has been aborted. *)
Lemma wait_run_no_discovery options evs : forall st,
  no_discovery evs ->
  (settled st = None /\ listening st = true /\ signal_aborted st = false)
  \/ settled st = Some NotFound ->
  (settled (wait_run options st evs) = None
   /\ listening (wait_run options st evs) = true
   /\ signal_aborted (wait_run options st evs) = false)
  \/ settled (wait_run options st evs) = Some NotFound.
Proof.
  induction evs as [|ev evs IH]; intros st Hno H; simpl; [done|].
  apply IH; [intros m Hm; apply (Hno m); by right|].
  destruct ev as [|m]; [|exfalso; apply (Hno m); by left].
  simpl. destruct H as [(Hs & Hl & Ha) | Hs].
  - destruct (signal options); [|by left].
    rewrite Ha. simpl. rewrite Hl. simpl. right. by rewrite Hs.
  - destruct (signal options); [|by right].
    destruct (signal_aborted st); [by right|]. simpl.
    destruct (listening st); simpl; [|by right]. right. by rewrite Hs.
Qed.

(** While no event reaches the wait it stays as the call left it. *)
Lemma wait_run_untouched options evs : forall st,
  no_discovery evs ->
  signal options = None \/ ~ In SignalAborts evs ->
  wait_run options st evs = st.
Proof.
  induction evs as [|ev evs IH]; intros st Hno Hsig; [reflexivity|].
  destruct ev as [|m]; [|exfalso; apply (Hno m); by left].
  destruct Hsig as [Hsig|Hsig]; [|exfalso; apply Hsig; by left].
  simpl. rewrite Hsig.
  apply IH; [intros m Hm; apply (Hno m); by right | by left].
Qed.

(** C2.  [waitForModule] settles its promise exactly once as soon as
    something settles it, and never twice: [resolve] is called as often as
    the promise is settled, at most once.  With a signal that is already
    aborted the promise is resolved with [undefined] in the call itself and
    stays so; when the signal aborts while the wait is pending, the promise
    is resolved with [undefined] and whatever is discovered later leaves it
    as it is.  A module that exists at the call resolves the promise in the
    call, the first discovery on a wait that was not aborted resolves it with
    what was found, and a wait that nothing has reached is still pending. *)
Theorem waitForModule_settles_once options existingModule evs :
  let st := wait_run options (waitForModule options existingModule) evs in
  ((resolve_calls st <= 1)%nat
   /\ (is_Some (settled st) <-> resolve_calls st = 1%nat))
  /\ (signal options = Some true ->
      settled (waitForModule options existingModule) = Some NotFound
      /\ subscribed (waitForModule options existingModule) = false
      /\ settled st = Some NotFound)
  /\ (forall pre post,
        evs = pre ++ SignalAborts :: post ->
        signal options = Some false -> existingModule = None ->
        no_discovery pre ->
        settled st = Some NotFound /\ resolve_calls st = 1%nat)
  /\ (forall m,
        signal options <> Some true -> existingModule = Some m ->
        settled (waitForModule options existingModule) = Some (Module m)
        /\ settled st = Some (Module m) /\ resolve_calls st = 1%nat)
  /\ (forall pre m post,
        evs = pre ++ Discovery m :: post ->
        signal options <> Some true -> existingModule = None ->
        no_discovery pre ->
        signal options = None \/ ~ In SignalAborts pre ->
        settled st
        = Some (let result :=
                  if negb (defaultExport options) && is_function m
                  then Wrapper m else Module m in
                if raw options then RawExports result else result)
        /\ resolve_calls st = 1%nat)
  /\ (signal options <> Some true -> existingModule = None ->
      no_discovery evs ->
      signal options = None \/ ~ In SignalAborts evs ->
      settled st = None /\ resolve_calls st = 0%nat).
Proof.
  intros st.
  pose proof (wait_run_settled_once options evs _
                (waitForModule_settled_once options existingModule)) as Hinv.
  fold st in Hinv. split; [|split; [|split; [|split; [|split]]]].
  - destruct Hinv as [[Hc Hs] | (Hc & Hs & _)]; rewrite Hc.
    + split; [lia|]. rewrite Hs. split; [by intros [? ?] | done].
    + split; [lia|]. done.
  - intros Hsig.
    assert (H0 : settled (waitForModule options existingModule) = Some NotFound)
      by (unfold waitForModule; by rewrite Hsig).
    split; [exact H0|]. split.
    + unfold waitForModule. by rewrite Hsig.
    + by apply wait_run_settled_stays;
        [apply waitForModule_settled_once|].
  - intros pre post -> Hsig -> Hno. subst st.
    rewrite wait_run_cons in *.
    set (st1 := wait_run options (waitForModule options None) pre) in *.
    assert (Hinv1 : settled_once st1)
      by apply wait_run_settled_once, waitForModule_settled_once.
    assert (H1 : (settled st1 = None /\ listening st1 = true
                  /\ signal_aborted st1 = false)
                 \/ settled st1 = Some NotFound).
    { apply wait_run_no_discovery; [done|]. left.
      unfold waitForModule. by rewrite Hsig. }
    assert (H2 : settled (wait_step options st1 SignalAborts) = Some NotFound).
    { simpl. rewrite Hsig.
      destruct H1 as [(Hs & Hl & Ha) | Hs].
      - rewrite Ha. simpl. rewrite Hl. simpl. by rewrite Hs.
      - destruct (signal_aborted st1); [done|]. simpl.
        destruct (listening st1); simpl; [|done]. by rewrite Hs. }
    set (st2 := wait_step options st1 SignalAborts) in *.
    assert (Hinv2 : settled_once st2) by by apply wait_step_settled_once.
    destruct (wait_run_settled_stays options post st2 NotFound Hinv2 H2)
      as [Hs Hc].
    split; [exact Hs|].
    destruct Hinv as [[_ Hnone] | (Hone & _)]; [congruence | exact Hone].
  - intros m Hsig ->.
    assert (H0 : settled (waitForModule options (Some m)) = Some (Module m)
                 /\ resolve_calls (waitForModule options (Some m)) = 1%nat).
    { unfold waitForModule. destruct (signal options) as [[|]|]; done. }
    destruct H0 as [H0 H1]. split; [exact H0|].
    destruct (wait_run_settled_stays options evs _ (Module m)
                (waitForModule_settled_once options (Some m)) H0) as [Hs Hc].
    subst st. split; [exact Hs | congruence].
  - intros pre m post -> Hsig -> Hno Hquiet. subst st.
    rewrite wait_run_cons in *.
    rewrite (wait_run_untouched options pre _ Hno Hquiet) in *.
    set (v := let result := if negb (defaultExport options) && is_function m
                            then Wrapper m else Module m in
              if raw options then RawExports result else result).
    assert (H1 : settled (wait_step options (waitForModule options None)
                            (Discovery m)) = Some v
                 /\ resolve_calls (wait_step options (waitForModule options None)
                                     (Discovery m)) = 1%nat).
    { unfold waitForModule. destruct (signal options) as [[|]|]; done. }
    destruct H1 as [H1 H2].
    destruct (wait_run_settled_stays options post _ v
                (wait_step_settled_once options _ (Discovery m)
                   (waitForModule_settled_once options None)) H1) as [Hs Hc].
    split; [exact Hs | congruence].
  - intros Hsig -> Hno Hquiet. subst st.
    rewrite (wait_run_untouched options evs _ Hno Hquiet).
    unfold waitForModule. destruct (signal options) as [[|]|]; done.
Qed.

Lemma waitForModule_settles_once_witness :
  settled (wait_run (mkOptions true false (Some false))
             (waitForModule (mkOptions true false (Some false)) None)
             [SignalAborts; Discovery (mkFound 7 true)])
  = Some NotFound
  /\ resolve_calls (wait_run (mkOptions true false (Some false))
                      (waitForModule (mkOptions true false (Some false)) None)
                      [SignalAborts; Discovery (mkFound 7 true)])
     = 1%nat.
Proof.
  pose proof (waitForModule_settles_once
                (mkOptions true false (Some false)) None
                [SignalAborts; Discovery (mkFound 7 true)]) as H.
  cbv zeta in H. destruct H as (_ & _ & H & _).
  apply (H [] [Discovery (mkFound 7 true)]); try reflexivity.
  intros m [].
Defined.

(** Without an abort the discovery resolves the promise with the module. *)
Example waitForModule_discovery :
  settled (wait_run (mkOptions false true (Some false))
             (waitForModule (mkOptions false true (Some false)) None)
             [Discovery (mkFound 7 true); SignalAborts])
  = Some (RawExports (Wrapper (mkFound 7 true))).
Proof. reflexivity. Qed.

(** *** [getMangled] *)

Lemma hasOwnProperty_set o k v k' :
  hasOwnProperty (set_property o k v) k'
  = hasOwnProperty o k' || String.eqb k k'.
Proof.
  induction o as [|[k0 old] rest IH]; simpl.
  - by rewrite orb_false_r.
  - destruct (String.eqb_spec k0 k) as [->|Hne]; simpl.
    + by destruct (String.eqb k k'), (hasOwnProperty rest k').
    + rewrite IH. by rewrite orb_assoc.
Qed.

Lemma get_set_same o k v : get_property (set_property o k v) k = v.
Proof.
  induction o as [|[k0 old] rest IH]; simpl.
  - by rewrite String.eqb_refl.
  - destruct (String.eqb_spec k0 k) as [->|Hne]; simpl.
    + by rewrite String.eqb_refl.
    + destruct (String.eqb_spec k0 k); [done | exact IH].
Qed.

Lemma get_set_other o k v k' :
  k <> k' -> get_property (set_property o k v) k' = get_property o k'.
Proof.
  intros Hne. induction o as [|[k0 old] rest IH]; simpl.
  - destruct (String.eqb_spec k k'); [done | reflexivity].
  - destruct (String.eqb_spec k0 k) as [->|Hne0]; simpl.
    + destruct (String.eqb_spec k k'); [done | reflexivity].
    + destruct (String.eqb k0 k'); [reflexivity | exact IH].
Qed.

Lemma get_not_own o k : hasOwnProperty o k = false -> get_property o k = VUndefined.
Proof.
  induction o as [|[k0 v] rest IH]; simpl; [done|].
  destruct (String.eqb k0 k); simpl; [done | exact IH].
Qed.

(** [Object.keys] lists every own property once. *)
Lemma insert_index_perm {A : Type} n (entry : string * A) sorted :
  Permutation (map snd (insert_index n entry sorted))
              (entry :: map snd sorted).
Proof.
  induction sorted as [|[m other] rest IH]; simpl; [done|].
  destruct (n <=? m)%N; simpl; [done|].
  rewrite IH. apply perm_swap.
Qed.

Lemma own_entries_perm {A : Type} (o : list (string * A)) :
  Permutation (own_entries o) o.
Proof.
  unfold own_entries. induction o as [|entry rest IH]; [done|].
  cbn [index_entries List.filter]. unfold is_array_index at 1.
  destruct (array_index (fst entry)) as [n|] eqn:Hix; cbn [negb].
  - rewrite insert_index_perm. cbn [app]. by rewrite IH.
  - rewrite <- Permutation_middle. by rewrite IH.
Qed.

Lemma own_entries_In {A : Type} (o : list (string * A)) entry :
  In entry (own_entries o) <-> In entry o.
Proof.
  rewrite <- !list_elem_of_In. by rewrite own_entries_perm.
Qed.

Lemma own_entries_keys {A : Type} (o : list (string * A)) key :
  In key (map fst (own_entries o)) <-> In key (map fst o).
Proof.
  rewrite !in_map_iff. split; intros (entry & ? & ?); exists entry;
    (split; [done|]); by apply own_entries_In.
Qed.

Section GetMangledFacts.
Variable chain : nat -> string -> Inherited_slot.

(** As long as the prototype is [Object.prototype], an assignment to a
    key other than [__proto__] writes an own property. *)
Lemma assign_plain o key v :
  prototype o = ObjectPrototype -> key <> "__proto__" ->
  assign chain o key v
  = (Ok tt, mkObj (set_property (own o) key v) ObjectPrototype).
Proof.
  intros Hp Hk. unfold assign. rewrite Hp. simpl.
  unfold Object_prototype_slot.
  destruct (String.eqb_spec key "__proto__"); [done|].
  by destruct (hasOwnProperty (own o) key).
Qed.

(** With the prototype [Object.prototype], an assignment to [__proto__]
    creates no own property. *)
Lemma assign_proto o v :
  prototype o = ObjectPrototype -> hasOwnProperty (own o) "__proto__" = false ->
  own (snd (assign chain o "__proto__" v)) = own o
  /\ fst (assign chain o "__proto__" v) = Ok tt.
Proof.
  intros Hp Hown. unfold assign. rewrite Hown, Hp. simpl.
  by destruct v.
Qed.

Lemma plain_keys_own_entries mappers :
  ~ In "__proto__" (map fst mappers) -> plain_keys (own_entries mappers).
Proof.
  intros Hnot. apply List.Forall_forall. intros mapper Hin Heq. apply Hnot.
  apply (proj1 (own_entries_In _ _)) in Hin. rewrite <- Heq. by apply (in_map fst).
Qed.

Lemma try_mapper_plain value mapperKeys : forall mapped,
  plain_keys mapperKeys -> prototype mapped = ObjectPrototype ->
  prototype (fold_left (try_mapper chain value) mapperKeys mapped)
  = ObjectPrototype.
Proof.
  induction mapperKeys as [|[k validator] ms IH]; intros mapped Hpl Hp;
    simpl; [done|].
  apply Forall_cons in Hpl as [Hk Hpl]. apply IH; [done|].
  destruct (hasOwnProperty (own mapped) k); [done|].
  destruct (validator value) as [[]|]; try done.
  rewrite assign_plain by done; by cbn [snd fst].
Qed.

Lemma match_property_plain mapperKeys moduleKeys : forall mapped,
  plain_keys mapperKeys -> prototype mapped = ObjectPrototype ->
  prototype (fold_left (match_property chain mapperKeys) moduleKeys mapped)
  = ObjectPrototype.
Proof.
  induction moduleKeys as [|searched rest IH]; intros mapped Hpl Hp; simpl;
    [done|].
  apply IH; [done|]. by apply try_mapper_plain.
Qed.

(** A key that no validator accepted stays absent. *)
Lemma try_mapper_rejected value key mapperKeys : forall mapped,
  plain_keys mapperKeys -> prototype mapped = ObjectPrototype ->
  (forall validator, In (key, validator) mapperKeys ->
                     validator value <> Ok true) ->
  hasOwnProperty (own mapped) key = false ->
  hasOwnProperty (own (fold_left (try_mapper chain value) mapperKeys mapped))
    key = false.
Proof.
  induction mapperKeys as [|[k validator] ms IH]; intros mapped Hpl Hp Hrej H;
    simpl; [done|].
  apply Forall_cons in Hpl as [Hk Hpl]. simpl in Hk.
  destruct (hasOwnProperty (own mapped) k) eqn:Hown.
  { apply IH; try done. intros v Hv. apply Hrej. by right. }
  destruct (validator value) as [[]|] eqn:Hv.
  - rewrite assign_plain by done; cbn [snd fst]. simpl.
    apply IH; try done; [intros v' Hv'; apply Hrej; by right|].
    simpl. rewrite hasOwnProperty_set, H. simpl.
    destruct (String.eqb_spec k key) as [->|]; [|done].
    exfalso. apply (Hrej validator); [by left | done].
  - apply IH; try done. intros v' Hv'. apply Hrej. by right.
  - apply IH; try done. intros v' Hv'. apply Hrej. by right.
Qed.

Lemma match_property_rejected key mapperKeys moduleKeys : forall mapped,
  plain_keys mapperKeys -> prototype mapped = ObjectPrototype ->
  (forall validator k value,
     In (key, validator) mapperKeys -> In (k, value) moduleKeys ->
     validator value <> Ok true) ->
  hasOwnProperty (own mapped) key = false ->
  hasOwnProperty
    (own (fold_left (match_property chain mapperKeys) moduleKeys mapped))
    key = false.
Proof.
  induction moduleKeys as [|[k value] rest IH]; intros mapped Hpl Hp Hrej H;
    simpl; [done|].
  apply IH; try done.
  - by apply try_mapper_plain.
  - intros validator k' value' Hv Hin. apply (Hrej validator k' value' Hv).
    by right.
  - unfold match_property. apply try_mapper_rejected; try done.
    intros validator Hv. apply (Hrej validator k value Hv). by left.
Qed.

(** A key that has been mapped keeps its value: the inner loop skips it. *)
Lemma try_mapper_keeps value key mapperKeys : forall mapped,
  plain_keys mapperKeys -> prototype mapped = ObjectPrototype ->
  hasOwnProperty (own mapped) key = true ->
  hasOwnProperty (own (fold_left (try_mapper chain value) mapperKeys mapped))
    key = true
  /\ get_property
       (own (fold_left (try_mapper chain value) mapperKeys mapped)) key
     = get_property (own mapped) key.
Proof.
  induction mapperKeys as [|[k validator] ms IH]; intros mapped Hpl Hp H;
    simpl; [done|].
  apply Forall_cons in Hpl as [Hk Hpl]. simpl in Hk.
  destruct (hasOwnProperty (own mapped) k) eqn:Hown; [by apply IH|].
  destruct (validator value) as [[]|] eqn:Hv; try by apply IH.
  rewrite assign_plain by done; cbn [snd fst].
  assert (Hne : k <> key) by (intros ->; congruence).
  destruct (IH (mkObj (set_property (own mapped) k value) ObjectPrototype))
    as [H1 H2]; try done.
  { simpl. by rewrite hasOwnProperty_set, H. }
  split; [done|]. rewrite H2. simpl. by apply get_set_other.
Qed.

Lemma match_property_keeps key mapperKeys moduleKeys : forall mapped,
  plain_keys mapperKeys -> prototype mapped = ObjectPrototype ->
  hasOwnProperty (own mapped) key = true ->
  hasOwnProperty
    (own (fold_left (match_property chain mapperKeys) moduleKeys mapped))
    key = true
  /\ get_property
       (own (fold_left (match_property chain mapperKeys) moduleKeys mapped))
       key
     = get_property (own mapped) key.
Proof.
  induction moduleKeys as [|searched rest IH]; intros mapped Hpl Hp H; simpl;
    [done|].
  destruct (try_mapper_keeps (snd searched) key mapperKeys mapped)
    as [H1 H2]; try done.
  destruct (IH (match_property chain mapperKeys mapped searched))
    as [H3 H4]; try done.
  { by apply try_mapper_plain. }
  split; [done|]. by rewrite H4.
Qed.

(** The first value that a validator of the key accepts is taken. *)
Lemma try_mapper_accepted value key validator mapperKeys : forall mapped,
  plain_keys mapperKeys -> prototype mapped = ObjectPrototype ->
  In (key, validator) mapperKeys -> validator value = Ok true ->
  hasOwnProperty (own mapped) key = false ->
  hasOwnProperty (own (fold_left (try_mapper chain value) mapperKeys mapped))
    key = true
  /\ get_property
       (own (fold_left (try_mapper chain value) mapperKeys mapped)) key
     = value.
Proof.
  induction mapperKeys as [|[k validator'] ms IH];
    intros mapped Hpl Hp Hin Hacc H; simpl; [done|].
  pose proof Hpl as Hpl0.
  apply Forall_cons in Hpl as [Hk Hpl]. simpl in Hk.
  destruct (String.eqb_spec k key) as [->|Hne].
  - rewrite H.
    destruct (validator' value) as [[]|] eqn:Hv.
    + rewrite assign_plain by done; cbn [snd fst].
      destruct (try_mapper_keeps value key ms
                  (mkObj (set_property (own mapped) key value)
                         ObjectPrototype)) as [H1 H2]; try done.
      { simpl. by rewrite hasOwnProperty_set, String.eqb_refl, orb_true_r. }
      split; [done|]. rewrite H2. simpl. apply get_set_same.
    + destruct Hin as [[= ->] | Hin]; [congruence|]. by apply IH.
    + destruct Hin as [[= ->] | Hin]; [congruence|]. by apply IH.
  - destruct Hin as [[= ? ?] | Hin]; [done|].
    destruct (hasOwnProperty (own mapped) k) eqn:Hown; [by apply IH|].
    destruct (validator' value) as [[]|] eqn:Hv; try by apply IH.
    rewrite assign_plain by done; cbn [snd fst]. apply IH; try done.
    simpl. rewrite hasOwnProperty_set, H. simpl.
    by destruct (String.eqb_spec k key).
Qed.

(** The last loop never throws on plain keys, adds every missing key with
    [undefined] and leaves the mapped ones alone. *)
Lemma ensure_plain mapperKeys : forall mapped,
  plain_keys mapperKeys -> prototype mapped = ObjectPrototype ->
  exists result,
    fold_left (ensure_key chain) mapperKeys (Ok mapped) = Ok result
    /\ prototype result = ObjectPrototype
    /\ (forall key, In key (map fst mapperKeys) ->
                    hasOwnProperty (own result) key = true)
    /\ (forall key, hasOwnProperty (own mapped) key = true ->
                    hasOwnProperty (own result) key = true
                    /\ get_property (own result) key
                       = get_property (own mapped) key)
    /\ (forall key, hasOwnProperty (own mapped) key = false ->
                    get_property (own result) key = VUndefined)
    /\ (forall key, hasOwnProperty (own result) key = true ->
                    hasOwnProperty (own mapped) key = true
                    \/ In key (map fst mapperKeys)).
Proof.
  induction mapperKeys as [|[k validator] ms IH]; intros mapped Hpl Hp.
  - exists mapped. simpl. repeat split; try done; try tauto.
    intros key H. by apply get_not_own.
  - apply Forall_cons in Hpl as [Hk Hpl]. simpl in Hk. simpl.
    destruct (hasOwnProperty (own mapped) k) eqn:Hown.
    + destruct (IH mapped Hpl Hp) as (result & Hrun & Hpr & Hall & Hkeep & Hund & Hfrom).
      exists result. repeat split; try done.
      * intros key [<- | Hin]; [by apply Hkeep | by apply Hall].
      * by apply Hkeep.
      * by apply Hkeep.
      * intros key H. destruct (Hfrom key H); tauto.
    + rewrite assign_plain by done; cbn [snd fst]. unfold outcome. simpl.
      destruct (IH (mkObj (set_property (own mapped) k VUndefined)
                          ObjectPrototype) Hpl eq_refl)
        as (result & Hrun & Hpr & Hall & Hkeep & Hund & Hfrom).
      simpl in *.
      exists result. repeat split; try done.
      * intros key [<- | Hin]; [|by apply Hall].
        apply Hkeep. by rewrite hasOwnProperty_set, String.eqb_refl, orb_true_r.
      * apply Hkeep. by rewrite hasOwnProperty_set, H.
      * destruct (Hkeep key) as [_ ->];
          [by rewrite hasOwnProperty_set, H|].
        apply get_set_other. intros ->. congruence.
      * intros key H.
        destruct (String.eqb_spec k key) as [->|Hne].
        -- destruct (Hkeep key) as [_ ->];
             [by rewrite hasOwnProperty_set, String.eqb_refl, orb_true_r|].
           apply get_set_same.
        -- apply Hund. rewrite hasOwnProperty_set, H. simpl.
           by destruct (String.eqb_spec k key).
      * intros key H. destruct (Hfrom key H) as [H'|H']; [|tauto].
        rewrite hasOwnProperty_set in H'.
        destruct (hasOwnProperty (own mapped) key); [tauto|]. simpl in H'.
        destruct (String.eqb_spec k key) as [->|]; [tauto | done].
Qed.

Lemma flatten_throw module e :
  fold_left (flatten_step chain) module (Throw e) = Throw e.
Proof. induction module as [|entry rest IH]; simpl; [done | exact IH]. Qed.

(** One step of the first loop on a key other than [__proto__], while the
    prototype is [Object.prototype]. *)
Lemma flatten_step_plain w key e w' :
  prototype w = ObjectPrototype -> key <> "__proto__" ->
  flatten_step chain (Ok w) (key, e) = Ok w' ->
  prototype w' = ObjectPrototype
  /\ exists value,
       own w' = set_property (own w) key value
       /\ forall v, e = Own (AccessorProperty (Some (Ok v)) false) ->
                    value = v.
Proof.
  intros Hp Hk. unfold flatten_step.
  destruct e as [[value | [[v|err]|] [|]] | r]; simpl;
    rewrite ?assign_plain by done; unfold outcome; simpl;
    try (destruct r as [v|err]; rewrite ?assign_plain by done; simpl);
    intros [= <-]; (split; [done|]); eexists; (split; [reflexivity|]);
    intros ? [=]; congruence.
Qed.

Lemma flatten_keeps_other key module : forall acc w,
  ~ In key (map fst module) -> ~ In "__proto__" (map fst module) ->
  prototype acc = ObjectPrototype ->
  fold_left (flatten_step chain) module (Ok acc) = Ok w ->
  get_property (own w) key = get_property (own acc) key
  /\ hasOwnProperty (own w) key = hasOwnProperty (own acc) key.
Proof.
  induction module as [|[k e] rest IH]; intros acc w Hnot Hpr Hp Hrun;
    cbn [fold_left map In fst] in *.
  - by injection Hrun as <-.
  - destruct (flatten_step chain (Ok acc) (k, e)) as [acc'|err] eqn:Hstep;
      [|by rewrite flatten_throw in Hrun].
    apply flatten_step_plain in Hstep as (Hp' & value & Hown & _);
      [|done|tauto].
    destruct (IH acc' w) as [H1 H2]; try done; try tauto.
    rewrite H1, H2, Hown. split.
    + apply get_set_other. tauto.
    + rewrite hasOwnProperty_set.
      destruct (String.eqb_spec k key); [tauto | by rewrite orb_false_r].
Qed.

(** A property that has a getter and no setter ends up in the writable
    object as an own data property holding what the getter returned. *)
Lemma flatten_getter_only key v module : forall acc w,
  NoDup (map fst module) -> ~ In "__proto__" (map fst module) ->
  prototype acc = ObjectPrototype ->
  In (key, Own (AccessorProperty (Some (Ok v)) false)) module ->
  fold_left (flatten_step chain) module (Ok acc) = Ok w ->
  hasOwnProperty (own w) key = true /\ get_property (own w) key = v.
Proof.
  induction module as [|[k e] rest IH]; intros acc w Hnd Hpr Hp Hin Hrun;
    cbn [fold_left map In fst] in *; [done|].
  apply NoDup_cons in Hnd as [Hk Hnd].
  destruct (flatten_step chain (Ok acc) (k, e)) as [acc'|err] eqn:Hstep;
    [|by rewrite flatten_throw in Hrun].
  apply flatten_step_plain in Hstep as (Hp' & value & Hown & Hval);
    [|done|tauto].
  destruct Hin as [[= -> ->] | Hin].
  - destruct (flatten_keeps_other key rest acc' w) as [H1 H2]; try done;
      try tauto.
    { by rewrite <- list_elem_of_In. }
    rewrite H1, H2, Hown, (Hval v eq_refl). split.
    + by rewrite hasOwnProperty_set, String.eqb_refl, orb_true_r.
    + apply get_set_same.
  - apply (IH acc' w); try done. tauto.
Qed.

End GetMangledFacts.

(** C8 (as amended).  When no module matches the filter the result is the
    empty object.  When a module is found and [__proto__] is not a key of
    the mapping, [getMangled] returns an object whose own properties are
    exactly the keys of the mapping: a key holds [undefined] when no
    property of the writable object satisfied a validator of that key, and
    otherwise the first value, in the order of [Object.keys], that one of
    its validators accepted.  The validators are matched against the
    writable object, on which the hidden marker is set and in which a
    getter-only property of the module has become an own data property
    holding what the getter returned. *)
Theorem getMangled_keys chain found mappers :
  match found with
  | None => getMangled chain found mappers = Ok (mkMangled empty_object None)
  | Some module =>
      (forall e, flatten chain module = Throw e ->
                 getMangled chain found mappers = Throw e)
      /\ (forall writableModule,
            flatten chain module = Ok writableModule ->
            ~ In "__proto__" (map fst mappers) ->
            exists res,
              getMangled chain found mappers = Ok res
              /\ marker res = Some writableModule
              /\ prototype (fields res) = ObjectPrototype
              /\ (forall key,
                    hasOwnProperty (own (fields res)) key = true
                    <-> In key (map fst mappers))
              /\ (forall key,
                    (forall validator k value,
                       In (key, validator) mappers ->
                       In (k, value) (own writableModule) ->
                       validator value <> Ok true) ->
                    get_property (own (fields res)) key = VUndefined)
              /\ (forall key validator earlier k value later,
                    In (key, validator) mappers ->
                    own_entries (own writableModule)
                    = earlier ++ (k, value) :: later ->
                    validator value = Ok true ->
                    (forall validator' k' value',
                       In (key, validator') mappers ->
                       In (k', value') earlier ->
                       validator' value' <> Ok true) ->
                    get_property (own (fields res)) key = value))
      /\ (forall writableModule key v,
            flatten chain module = Ok writableModule ->
            NoDup (map fst module) -> ~ In "__proto__" (map fst module) ->
            In (key, Own (AccessorProperty (Some (Ok v)) false)) module ->
            hasOwnProperty (own writableModule) key = true
            /\ get_property (own writableModule) key = v)
  end.
Proof.
  destruct found as [module|]; [|reflexivity].
  split; [|split].
  - intros e He. unfold getMangled. by rewrite He.
  - intros w Hflat Hnot. unfold getMangled. rewrite Hflat.
    pose proof (plain_keys_own_entries mappers Hnot) as Hpl.
    set (mapped := fold_left (match_property chain (own_entries mappers))
                     (own_entries (own w)) empty_object).
    assert (Hp : prototype mapped = ObjectPrototype)
      by by apply match_property_plain.
    destruct (ensure_plain chain (own_entries mappers) mapped Hpl Hp)
      as (result & Hrun & Hpr & Hall & Hkeep & Hund & Hfrom).
    rewrite Hrun. exists (mkMangled result (Some w)). simpl.
    split; [done|]. split; [done|]. split; [done|].
    split; [|split].
    + intros key. split.
      * intros H. destruct (Hfrom key H) as [H'|H'];
          [|by apply own_entries_keys].
        destruct (in_dec String.string_dec key (map fst mappers)) as [|Hno]; [done|]. exfalso.
        assert (hasOwnProperty (own mapped) key = false); [|congruence].
        apply match_property_rejected; try done.
        intros validator k value Hv. exfalso. apply Hno.
        apply (proj1 (own_entries_In _ _)) in Hv. by apply (in_map fst) in Hv.
      * intros H. apply Hall. by apply own_entries_keys.
    + intros key Hrej. apply Hund.
      apply match_property_rejected; try done.
      intros validator k value Hv Hin.
      apply (Hrej validator k value); by apply own_entries_In.
    + intros key validator earlier k value later Hv Hsplit Hacc Hrej.
      assert (Hmapped : hasOwnProperty (own mapped) key = true
                        /\ get_property (own mapped) key = value).
      { unfold mapped. rewrite Hsplit, fold_left_app. simpl.
        set (before := fold_left (match_property chain (own_entries mappers))
                         earlier empty_object).
        assert (Hpb : prototype before = ObjectPrototype)
          by by apply match_property_plain.
        assert (Hnb : hasOwnProperty (own before) key = false).
        { apply match_property_rejected; try done.
          intros validator' k' value' Hv' Hin.
          apply (Hrej validator' k' value'); [|done].
          by apply own_entries_In. }
        destruct (try_mapper_accepted chain value key validator
                    (own_entries mappers) before) as [H1 H2]; try done.
        { by apply own_entries_In. }
        destruct (match_property_keeps chain key (own_entries mappers) later
                    (match_property chain (own_entries mappers) before
                       (k, value))) as [H3 H4]; try done.
        { by apply try_mapper_plain. }
        split; [done|]. by rewrite H4. }
      destruct Hmapped as [H1 H2].
      destruct (Hkeep key H1) as [_ ->]. done.
  - intros w key v Hflat Hnd Hpr Hin.
    by apply (flatten_getter_only chain key v module empty_object w).
Qed.

(** C8 as stated fails: with no module matching the filter the result is
    [{}], which has none of the requested keys as an own property. *)
Lemma getMangled_not_found_counterexample :
  getMangled ordinary_chain None [("Foo", fun _ => Ok true)]
  = Ok (mkMangled empty_object None)
  /\ hasOwnProperty (own empty_object) "Foo" = false.
Proof. split; reflexivity. Qed.

Lemma getMangled_keys_witness :
  exists res,
    getMangled ordinary_chain
      (Some [("a", Own (AccessorProperty (Some (Ok (VString "x"))) false));
             ("b", Own (DataProperty (VNumber (JInt 1))))])
      [("Str", fun v => Ok (match v with VString _ => true | _ => false end));
       ("Obj", fun v => Ok (match v with VObject _ => true | _ => false end))]
    = Ok res
    /\ (hasOwnProperty (own (fields res)) "Str" = true
        /\ hasOwnProperty (own (fields res)) "Obj" = true)
    /\ get_property (own (fields res)) "Str" = VString "x".
Proof.
  destruct (getMangled_keys ordinary_chain
              (Some [("a", Own (AccessorProperty (Some (Ok (VString "x"))) false));
                     ("b", Own (DataProperty (VNumber (JInt 1))))])
              [("Str", fun v => Ok (match v with VString _ => true | _ => false end));
               ("Obj", fun v => Ok (match v with VObject _ => true | _ => false end))])
    as (_ & Hfound & _).
  destruct (Hfound (mkObj [("a", VString "x"); ("b", VNumber (JInt 1))]
                          ObjectPrototype) eq_refl)
    as (res & Hres & _ & _ & Hkeys & _ & Hfirst).
  { simpl. intros [H | [H | []]]; discriminate H. }
  exists res. split; [exact Hres|]. split.
  - split; apply Hkeys; simpl; tauto.
  - apply (Hfirst "Str"
             (fun v => Ok (match v with VString _ => true | _ => false end))
             [] "a" (VString "x") [("b", VNumber (JInt 1))]).
    + left. reflexivity.
    + reflexivity.
    + reflexivity.
    + intros ? ? ? _ [].
Defined.

(** A getter-only property is read once and searched as a data property;
    a key that nothing satisfies is present and holds [undefined]. *)
Example getMangled_example :
  getMangled ordinary_chain
    (Some [("a", Own (AccessorProperty (Some (Ok (VString "x"))) false));
           ("b", Own (DataProperty (VNumber (JInt 1))))])
    [("Str", fun v => Ok (match v with VString _ => true | _ => false end));
     ("Obj", fun v => Ok (match v with VObject _ => true | _ => false end))]
  = Ok (mkMangled
          (mkObj [("Str", VString "x"); ("Obj", VUndefined)] ObjectPrototype)
          (Some (mkObj [("a", VString "x"); ("b", VNumber (JInt 1))]
                       ObjectPrototype))).
Proof. reflexivity. Qed.

(** The search follows [Object.keys]: the property ["2"] is tried before
    ["10"], and both before ["b"], whatever the order of creation. *)
Example getMangled_key_order :
  own_entries [("b", VString "first"); ("10", VString "second");
               ("2", VString "third"); ("01", VString "fourth")]
  = [("2", VString "third"); ("10", VString "second");
     ("b", VString "first"); ("01", VString "fourth")]
  /\ getMangled ordinary_chain
       (Some [("b", Own (DataProperty (VString "first")));
              ("10", Own (DataProperty (VString "second")));
              ("2", Own (DataProperty (VString "third")))])
       [("Str", fun v => Ok (match v with VString _ => true | _ => false end))]
     = Ok (mkMangled
             (mkObj [("Str", VString "third")] ObjectPrototype)
             (Some (mkObj [("b", VString "first"); ("10", VString "second");
                           ("2", VString "third")] ObjectPrototype))).
Proof. split; reflexivity. Qed.

(** A key [__proto__] of the mapping never becomes an own property while
    the prototype is [Object.prototype]: the assignment replaces the
    prototype when the value is an object or [null]. *)
Example getMangled_proto_key :
  getMangled ordinary_chain
    (Some [("a", Own (DataProperty (VString "x")));
           ("b", Own (DataProperty (VObject 7)))])
    [("__proto__", fun _ => Ok true)]
  = Ok (mkMangled
          (mkObj [] (ObjectValue 7))
          (Some (mkObj [("a", VString "x"); ("b", VObject 7)]
                       ObjectPrototype))).
Proof. reflexivity. Qed.

End WebpackFacts.

(** ** The remote changelog parser, the order of versions *)
Module VersionsFacts.
Import JS Changelog Versions ChangelogFacts.

(** *** The remote parser and [vcParseChangelog] *)


Lemma match_heading_truthy line v :
  match_heading line = Some v -> str_truthy v = true.
Proof.
  unfold match_heading. destruct (startsWith "###" line); [|done].
  destruct (span_chars is_space (drop_chars 3 line)) as [ws rest].
  destruct ws; [done|].
  destruct (span_chars _ rest) as [ver tl]. destruct ver; [done|].
  by intros [= <-].
Qed.

Lemma same_loop_step st bst line :
  same_loop st bst -> same_loop (line_step st line) (block_step bst line).
Proof.
  intros [Hv Hc]. unfold line_step, block_step.
  set (sw := startsWith "-" (trim line)).
  set (item := trim (slice1 (trim line))).
  destruct (match_heading line) as [v|] eqn:Hm; simpl.
  - pose proof (match_heading_truthy _ _ Hm) as Ht. rewrite Ht.
    split; simpl; [|done].
    unfold push_current, push_cur.
    destruct (cur bst) as [c|].
    + destruct Hc as (-> & -> & ->). rewrite Hv. by destruct c.
    + by rewrite Hc.
  - destruct (cur bst) as [c|] eqn:Hcur.
    + destruct Hc as (Hcv & Hci & Hct). rewrite Hcv. simpl. rewrite Hct. simpl.
      assert (Hsame : same_loop st bst) by (split; [done | by rewrite Hcur]).
      destruct sw; [|done].
      destruct (str_truthy item); [|done].
      split; simpl; [done|]. by rewrite Hci.
    + rewrite Hc. simpl. split; [done | by rewrite Hcur].
Qed.

Lemma same_loop_fold lines : forall st bst,
  same_loop st bst ->
  same_loop (fold_left line_step lines st) (fold_left block_step lines bst).
Proof.
  induction lines as [|l ls IH]; intros st bst H; simpl; [done|].
  apply IH. by apply same_loop_step.
Qed.

Lemma remote_blocks md :
  push_cur (fold_left block_step (split_on "010" md) (mkBlockLoop [] None))
  = parse_versions md.
Proof.
  unfold parse_versions.
  assert (H : same_loop (mkLoop [] None []) (mkBlockLoop [] None)) by done.
  apply (same_loop_fold (split_on "010" md)) in H.
  destruct H as [Hv Hc]. unfold push_current, push_cur.
  destruct (cur _) as [c|].
  - destruct Hc as (-> & -> & ->). rewrite Hv. by destruct c.
  - by rewrite Hc.
Qed.

(** X1. The parser that tryShowCompatChangelog runs on the fetched text
    gives what vcParseChangelog gives on the same text and versions, but for
    the title of the bucket of fixes: [Bug Fixes] instead of [Fixes]. *)
Theorem remote_changes_vcParseChangelog other md fromVer toVer :
  remote_changes other md fromVer toVer
  = map remote_title (vcParseChangelog other md fromVer toVer).
Proof.
  unfold remote_changes, vcParseChangelog. rewrite remote_blocks.
  change (isNewer other) with (vcIsNewer other).
  rewrite !push_if_any_spec.
  destruct (g_added _), (g_improved _), (g_fixed _), (g_other _); reflexivity.
Qed.

(** *** The shape of what [vcParseChangelog] returns *)

Lemma bucket_partition (its : list string) :
  List.filter (fun it => ChangeType_eqb (bucket_of it) added) its
  ++ List.filter (fun it => ChangeType_eqb (bucket_of it) improved) its
  ++ List.filter (fun it => ChangeType_eqb (bucket_of it) fixed) its
  ++ List.filter (fun it => ChangeType_eqb (bucket_of it) progress) its
  ≡ₚ its.
Proof.
  induction its as [|it its IH]; simpl; [done|].
  destruct (bucket_of it); simpl.
  - by constructor.
  - rewrite <- Permutation_middle. by constructor.
  - rewrite !(app_assoc _ _ (_ :: _)). rewrite <- Permutation_middle.
    rewrite <- !app_assoc. by constructor.
  - rewrite !app_assoc. rewrite <- Permutation_middle.
    rewrite <- !app_assoc. by constructor.
Qed.

Lemma flat_map_app_perm {A B} (f g : A -> list B) (l : list A) :
  flat_map f l ++ flat_map g l ≡ₚ flat_map (fun x => f x ++ g x) l.
Proof.
  induction l as [|x l IH]; simpl; [done|].
  rewrite <- IH, <- !app_assoc. apply Permutation_app_head.
  rewrite !app_assoc. apply Permutation_app_tail, Permutation_app_comm.
Qed.

(** The bullets of the blocks [vs], tagged, in the four buckets. *)
Lemma buckets_partition (vs : list VersionBlock) :
  let b ty :=
    flat_map (fun v => map (fun it => tagged it (version v))
                           (List.filter
                              (fun it => ChangeType_eqb (bucket_of it) ty)
                              (items v))) vs in
  b added ++ b improved ++ b fixed ++ b progress
  ≡ₚ flat_map (fun v => map (fun it => tagged it (version v)) (items v)) vs.
Proof.
  intros b. unfold b.
  rewrite (flat_map_app_perm _ _ vs) at 1.
  rewrite (flat_map_app_perm _ _ vs) at 1.
  rewrite (flat_map_app_perm _ _ vs) at 1.
  induction vs as [|v vs IH]; simpl; [done|].
  apply Permutation_app; [|exact IH].
  rewrite <- !map_app. apply Permutation_map, bucket_partition.
Qed.

(** X2. The entries of vcParseChangelog come in the order added, improved,
    fixed, other, each type at most once; none is empty and each carries the
    title of its bucket; together their items are the bullets of the
    relevant version blocks, each tagged with its version: no bullet is
    lost and none is counted twice. *)
Theorem vcParseChangelog_sections other md from to :
  let result := vcParseChangelog other md from to in
  let relevant :=
    List.filter (fun v => vcIsNewer other (version v) from
                          && negb (vcIsNewer other (version v) to))
                (parse_versions md) in
  map type result `sublist_of` [added; improved; fixed; progress]
  /\ Forall (fun e => entry_items e <> []
                      /\ title e = bucket_title (type e)) result
  /\ flat_map entry_items result
     ≡ₚ flat_map (fun v => map (fun it => tagged it (version v)) (items v))
                 relevant.
Proof.
  intros result relevant.
  pose proof (buckets_partition relevant) as Hp. cbv zeta in Hp.
  unfold result. rewrite vcParseChangelog_buckets. fold relevant.
  revert Hp. simpl.
  set (ba := flat_map _ relevant). set (bi := flat_map _ relevant).
  set (bf := flat_map _ relevant). set (bp := flat_map _ relevant).
  intros Hp. rewrite <- Hp. clearbody ba bi bf bp.
  destruct ba, bi, bf, bp; simpl.
  all: split; [by repeat first [apply sublist_nil_l | apply sublist_skip
                                | apply sublist_cons]|].
  all: split; [by repeat constructor|].
  all: by rewrite ?app_nil_r.
Qed.

(** *** [vcIsNewer] as an order *)

Lemma Qlt_bool_iff p q : Qlt_bool p q = true <-> (p < q)%Q.
Proof.
  unfold Qlt_bool. rewrite negb_true_iff, <- not_true_iff_false, Qle_bool_iff.
  split; [apply Qnot_le_lt | apply Qlt_not_le].
Qed.

Lemma Qlt_bool_false p q : Qlt_bool p q = false <-> (q <= p)%Q.
Proof.
  unfold Qlt_bool. rewrite negb_false_iff. apply Qle_bool_iff.
Qed.

Lemma num_lt_irrefl x : num_lt x x = false.
Proof.
  destruct x as [|[]|q]; simpl; try done.
  apply Qlt_bool_false, Qle_refl.
Qed.

Lemma num_lt_trans x y z :
  num_lt x y = true -> num_lt y z = true -> num_lt x z = true.
Proof.
  destruct x as [|[]|p], y as [|[]|q], z as [|[]|r]; simpl; try done.
  rewrite !Qlt_bool_iff. apply Qlt_trans.
Qed.

(** [x < y <= z] *)
Lemma num_lt_le_trans x y z :
  y <> JNaN -> z <> JNaN ->
  num_lt x y = true -> num_lt z y = false -> num_lt x z = true.
Proof.
  destruct x as [|[]|p], y as [|[]|q], z as [|[]|r]; simpl; try done.
  rewrite !Qlt_bool_iff, Qlt_bool_false. intros _ _. apply Qlt_le_trans.
Qed.

(** [x <= y < z] *)
Lemma num_le_lt_trans x y z :
  x <> JNaN -> y <> JNaN ->
  num_lt y x = false -> num_lt y z = true -> num_lt x z = true.
Proof.
  destruct x as [|[]|p], y as [|[]|q], z as [|[]|r]; simpl; try done.
  rewrite !Qlt_bool_iff, Qlt_bool_false. intros _ _. apply Qle_lt_trans.
Qed.

(** [x <= y <= z] *)
Lemma num_le_trans x y z :
  x <> JNaN -> y <> JNaN -> z <> JNaN ->
  num_lt y x = false -> num_lt z y = false -> num_lt z x = false.
Proof.
  destruct x as [|[]|p], y as [|[]|q], z as [|[]|r]; simpl; try done.
  rewrite !Qlt_bool_false. intros _ _ _ H1 H2. by apply Qle_trans with q.
Qed.

(** Two numbers are comparable unless one of them is NaN. *)
Lemma num_lt_total x y :
  x <> JNaN -> y <> JNaN ->
  num_lt x y = false -> num_lt y x = false -> num_eqv x y = true.
Proof. unfold num_eqv. by intros _ _ -> ->. Qed.

Lemma component_not_nan a i : component a i <> JNaN.
Proof.
  unfold component, or_zero.
  destruct (a !! i) as [[|n|q]|]; simpl; try done.
  by destruct (negb (Qeq_bool q 0)).
Qed.

Lemma component_past_end a i :
  (length a <= i)%nat -> component a i = JInt 0.
Proof.
  intros H. unfold component. by rewrite (lookup_ge_None_2 a i H).
Qed.

Lemma vcIsNewer_loop_spec a b fuel : forall i,
  vcIsNewer_loop a b i fuel = true <->
  exists k, (i <= k < i + fuel)%nat
    /\ (forall j, (i <= j < k)%nat ->
          num_eqv (component a j) (component b j) = true)
    /\ num_lt (component b k) (component a k) = true.
Proof.
  induction fuel as [|fuel IH]; intros i; simpl.
  - split; [done | intros (k & Hk & _); lia].
  - fold (component a i) (component b i). unfold num_gt.
    destruct (num_lt (component b i) (component a i)) eqn:Hgt.
    { split; [intros _ | done]. exists i. repeat split; [lia..| |done].
      intros j Hj. lia. }
    destruct (num_lt (component a i) (component b i)) eqn:Hlt.
    { split; [done|]. intros (k & Hk & Heq & Hk').
      destruct (decide (k = i)) as [->|Hne]; [congruence|].
      specialize (Heq i ltac:(lia)). unfold num_eqv in Heq.
      rewrite Hlt in Heq. done. }
    rewrite IH. split; intros (k & Hk & Heq & Hk').
    + exists k. repeat split; [lia..| |done].
      intros j Hj. destruct (decide (j = i)) as [->|Hne].
      * unfold num_eqv. by rewrite Hlt, Hgt.
      * apply Heq. lia.
    + destruct (decide (k = i)) as [->|Hne]; [congruence|].
      exists k. repeat split; [lia..| |done].
      intros j Hj. apply Heq. lia.
Qed.

(** The loop runs over all the indices that matter: past the end of both
    arrays every component is 0. *)
Lemma vcIsNewer_loop_full a b :
  vcIsNewer_loop a b 0 (Nat.max (length a) (length b)) = true <->
  exists k, (forall j, (j < k)%nat ->
               num_eqv (component a j) (component b j) = true)
            /\ num_lt (component b k) (component a k) = true.
Proof.
  rewrite vcIsNewer_loop_spec. split.
  - intros (k & Hk & Heq & Hk'). exists k. split; [|done].
    intros j Hj. apply Heq. lia.
  - intros (k & Heq & Hk). exists k. repeat split; [lia| | |done].
    + destruct (decide (k < Nat.max (length a) (length b))%nat) as [|Hge];
        [lia|].
      rewrite !component_past_end in Hk by lia.
      by rewrite num_lt_irrefl in Hk.
    + intros j Hj. apply Heq. lia.
Qed.

Lemma num_eqv_lt x y :
  num_eqv x y = true -> num_lt x y = false /\ num_lt y x = false.
Proof.
  unfold num_eqv. rewrite andb_true_iff, !negb_true_iff. tauto.
Qed.

Lemma num_eqv_sym x y : num_eqv x y = num_eqv y x.
Proof. unfold num_eqv. apply andb_comm. Qed.

Lemma num_eqv_trans x y z :
  x <> JNaN -> y <> JNaN -> z <> JNaN ->
  num_eqv x y = true -> num_eqv y z = true -> num_eqv x z = true.
Proof.
  unfold num_eqv. rewrite !andb_true_iff, !negb_true_iff.
  intros Hx Hy Hz [H1 H2] [H3 H4]. split.
  - by apply (num_le_trans z y x).
  - by apply (num_le_trans x y z).
Qed.

Lemma loop_asymmetric a b :
  vcIsNewer_loop a b 0 (Nat.max (length a) (length b)) = true ->
  vcIsNewer_loop b a 0 (Nat.max (length b) (length a)) = false.
Proof.
  rewrite <- not_true_iff_false, !vcIsNewer_loop_full.
  intros (k & Heq & Hk) (k' & Heq' & Hk').
  destruct (lt_eq_lt_dec k k') as [[Hlt| ->]|Hlt].
  - destruct (num_eqv_lt _ _ (Heq' k Hlt)). congruence.
  - pose proof (num_lt_trans _ _ _ Hk Hk') as H.
    by rewrite num_lt_irrefl in H.
  - destruct (num_eqv_lt _ _ (Heq k' Hlt)). congruence.
Qed.

Lemma loop_transitive a b c :
  vcIsNewer_loop a b 0 (Nat.max (length a) (length b)) = true ->
  vcIsNewer_loop b c 0 (Nat.max (length b) (length c)) = true ->
  vcIsNewer_loop a c 0 (Nat.max (length a) (length c)) = true.
Proof.
  rewrite !vcIsNewer_loop_full.
  intros (k & Heq & Hk) (k' & Heq' & Hk').
  pose proof (component_not_nan a) as Na.
  pose proof (component_not_nan b) as Nb.
  pose proof (component_not_nan c) as Nc.
  assert (Hpre : forall j, (j < Nat.min k k')%nat ->
            num_eqv (component a j) (component c j) = true).
  { intros j Hj. apply (num_eqv_trans _ (component b j)); auto.
    - apply Heq. lia.
    - apply Heq'. lia. }
  destruct (lt_eq_lt_dec k k') as [[Hlt| ->]|Hlt].
  - exists k. split; [intros j Hj; apply Hpre; lia|].
    destruct (num_eqv_lt _ _ (Heq' k Hlt)) as [H1 H2].
    by apply (num_le_lt_trans _ (component b k)).
  - exists k'. split; [intros j Hj; apply Hpre; lia|].
    by apply (num_lt_trans _ (component b k')).
  - exists k'. split; [intros j Hj; apply Hpre; lia|].
    destruct (num_eqv_lt _ _ (Heq k' Hlt)) as [H1 H2].
    by apply (num_lt_le_trans _ (component b k')).
Qed.

(** Not newer: older, or the same in every component. *)
Lemma loop_not_newer a b :
  vcIsNewer_loop a b 0 (Nat.max (length a) (length b)) = false ->
  vcIsNewer_loop b a 0 (Nat.max (length b) (length a)) = true
  \/ forall j, num_eqv (component a j) (component b j) = true.
Proof.
  intros Hn.
  destruct (vcIsNewer_loop b a 0 (Nat.max (length b) (length a))) eqn:Hb;
    [by left | right].
  assert (Ha : ~ exists k, (forall j, (j < k)%nat ->
               num_eqv (component a j) (component b j) = true)
            /\ num_lt (component b k) (component a k) = true).
  { rewrite <- vcIsNewer_loop_full. by rewrite Hn. }
  assert (Hb' : ~ exists k, (forall j, (j < k)%nat ->
               num_eqv (component b j) (component a j) = true)
            /\ num_lt (component a k) (component b k) = true).
  { rewrite <- vcIsNewer_loop_full. by rewrite Hb. }
  intros j. induction j as [j IH] using lt_wf_ind.
  unfold num_eqv.
  destruct (num_lt (component a j) (component b j)) eqn:H1.
  { destruct Hb'. exists j. split; [|done].
    intros i Hi. rewrite num_eqv_sym. by apply IH. }
  destruct (num_lt (component b j) (component a j)) eqn:H2; [|done].
  destruct Ha. exists j. split; [|done]. intros i Hi. by apply IH.
Qed.

(** A version that is the same in every component can take the other's
    place on the right of the comparison. *)
Lemma loop_eqv_right a b c :
  (forall j, num_eqv (component b j) (component c j) = true) ->
  vcIsNewer_loop a b 0 (Nat.max (length a) (length b)) = true ->
  vcIsNewer_loop a c 0 (Nat.max (length a) (length c)) = true.
Proof.
  intros Hbc. rewrite !vcIsNewer_loop_full.
  pose proof (component_not_nan a) as Na.
  pose proof (component_not_nan b) as Nb.
  pose proof (component_not_nan c) as Nc.
  intros (k & Heq & Hk). exists k. split.
  - intros j Hj. apply (num_eqv_trans _ (component b j)); auto.
  - destruct (num_eqv_lt _ _ (Hbc k)) as [H1 H2].
    by apply (num_le_lt_trans _ (component b k)).
Qed.

(** X3. vcIsNewer is a strict order on version texts: no version is newer
    than itself, two versions are never each newer than the other, and
    newer-than is transitive. *)
Theorem vcIsNewer_strict_order other a b c :
  vcIsNewer other a a = false
  /\ (vcIsNewer other a b = true -> vcIsNewer other b a = false)
  /\ (vcIsNewer other a b = true -> vcIsNewer other b c = true ->
      vcIsNewer other a c = true).
Proof.
  unfold vcIsNewer. split; [|split].
  - apply not_true_iff_false. intros H.
    pose proof (loop_asymmetric _ _ H) as H'. congruence.
  - apply loop_asymmetric.
  - apply loop_transitive.
Qed.

Lemma vcIsNewer_strict_order_witness :
  vcIsNewer (fun _ => JNaN) "1.10.0" "1.9.3" = true
  /\ vcIsNewer (fun _ => JNaN) "1.9.3" "1.9" = true
  /\ vcIsNewer (fun _ => JNaN) "1.10.0" "1.9" = true.
Proof.
  assert (H1 : vcIsNewer (fun _ => JNaN) "1.10.0" "1.9.3" = true) by reflexivity.
  assert (H2 : vcIsNewer (fun _ => JNaN) "1.9.3" "1.9" = true) by reflexivity.
  split; [exact H1|]. split; [exact H2|].
  exact (proj2 (proj2 (vcIsNewer_strict_order (fun _ => JNaN)
                         "1.10.0" "1.9.3" "1.9")) H1 H2).
Defined.

(** X4. When [to] is not newer than [from] no version lies in the window,
    and vcParseChangelog returns no entry. *)
Theorem vcParseChangelog_no_window other md from to :
  vcIsNewer other to from = false ->
  vcParseChangelog other md from to = [].
Proof.
  intros Hn.
  assert (Hrel : forall v, vcIsNewer other v from
                           && negb (vcIsNewer other v to) = false).
  { intros v. destruct (vcIsNewer other v from) eqn:Hvf; [|done].
    simpl. apply negb_false_iff. revert Hn Hvf. unfold vcIsNewer.
    intros Hn Hvf. destruct (loop_not_newer _ _ Hn) as [Hft|Heq].
    - by apply (loop_transitive _ _ _ Hvf).
    - apply (loop_eqv_right _ _ _ (fun j => eq_trans (num_eqv_sym _ _) (Heq j)) Hvf). }
  unfold vcParseChangelog.
  assert (Hf : List.filter
            (fun v => vcIsNewer other (version v) from
                      && negb (vcIsNewer other (version v) to))
            (parse_versions md) = []).
  { induction (parse_versions md) as [|v vs IH]; simpl; [done|].
    by rewrite Hrel. }
  by rewrite Hf.
Qed.

Lemma vcParseChangelog_no_window_witness :
  vcIsNewer (fun _ => JNaN) "1.0.0" "1.1.0" = false
  /\ vcParseChangelog (fun _ => JNaN) sample_markdown "1.1.0" "1.0.0" = [].
Proof.
  split; [reflexivity|].
  apply (vcParseChangelog_no_window (fun _ => JNaN) sample_markdown
           "1.1.0" "1.0.0").
  reflexivity.
Defined.

(** *** [Utils.semverCompare] *)

Lemma or_zero_nullish_lookup xs i :
  or_zero_nullish (map JInt xs !! i) = JInt (component_at xs i).
Proof.
  unfold component_at, or_zero_nullish. change (map JInt xs) with (JInt <$> xs).
  rewrite list_lookup_fmap. by destruct (xs !! i).
Qed.

Lemma semverCompare_loop_lex xs ys fuel : forall i,
  let cs := map (component_at xs) (seq i fuel) in
  let ns := map (component_at ys) (seq i fuel) in
  (semverCompare_loop (map JInt xs) (map JInt ys) i fuel = 1%Z
     <-> lex_gt cs ns = true)
  /\ (semverCompare_loop (map JInt xs) (map JInt ys) i fuel = (-1)%Z
     <-> lex_gt ns cs = true).
Proof.
  induction fuel as [|fuel IH]; intros i; simpl; [by split|].
  rewrite !or_zero_nullish_lookup. unfold num_gt. rewrite !num_lt_JInt.
  destruct (Z.ltb_spec (component_at xs i) (component_at ys i)) as [Hlt|Hge].
  { rewrite (proj2 (Z.ltb_ge _ _)) by lia. by split. }
  destruct (Z.ltb_spec (component_at ys i) (component_at xs i)) as [Hgt|Hle].
  { by split. }
  apply IH.
Qed.

(** X5. On versions whose components are digit sequences that denote
    integers below 2^53 (the range in which [Number] reads them exactly),
    semverCompare compares the first three components as numbers, a missing
    one counting as 0, and nothing after them: it returns 1 exactly when
    the first three components of [c] come after those of [n], -1 exactly
    when those of [n] come after those of [c]. *)
Theorem semverCompare_first_three other c n :
  exact_version c = true -> exact_version n = true ->
  (semverCompare other c n = 1%Z
     <-> lex_gt (first_three (components c)) (first_three (components n)) = true)
  /\ (semverCompare other c n = (-1)%Z
     <-> lex_gt (first_three (components n)) (first_three (components c)) = true).
Proof.
  intros Hc Hn. unfold semverCompare.
  rewrite (Number_exact_version other c Hc), (Number_exact_version other n Hn).
  apply (semverCompare_loop_lex (components c) (components n) 3 0).
Qed.

Lemma semverCompare_first_three_witness :
  exact_version "1.2.3.4" = true /\ exact_version "1.2.3.5" = true
  /\ (semverCompare (fun _ => JNaN) "1.2.3.4" "1.2.3.5" = (-1)%Z
      <-> lex_gt (first_three (components "1.2.3.5"))
                 (first_three (components "1.2.3.4")) = true).
Proof.
  split; [reflexivity|]. split; [reflexivity|].
  apply (semverCompare_first_three (fun _ => JNaN) "1.2.3.4" "1.2.3.5");
    reflexivity.
Defined.

Lemma vcIsNewer_loop_fuel a b fuel :
  (Nat.max (length a) (length b) <= fuel)%nat ->
  vcIsNewer_loop a b 0 fuel
  = vcIsNewer_loop a b 0 (Nat.max (length a) (length b)).
Proof.
  intros Hf. apply eq_true_iff_eq.
  rewrite vcIsNewer_loop_full, vcIsNewer_loop_spec. split.
  - intros (k & Hk & Heq & Hk'). exists k. split; [|done].
    intros j Hj. apply Heq. lia.
  - intros (k & Heq & Hk). exists k. repeat split; [lia| | |done].
    + destruct (decide (k < Nat.max (length a) (length b))%nat) as [|Hge];
        [lia|].
      rewrite !component_past_end in Hk by lia.
      by rewrite num_lt_irrefl in Hk.
    + intros j Hj. apply Heq. lia.
Qed.

(** X6. On versions of at most three components, each a digit sequence
    that denotes an integer below 2^53, semverCompare and vcIsNewer agree:
    1 exactly when [c] is newer than [n], -1 exactly when [n] is newer than
    [c]. *)
Theorem semverCompare_vcIsNewer other c n :
  exact_version c = true -> exact_version n = true ->
  (length (split_on "." c) <= 3)%nat -> (length (split_on "." n) <= 3)%nat ->
  (semverCompare other c n = 1%Z <-> vcIsNewer other c n = true)
  /\ (semverCompare other c n = (-1)%Z <-> vcIsNewer other n c = true).
Proof.
  intros Hc Hn Lc Ln.
  destruct (semverCompare_loop_lex (components c) (components n) 3 0) as [H1 H2].
  unfold semverCompare, vcIsNewer.
  rewrite (Number_exact_version other c Hc), (Number_exact_version other n Hn).
  cbv zeta in H1, H2. rewrite H1, H2.
  rewrite <- !vcIsNewer_loop_lex.
  rewrite (vcIsNewer_loop_fuel (map JInt (components c)) (map JInt (components n)) 3),
          (vcIsNewer_loop_fuel (map JInt (components n)) (map JInt (components c)) 3).
  - done.
  - rewrite !length_map. unfold components. rewrite !length_map. lia.
  - rewrite !length_map. unfold components. rewrite !length_map. lia.
Qed.

Lemma semverCompare_vcIsNewer_witness :
  exact_version "1.10.0" = true /\ exact_version "1.9" = true
  /\ (semverCompare (fun _ => JNaN) "1.10.0" "1.9" = 1%Z
      <-> vcIsNewer (fun _ => JNaN) "1.10.0" "1.9" = true).
Proof.
  split; [reflexivity|]. split; [reflexivity|].
  apply (semverCompare_vcIsNewer (fun _ => JNaN) "1.10.0" "1.9");
    first [reflexivity | vm_compute; lia].
Defined.

End VersionsFacts.

(** ** The plugin life cycle *)
Module LifecycleFacts.
Import JS Compat Lifecycle CompatFacts.
Local Open Scope js_scope.

Lemma started_set_started b o : started (set_started b o) = b.
Proof. by destruct b. Qed.

(** A record whose [started] is falsy is not started; one whose [started]
    is [true] is truthy. *)
Lemma falsy_not_started o :
  truthy (started_value o) = false -> started o = false.
Proof. unfold started. by destruct (started_value o) as [| |[]| | |]. Qed.

Lemma started_truthy o : started o = true -> truthy (started_value o) = true.
Proof. unfold started. by destruct (started_value o) as [| |[]| | |]. Qed.

(** What [stopPlugin] does to an allocated record. *)
Lemma stopPlugin_eval r x w :
  deref w r = Some x ->
  stopPlugin (Some r) w
  = (Ok tt,
     let w1 := set_events (events w ++ [EvStopPlugin (Some r)]) w in
     if truthy (started_value x) then
       let w2 := match instance x with
                 | Some _ => set_pluginsStatus
                               (<[name x := false]> (pluginsStatus w1)) w1
                 | None => w1
                 end in
       if stop_returns x
       then set_heap (alter (set_started false) r (heap w2)) w2
       else w2
     else w1).
Proof.
  intros Hx. unfold stopPlugin, bind at 1, emit, modify.
  unfold bind at 1, get_world. simpl. unfold deref in *. simpl. rewrite Hx.
  destruct (truthy (started_value x)); [|reflexivity].
  unfold stop_returns, stopFunction, bind, try_catch, modify, lift, ret, update, modify.
  destruct (instance x) as [i|]; simpl; [|reflexivity].
  destruct (instance_stop i); reflexivity.
Qed.

Lemma startPlugin_eval r x w :
  deref w r = Some x ->
  startPlugin (Some r) w
  = (Ok tt,
     let w1 := set_events (events w ++ [EvStartPlugin (Some r)]) w in
     if truthy (started_value x) then w1
     else
       let w2 := match instance x with
                 | Some _ => set_pluginsStatus
                               (<[name x := true]> (pluginsStatus w1)) w1
                 | None => w1
                 end in
       if start_returns x
       then set_heap (alter (set_started true) r (heap w2)) w2
       else w2).
Proof.
  intros Hx. unfold startPlugin, bind at 1, emit, modify.
  unfold bind at 1, get_world. simpl. unfold deref in *. simpl. rewrite Hx.
  destruct (truthy (started_value x)); [reflexivity|].
  unfold start_returns, startFunction, bind, try_catch, modify, lift, ret, update, modify.
  destruct (instance x) as [i|]; simpl; [|reflexivity].
  destruct (instance_start i); reflexivity.
Qed.

Lemma stopPlugin_none w :
  stopPlugin None w
  = (Throw type_error, set_events (events w ++ [EvStopPlugin None]) w).
Proof. reflexivity. Qed.

Lemma stopPlugin_dangling r w :
  deref w r = None ->
  stopPlugin (Some r) w
  = (Throw type_error, set_events (events w ++ [EvStopPlugin (Some r)]) w).
Proof.
  intros Hx. unfold stopPlugin, bind at 1, emit, modify.
  unfold bind at 1, get_world. simpl. unfold deref in *. simpl. by rewrite Hx.
Qed.

(** X24. A name that [get] finds is a name that enable, disable, toggle and
    reload resolve: the record [get] returns is in [getAll] and carries the
    name as its name or its original name, and resolvePluginByAny finds a
    record that carries it as name, original name, id or file name. *)
Theorem get_then_resolve w n r :
  get w n = Some r ->
  r ∈ getAll w
  /\ (exists x, deref w r = Some x
                /\ (name x = n \/ originalName x = Some n))
  /\ (exists p x, resolvePluginByAny w n = Some p
                  /\ deref w p = Some x
                  /\ (name x = n \/ originalName x = Some n
                      \/ plugin_id x = n \/ filename x = n)).
Proof.
  intros Hget.
  assert (Hr : r ∈ getAll w
               /\ exists x, deref w r = Some x
                            /\ (name x = n \/ originalName x = Some n)).
  { unfold get in Hget.
    destruct (List.find _ (getAll w)) as [r1|] eqn:E1.
    - injection Hget as <-. apply List.find_some in E1 as [Hin Hp].
      split; [by apply list_elem_of_In|].
      destruct (deref w r1) as [x|]; [|discriminate].
      exists x. split; [reflexivity|]. left. by apply String.eqb_eq.
    - apply List.find_some in Hget as [Hin Hp].
      split; [by apply list_elem_of_In|].
      destruct (deref w r) as [x|]; [|discriminate].
      exists x. split; [reflexivity|]. right. cbn in Hp.
      destruct (originalName x) as [o|]; [|discriminate].
      apply String.eqb_eq in Hp. by subst. }
  destruct Hr as (Hin & x & Hx & Hname). split; [exact Hin|].
  split; [by exists x|].
  assert (Hm : matches_any w n r = true).
  { unfold matches_any. rewrite Hx. destruct Hname as [<- | ->].
    - by rewrite String.eqb_refl.
    - rewrite String.eqb_refl. by rewrite orb_true_r. }
  unfold resolvePluginByAny. fold (getAll w).
  destruct (List.find (matches_any w n) (getAll w)) as [p|] eqn:E.
  - apply List.find_some in E as [_ Hp]. unfold matches_any in Hp.
    destruct (deref w p) as [y|] eqn:Hy; [|discriminate].
    exists p, y. split; [reflexivity|]. split; [exact Hy|].
    apply orb_true_iff in Hp as [Hp|Hp]; [|right; right; right; by apply String.eqb_eq].
    apply orb_true_iff in Hp as [Hp|Hp]; [|right; right; left; by apply String.eqb_eq].
    apply orb_true_iff in Hp as [Hp|Hp]; [left; by apply String.eqb_eq|].
    right. left. destruct (originalName y) as [o|]; [|discriminate].
    apply String.eqb_eq in Hp. by subst.
  - exfalso. apply list_elem_of_In in Hin.
    pose proof (List.find_none _ _ E r Hin) as Hf. congruence.
Qed.

(** X7. disable does nothing for a name that resolves to no plugin.  For a
    plugin it returns, whatever the plugin's [stop] does, after it has
    switched the plugin's setting and its remembered status off and asked
    the host to stop the registered record, to remove its patches and its
    style; the registry and the two lists are unchanged, and the registered
    record is left started only if it was started and its [stop] threw. *)
Theorem disable_spec idOrFile w :
  match resolvePluginByAny w idOrFile with
  | None => disable idOrFile w = (Ok tt, w)
  | Some p =>
      forall o, deref w p = Some o ->
      let run := disable idOrFile w in
      fst run = Ok tt
      /\ settings_enabled (snd run) = <[name o := false]> (settings_enabled w)
      /\ pluginsStatus (snd run) !! name o = Some false
      /\ plugins (snd run) = plugins w
      /\ GeneratedPlugins (snd run) = GeneratedPlugins w
      /\ queuedPlugins (snd run) = queuedPlugins w
      /\ events (snd run)
         = events w ++ [EvStopPlugin (plugins w !! name o);
                        EvUnpatchAll (name o); EvRemoveStyle (name o)]
      /\ (forall r x, plugins w !! name o = Some r -> deref w r = Some x ->
            (started <$> deref (snd run) r)
            = Some (started x && negb (stop_returns x)))
  end.
Proof.
  destruct (resolvePluginByAny w idOrFile) as [p|] eqn:Hres.
  2: { unfold disable, bind, get_world. by rewrite Hres. }
  intros o Ho.
  set (w1 := set_pluginsStatus (<[name o := false]> (pluginsStatus w))
               (set_settings_enabled (<[name o := false]> (settings_enabled w)) w)).
  assert (Hrun : disable idOrFile w = safeStopPlugin (name o) w1).
  { unfold disable, bind at 1, get_world. rewrite Hres.
    unfold bind at 1, read. by rewrite Ho. }
  cbv zeta. rewrite Hrun. clear Hrun.
  assert (Hstop : safeStopPlugin (name o) w1
    = let '(_, w') := stopPlugin (plugins w !! name o) w1 in
      (Ok tt, set_events (events w' ++ [EvUnpatchAll (name o);
                                        EvRemoveStyle (name o)]) w')).
  { unfold safeStopPlugin, bind, try_catch, get_world, emit, modify, ret.
    change (plugins w1) with (plugins w).
    destruct (stopPlugin (plugins w !! name o) w1) as [[[]|e] w']; simpl;
      by rewrite <- app_assoc. }
  rewrite Hstop. clear Hstop.
  destruct (plugins w !! name o) as [r|] eqn:Hr.
  - destruct (deref w r) as [x|] eqn:Hx.
    + rewrite (stopPlugin_eval r x w1 Hx). cbv zeta.
      assert (Hst : forall k : string,
                (<[k := false]> (<[name o := false]> (pluginsStatus w)))
                  !! name o = Some false).
      { intros k. destruct (decide (k = name o)) as [->|Hne];
          [by rewrite lookup_insert_eq
          | by rewrite lookup_insert_ne, lookup_insert_eq]. }
      unfold deref in Hx.
      destruct (truthy (started_value x)) eqn:Hs;
        [destruct (instance x) eqn:Hi; destruct (stop_returns x) eqn:Hsr|];
        simpl; rewrite <- ?app_assoc, ?Hst, ?lookup_insert_eq;
        (split; [done|]); (split; [done|]); (split; [done|]);
        (split; [done|]); (split; [done|]); (split; [done|]);
        (split; [done|]);
        intros r' x' [= <-] Hx'; unfold deref in *; simpl;
        rewrite ?lookup_alter_eq, Hx; simpl; rewrite Hx in Hx';
        injection Hx' as <-;
        rewrite ?Hsr, ?started_set_started, ?andb_true_r, ?andb_false_r;
        try done; by rewrite (falsy_not_started _ Hs).
    + rewrite (stopPlugin_dangling r w1 Hx). simpl.
      repeat split; try done.
      * by rewrite lookup_insert_eq.
      * by rewrite <- !app_assoc.
      * intros r' x' [= <-] Hx'. congruence.
  - rewrite stopPlugin_none. simpl.
    repeat split; try done.
    + by rewrite lookup_insert_eq.
    + by rewrite <- !app_assoc.
Qed.

(** What [removePlugin] does to an allocated record. *)
Lemma removePlugin_eval r g w :
  deref w r = Some g ->
  exists w',
    removePlugin r w = (Ok tt, w')
    /\ GeneratedPlugins w' = GeneratedPlugins w
    /\ queuedPlugins w' = queuedPlugins w
    /\ heap w' = <[r := after_stop g]> (heap w)
    /\ plugins w' = delete (name g) (plugins w)
    /\ settings_enabled w' = <[name g := false]> (settings_enabled w)
    /\ (forall n, pluginsStatus w !! n = Some true ->
                  pluginsStatus w' !! n = Some true).
Proof.
  intros Hg. unfold removePlugin, bind at 1, read. rewrite Hg.
  unfold bind at 1, set_enabled, modify.
  set (w1 := set_settings_enabled _ w).
  assert (Hg1 : deref w1 r = Some g) by exact Hg.
  unfold after_stop, bind at 1. unfold deref in Hg.
  destruct (started g) eqn:Hs; simpl.
  - unfold bind at 1, get_world. unfold bind at 1.
    rewrite (stopPlugin_eval r g w1 Hg1). cbv zeta. rewrite (started_truthy _ Hs).
    change (pluginsStatus w1) with (pluginsStatus w).
    destruct (instance g) as [inst|] eqn:Hi.
    + destruct (bool_decide (pluginsStatus w !! name g = Some true)) eqn:Hb.
      * apply bool_decide_eq_true in Hb.
        destruct (stop_returns g); simpl; eexists; (split; [reflexivity|]);
          simpl; (repeat split; try done).
        -- apply map_eq. intros k. destruct (decide (k = r)) as [->|Hne].
           ++ by rewrite lookup_alter_eq, lookup_insert_eq, Hg.
           ++ by rewrite lookup_alter_ne, lookup_insert_ne.
        -- intros n Hn. destruct (decide (n = name g)) as [->|Hne].
           ++ by rewrite lookup_insert_eq.
           ++ by rewrite !lookup_insert_ne.
        -- by rewrite insert_id.
        -- intros n Hn. destruct (decide (n = name g)) as [->|Hne].
           ++ by rewrite lookup_insert_eq.
           ++ by rewrite !lookup_insert_ne.
      * apply bool_decide_eq_false in Hb.
        destruct (stop_returns g); simpl; eexists; (split; [reflexivity|]);
          simpl; (repeat split; try done).
        -- apply map_eq. intros k. destruct (decide (k = r)) as [->|Hne].
           ++ by rewrite lookup_alter_eq, lookup_insert_eq, Hg.
           ++ by rewrite lookup_alter_ne, lookup_insert_ne.
        -- intros n Hn. destruct (decide (n = name g)) as [->|Hne];
             [done | by rewrite lookup_insert_ne].
        -- by rewrite insert_id.
        -- intros n Hn. destruct (decide (n = name g)) as [->|Hne];
             [done | by rewrite lookup_insert_ne].
    + assert (Hsr : stop_returns g = true) by (unfold stop_returns; by rewrite Hi).
      rewrite Hsr.
      destruct (bool_decide (pluginsStatus w !! name g = Some true)) eqn:Hb;
        simpl; eexists; (split; [reflexivity|]);
        simpl; (repeat split; try done).
      * apply map_eq. intros k. destruct (decide (k = r)) as [->|Hne].
        -- by rewrite lookup_alter_eq, lookup_insert_eq, Hg.
        -- by rewrite lookup_alter_ne, lookup_insert_ne.
      * intros n Hn. destruct (decide (n = name g)) as [->|Hne].
        -- by rewrite lookup_insert_eq.
        -- by rewrite !lookup_insert_ne.
      * apply map_eq. intros k. destruct (decide (k = r)) as [->|Hne].
        -- by rewrite lookup_alter_eq, lookup_insert_eq, Hg.
        -- by rewrite lookup_alter_ne, lookup_insert_ne.
  - unfold ret. eexists. split; [reflexivity|]. simpl.
    repeat split; try done. by rewrite insert_id.
Qed.

Lemma after_stop_idem g : after_stop (after_stop g) = after_stop g.
Proof.
  unfold after_stop. destruct (started g && stop_returns g) eqn:H; simpl.
  - reflexivity.
  - by rewrite H.
Qed.

Lemma after_stop_name g : name (after_stop g) = name g.
Proof. unfold after_stop. by destruct (started g && stop_returns g). Qed.

Lemma names_of_cons w r l g :
  deref w r = Some g -> names_of w (r :: l) = name g :: names_of w l.
Proof. intros H. unfold names_of. simpl. by rewrite H. Qed.

Lemma names_of_ext w w' l :
  (forall r, name <$> deref w' r = name <$> deref w r) ->
  names_of w' l = names_of w l.
Proof.
  intros H. induction l as [|r l IH]; [done|].
  unfold names_of in *.
  change (omap ?f (r :: l))
    with (match f r with Some y => y :: omap f l | None => omap f l end).
  cbv beta. by rewrite H, IH.
Qed.

Lemma elem_of_names_of w l n :
  n ∈ names_of w l <->
  exists r g, r ∈ l /\ deref w r = Some g /\ name g = n.
Proof.
  unfold names_of. rewrite list_elem_of_omap. split.
  - intros (r & Hr & Hn). destruct (deref w r) as [g|] eqn:Hg; [|done].
    injection Hn as <-. by exists r, g.
  - intros (r & g & Hr & Hg & <-). exists r. by rewrite Hg.
Qed.

Lemma removeAll_loop_spec fuel : forall i w,
  Forall (fun r => is_Some (deref w r)) (GeneratedPlugins w) ->
  let L := take fuel (drop i (GeneratedPlugins w)) in
  exists w',
    removeAll_loop i fuel w = (Ok tt, w')
    /\ GeneratedPlugins w' = GeneratedPlugins w
    /\ queuedPlugins w' = queuedPlugins w
    /\ (forall r, deref w' r
                  = (if bool_decide (r ∈ L) then after_stop else id)
                      <$> deref w r)
    /\ (forall n, plugins w' !! n
                  = if bool_decide (n ∈ names_of w L) then None
                    else plugins w !! n)
    /\ (forall n, settings_enabled w' !! n
                  = if bool_decide (n ∈ names_of w L) then Some false
                    else settings_enabled w !! n)
    /\ (forall n, pluginsStatus w !! n = Some true ->
                  pluginsStatus w' !! n = Some true).
Proof.
  induction fuel as [|fuel IH]; intros i w Hvalid L.
  { exists w. unfold L. simpl. repeat split; try done.
    intros r. by destruct (deref w r). }
  simpl. unfold bind at 1, get_world.
  destruct (GeneratedPlugins w !! i) as [r|] eqn:Hi.
  2: { exists w. unfold L. rewrite drop_ge by (by apply lookup_ge_None).
       simpl. repeat split; try done. intros r. by destruct (deref w r). }
  assert (Hr : is_Some (deref w r)).
  { rewrite Forall_forall in Hvalid. apply Hvalid.
    by apply list_elem_of_lookup_2 with i. }
  destruct Hr as [g Hg].
  destruct (removePlugin_eval r g w Hg)
    as (w1 & Hrun & HG1 & HQ1 & Hh1 & Hp1 & He1 & Hs1).
  assert (Hd1 : forall r0, deref w1 r0
            = if decide (r0 = r) then Some (after_stop g) else deref w r0).
  { intros r0. unfold deref. rewrite Hh1.
    destruct (decide (r0 = r)) as [->|Hne];
      [by rewrite lookup_insert_eq | by rewrite lookup_insert_ne]. }
  assert (Hn1 : forall r0, name <$> deref w1 r0 = name <$> deref w r0).
  { intros r0. rewrite Hd1. destruct (decide (r0 = r)) as [->|]; [|done].
    rewrite Hg. simpl. by rewrite after_stop_name. }
  assert (Hvalid1 : Forall (fun r => is_Some (deref w1 r)) (GeneratedPlugins w1)).
  { rewrite HG1. eapply Forall_impl; [exact Hvalid|]. simpl.
    intros r0 Hr0. rewrite Hd1. by destruct (decide (r0 = r)). }
  destruct (IH (S i) w1 Hvalid1) as (w' & Hloop & HG & HQ & Hh & Hp & He & Hs).
  rewrite HG1 in *.
  set (L1 := take fuel (drop (S i) (GeneratedPlugins w))) in *.
  assert (HL : L = r :: L1).
  { unfold L, L1. by rewrite (drop_S _ _ _ Hi). }
  exists w'. unfold bind. rewrite Hrun, Hloop.
  split; [done|]. split; [congruence|]. split; [congruence|].
  rewrite HL, (names_of_cons w r L1 g Hg).
  rewrite (names_of_ext w w1 L1 Hn1) in Hp, He.
  split; [|split; [|split]].
  - intros r0. rewrite Hh, Hd1.
    destruct (decide (r0 = r)) as [->|Hne].
    + rewrite Hg.
      rewrite (bool_decide_eq_true_2 (r ∈ r :: L1)) by apply list_elem_of_here.
      simpl.
      destruct (bool_decide (r ∈ L1)); simpl; by rewrite ?after_stop_idem.
    + destruct (bool_decide (r0 ∈ L1)) eqn:Hb.
      * apply bool_decide_eq_true in Hb.
        by rewrite (bool_decide_eq_true_2 (r0 ∈ r :: L1))
          by (by apply list_elem_of_further).
      * apply bool_decide_eq_false in Hb.
        rewrite (bool_decide_eq_false_2 (r0 ∈ r :: L1)); [done|].
        intros [?|?]%elem_of_cons; done.
  - intros n. rewrite Hp, Hp1.
    destruct (bool_decide (n ∈ names_of w L1)) eqn:Hb.
    + apply bool_decide_eq_true in Hb.
      by rewrite (bool_decide_eq_true_2 (n ∈ name g :: names_of w L1))
        by (by apply list_elem_of_further).
    + apply bool_decide_eq_false in Hb.
      destruct (decide (n = name g)) as [->|Hne].
      * rewrite (bool_decide_eq_true_2 (name g ∈ name g :: names_of w L1))
          by apply list_elem_of_here.
        by rewrite lookup_delete_eq.
      * rewrite (bool_decide_eq_false_2 (n ∈ name g :: names_of w L1))
          by (intros [?|?]%elem_of_cons; done).
        by rewrite lookup_delete_ne.
  - intros n. rewrite He, He1.
    destruct (bool_decide (n ∈ names_of w L1)) eqn:Hb.
    + apply bool_decide_eq_true in Hb.
      by rewrite (bool_decide_eq_true_2 (n ∈ name g :: names_of w L1))
        by (by apply list_elem_of_further).
    + apply bool_decide_eq_false in Hb.
      destruct (decide (n = name g)) as [->|Hne].
      * rewrite (bool_decide_eq_true_2 (name g ∈ name g :: names_of w L1))
          by apply list_elem_of_here.
        by rewrite lookup_insert_eq.
      * rewrite (bool_decide_eq_false_2 (n ∈ name g :: names_of w L1))
          by (intros [?|?]%elem_of_cons; done).
        by rewrite lookup_insert_ne.
  - intros n Hn. by apply Hs, Hs1.
Qed.

(** X8. removeAllCustomPlugins returns and leaves the list of generated
    plugins empty; every plugin of the list is taken out of the registry,
    its setting is off and it is stopped if its [stop] returned; the plugins
    that are not in the list keep their registry entry and their setting,
    and a status remembered as enabled is still remembered as enabled. *)
Theorem removeAllCustomPlugins_spec w :
  Forall (fun r => is_Some (deref w r)) (GeneratedPlugins w) ->
  let run := removeAllCustomPlugins w in
  fst run = Ok tt
  /\ GeneratedPlugins (snd run) = []
  /\ queuedPlugins (snd run) = queuedPlugins w
  /\ (forall r g, r ∈ GeneratedPlugins w -> deref w r = Some g ->
        plugins (snd run) !! name g = None
        /\ settings_enabled (snd run) !! name g = Some false
        /\ deref (snd run) r = Some (after_stop g))
  /\ (forall n, n ∉ names_of w (GeneratedPlugins w) ->
        plugins (snd run) !! n = plugins w !! n
        /\ settings_enabled (snd run) !! n = settings_enabled w !! n)
  /\ (forall n, pluginsStatus w !! n = Some true ->
        pluginsStatus (snd run) !! n = Some true).
Proof.
  intros Hvalid.
  destruct (removeAll_loop_spec (length (GeneratedPlugins w)) 0 w Hvalid)
    as (w' & Hloop & HG & HQ & Hh & Hp & He & Hs).
  rewrite drop_0, firstn_all in Hh, Hp, He.
  unfold removeAllCustomPlugins, bind at 1, get_world.
  cbv zeta. unfold bind. rewrite Hloop. simpl.
  split; [done|]. split; [done|]. split; [done|].
  split; [|split].
  - intros r g Hr Hg.
    change (deref (set_GeneratedPlugins [] w') r) with (deref w' r).
    rewrite Hp, He, Hh.
    assert (Hn : name g ∈ names_of w (GeneratedPlugins w)).
    { apply elem_of_names_of. by exists r, g. }
    rewrite !bool_decide_eq_true_2 by done. by rewrite Hg.
  - intros n Hn. rewrite Hp, He. by rewrite !bool_decide_eq_false_2.
  - exact Hs.
Qed.

Lemma addCustomPlugin_eval g o w :
  deref w g = Some o ->
  let remembered := pluginsStatus w !! name o in
  exists w',
    addCustomPlugin g w = (Ok tt, w')
    /\ plugins w' = <[name o := g]> (plugins w)
    /\ GeneratedPlugins w' = GeneratedPlugins w ++ [g]
    /\ queuedPlugins w' = queuedPlugins w
    /\ settings_enabled w' !! name o = Some (default false remembered)
    /\ events w'
       = events w ++ (if bool_decide (remembered = Some true)
                      then [EvStartPlugin (Some g)] else [])
    /\ (started <$> deref w' g)
       = Some (started o
               || (bool_decide (remembered = Some true)
                   && negb (truthy (started_value o)) && start_returns o))
    /\ (forall n, n <> name o ->
          pluginsStatus w' !! n = pluginsStatus w !! n
          /\ settings_enabled w' !! n = settings_enabled w !! n)
    /\ (remembered <> Some true -> pluginsStatus w' = pluginsStatus w)
    /\ (remembered <> Some true ->
        started_value <$> deref w' g = Some (started_value o)).
Proof.
  intros Ho. cbv zeta.
  unfold addCustomPlugin, bind at 1, read. rewrite Ho.
  unfold bind at 1, modify. set (w1 := set_plugins _ w).
  unfold bind at 1, get_world. unfold bind at 1.
  set (sig := match stat_sig w1 (plugin_path (filename o)) with
              | Some (Some s) => Some s
              | Some None => bdFileSig o
              | None => Some 0%Z
              end).
  set (o2 := set_bdFileSig sig o).
  set (w2 := set_heap (<[g := o2]> (heap w1)) w1).
  assert (Hstamp :
    match stat_sig w1 (plugin_path (filename o)) with
    | Some (Some sig) => update g (set_bdFileSig (Some sig))
    | Some None => ret tt
    | None => update g (set_bdFileSig (Some 0%Z))
    end w1 = (Ok tt, w2)).
  { unfold w2, o2, sig, update, modify, ret. unfold deref in Ho.
    destruct (stat_sig w1 (plugin_path (filename o))) as [[s|]|]; simpl.
    - f_equal. f_equal. apply map_eq. intros k.
      destruct (decide (k = g)) as [->|Hne].
      + by rewrite lookup_alter_eq, lookup_insert_eq, Ho.
      + by rewrite lookup_alter_ne, lookup_insert_ne.
    - f_equal. destruct w; simpl in *. f_equal.
      rewrite insert_id; [done|]. rewrite Ho. by destruct o.
    - f_equal. f_equal. apply map_eq. intros k.
      destruct (decide (k = g)) as [->|Hne].
      + by rewrite lookup_alter_eq, lookup_insert_eq, Ho.
      + by rewrite lookup_alter_ne, lookup_insert_ne. }
  rewrite Hstamp. clear Hstamp.
  unfold bind at 1, set_enabled, modify.
  set (w3 := set_settings_enabled _ w2).
  unfold bind at 1, get_world. unfold bind at 1.
  change (pluginsStatus w3) with (pluginsStatus w).
  assert (Ho3 : forall s, deref (set_settings_enabled s w3) g = Some o2).
  { intros s. unfold deref. simpl. by rewrite lookup_insert_eq. }
  assert (Hp3 : plugins w3 !! name o = Some g).
  { simpl. by rewrite lookup_insert_eq. }
  destruct (pluginsStatus w !! name o) as [[]|] eqn:Hst.
  - unfold bind at 1, set_enabled, modify. unfold when.
    change (plugins (set_settings_enabled (<[name o:=true]> (settings_enabled w3)) w3))
      with (plugins w3).
    rewrite Hp3. rewrite (startPlugin_eval g o2 _ (Ho3 _)). cbv zeta.
    change (start_returns o2) with (start_returns o).
    change (started_value o2) with (started_value o).
    change (instance o2) with (instance o).
    change (name o2) with (name o).
    rewrite bool_decide_eq_true_2 by done.
    destruct (truthy (started_value o)) eqn:Hs;
      [|destruct (instance o) eqn:Hi; destruct (start_returns o) eqn:Hsr];
      unfold bind, get_world, modify; simpl;
      rewrite ?lookup_insert_eq; simpl; rewrite ?lookup_insert_eq;
      eexists; (split; [reflexivity|]); simpl;
      (repeat split; try done); unfold deref; simpl;
      rewrite ?lookup_alter_eq, ?lookup_insert_eq; simpl;
      rewrite ?lookup_insert_eq, ?started_set_started,
              ?orb_false_r, ?orb_true_r; try done;
      try (by rewrite ?lookup_insert_ne by done);
      try (change (started o2) with (started o);
           by rewrite (falsy_not_started _ Hs)).
  - unfold bind at 1, set_enabled, modify. unfold when, ret.
    unfold bind, get_world, modify. simpl.
    rewrite !lookup_insert_eq. simpl.
    try rewrite bool_decide_eq_false_2 by done. rewrite ?app_nil_r.
    eexists. split; [reflexivity|]. simpl.
    repeat split; try done.
    + by rewrite lookup_insert_eq.
    + unfold deref. simpl.
      rewrite lookup_insert_eq. simpl. by rewrite orb_false_r.
    + by rewrite ?lookup_insert_ne by done.
    + unfold deref. simpl. by rewrite lookup_insert_eq.
  - unfold ret, bind, get_world, modify. simpl.
    rewrite !lookup_insert_eq. simpl.
    try rewrite bool_decide_eq_false_2 by done. rewrite ?app_nil_r.
    eexists. split; [reflexivity|]. simpl.
    repeat split; try done.
    + by rewrite lookup_insert_eq.
    + unfold deref. simpl.
      rewrite lookup_insert_eq. simpl. by rewrite orb_false_r.
    + by rewrite ?lookup_insert_ne by done.
    + unfold deref. simpl. by rewrite lookup_insert_eq.
Qed.

(** X9. For a plugin whose name has a remembered status or is none of the
    names that every object inherits, addCustomPlugin registers the record
    under its name and appends it to the generated plugins; the setting of
    the plugin becomes the status remembered for its name, off when none is
    remembered, and the host is asked to start the record exactly when that
    status is [true]: a record whose [started] was falsy is then started
    if its [start] returned. *)
Theorem addCustomPlugin_restores_state g o w :
  deref w g = Some o ->
  is_Some (pluginsStatus w !! name o) \/ on_Object_prototype (name o) = false ->
  let run := addCustomPlugin g w in
  let remembered := pluginsStatus w !! name o in
  fst run = Ok tt
  /\ plugins (snd run) = <[name o := g]> (plugins w)
  /\ GeneratedPlugins (snd run) = GeneratedPlugins w ++ [g]
  /\ queuedPlugins (snd run) = queuedPlugins w
  /\ settings_enabled (snd run) !! name o = Some (default false remembered)
  /\ events (snd run)
     = events w ++ (if bool_decide (remembered = Some true)
                    then [EvStartPlugin (Some g)] else [])
  /\ (started <$> deref (snd run) g)
     = Some (started o
             || (bool_decide (remembered = Some true)
                 && negb (truthy (started_value o)) && start_returns o)).
Proof.
  intros Ho _ run remembered.
  destruct (addCustomPlugin_eval g o w Ho)
    as (w' & Hrun & H1 & H2 & H3 & H4 & H5 & H6 & _).
  unfold run. rewrite Hrun. simpl. by repeat split.
Qed.

Section Converting.
Variables (w0 : World) (final : Ref) (recorded : string) (flag : JSValue).

Lemma converting_emit e :
  stable (converting w0 final recorded flag) (emit e).
Proof. apply stable_modify. intros w H. exact H. Qed.

Lemma converting_update f :
  keeps_started f ->
  stable (converting w0 final recorded flag) (update final f).
Proof.
  intros Hf. apply stable_modify.
  intros w (Hp & Hg & Hs & He & Hfs & Hx & (a & Ha & Hst & Hfile)).
  repeat split; try done; simpl.
  - intros x Hne. rewrite lookup_alter_ne by done. by apply Hx.
  - exists (f a). rewrite lookup_alter_eq, Ha. simpl.
    destruct (Hf a) as [-> ->]. done.
Qed.

Lemma converting_showNotice c t b :
  stable (converting w0 final recorded flag) (showNotice c t b).
Proof. apply stable_modify. intros w H. exact H. Qed.
End Converting.

Ltac converting_step :=
  first
    [ apply stable_bind; [|intros ?]
    | apply stable_try_catch; [|intros ?]
    | apply stable_ret
    | apply stable_throw
    | apply stable_lift
    | apply stable_get_world
    | apply stable_read
    | apply stable_when
    | apply converting_emit
    | apply converting_showNotice
    | apply converting_update; intros []; split; reflexivity
    | apply stable_modify; intros ? H; exact H
    | match goal with
      | |- stable _ (match ?x with _ => _ end) => destruct x
      end ].

Section RegistryFacts.
Variable parseLegacyMeta : string -> string -> Result PluginMeta.
Variable parseNewMeta : string -> string -> Result PluginMeta.
Variable wrapBetterDiscordPluginCode : string -> string -> Result Exports.

Abbreviation parse_meta := (parse_meta parseLegacyMeta parseNewMeta).
Abbreviation convert_parse_and_queue :=
  (convert_parse_and_queue parseLegacyMeta parseNewMeta).
Abbreviation convert_instantiate :=
  (convert_instantiate wrapBetterDiscordPluginCode).
Abbreviation convertPlugin :=
  (convertPlugin parseLegacyMeta parseNewMeta wrapBetterDiscordPluginCode).
Abbreviation softReloadBDPlugin :=
  (softReloadBDPlugin parseLegacyMeta parseNewMeta wrapBetterDiscordPluginCode).
Abbreviation soft_reattach :=
  (soft_reattach parseLegacyMeta parseNewMeta wrapBetterDiscordPluginCode).

Lemma converting_frame w final recorded flag w' :
  final = next_ref w -> converting w final recorded flag w' -> frame w w'.
Proof.
  intros -> (Hp & Hg & Hs & He & _ & Hx & _). repeat split; try done.
Qed.

Lemma converting_after_parse src file sp w :
  match convert_parse_and_queue src file sp w with
  | (Ok final, w') =>
      final = next_ref w
      /\ exists meta,
           parse_meta src file = Ok meta
           /\ converting w final (default file (meta_filename meta))
                         (default (VBool false) (meta_started meta)) w'
  | (Throw _, w') => frame w w'
  end.
Proof.
  unfold Compat.convert_parse_and_queue, bind, alloc, emit, modify, lift,
    update, ret.
  destruct (Compat.parse_meta _ _ src file) as [m|e]; simpl.
  - split; [done|]. exists m. split; [done|].
    repeat split; simpl; try done.
    + intros x Hne. by rewrite lookup_alter_ne, lookup_insert_ne.
    + eexists. rewrite lookup_alter_eq, lookup_insert_eq. simpl.
      split; [reflexivity|].
      destruct (assign_meta_fields m
                  (mkPlugin "" None "" file sp None "" false None None))
        as (-> & _ & ->). done.
  - repeat split; try done. intros r Hne. unfold deref. simpl.
    by rewrite lookup_insert_ne.
Qed.

Lemma converting_rest src file dd final w0 recorded flag :
  stable (converting w0 final recorded flag)
    (convert_instantiate src file dd final ;;;
     convert_validate final ;;; convert_finish final).
Proof.
  unfold Compat.convert_instantiate, convert_validate, convert_finish.
  repeat converting_step.
Qed.

Lemma convert_rest_returns src file dd final w r w' :
  (convert_instantiate src file dd final ;;;
   convert_validate final ;;; convert_finish final) w = (Ok r, w') ->
  r = final.
Proof.
  unfold bind at 1.
  destruct (Compat.convert_instantiate _ src file dd final w) as [[[]|e] w1];
    [|done].
  unfold bind at 1. destruct (convert_validate final w1) as [[[]|e] w2]; [|done].
  unfold convert_finish, bind at 1.
  destruct (read final w2) as [[o|e] w3]; [|done].
  unfold bind at 1. destruct (authors_null o); [done|].
  cbv beta iota delta [when ret].
  unfold bind at 1, get_world. unfold bind at 1.
  destruct (findIndex _ _) as [index|]; unfold bind, emit, modify, ret;
    by intros [= <-].
Qed.

(** [convertPlugin] touches neither the registry nor the settings, and the
    record it returns has the file name and the [started] that the merge
    of the metadata gave it. *)
Lemma convertPlugin_converting src file dd sp w :
  match convertPlugin src file dd sp w with
  | (Ok final, w') =>
      final = next_ref w
      /\ exists meta,
           parse_meta src file = Ok meta
           /\ converting w final (default file (meta_filename meta))
                         (default (VBool false) (meta_started meta)) w'
  | (Throw _, w') => frame w w'
  end.
Proof.
  assert (Heq : convertPlugin src file dd sp w
    = bind (convert_parse_and_queue src file sp)
           (fun final => convert_instantiate src file dd final ;;;
                         convert_validate final ;;; convert_finish final) w).
  { unfold Compat.convertPlugin, Compat.convert_assemble, bind, ret.
    destruct (Compat.convert_parse_and_queue _ _ src file sp w)
      as [[final|e] w1]; [|done].
    destruct (Compat.convert_instantiate _ src file dd final w1)
      as [[[]|e] w2]; done. }
  rewrite Heq. clear Heq. unfold bind at 1.
  pose proof (converting_after_parse src file sp w) as H1.
  destruct (Compat.convert_parse_and_queue _ _ src file sp w)
    as [[final|e] w1]; [|exact H1].
  destruct H1 as (-> & meta & Hmeta & H1).
  pose proof (converting_rest src file dd (next_ref w) w _ _ w1 H1) as H2.
  pose proof (convert_rest_returns src file dd (next_ref w) w1) as H3.
  destruct ((_ ;;; _) w1) as [[r|e] w2]; simpl in H2.
  - rewrite (H3 r w2 eq_refl). split; [done|]. by exists meta.
  - by apply (converting_frame w (next_ref w) _ _ w2 eq_refl H2).
Qed.

(** X12. convertPlugin only assembles.  Whether it returns or throws, the
    registry, the list of generated plugins, the remembered statuses, the
    settings and every object but the one allocated next are as before
    (the code of the plugin is taken not to reach into them).  The record
    it returns is the object allocated next; it has [false] in [started]
    and the file name that was passed, unless the metadata has a key
    [started] or [filename]: the field then holds the value of the key. *)
Theorem convertPlugin_keeps_registry src file dd sp w :
  let run := convertPlugin src file dd sp w in
  plugins (snd run) = plugins w
  /\ GeneratedPlugins (snd run) = GeneratedPlugins w
  /\ pluginsStatus (snd run) = pluginsStatus w
  /\ settings_enabled (snd run) = settings_enabled w
  /\ (forall r, r <> next_ref w -> deref (snd run) r = deref w r)
  /\ (forall final, fst run = Ok final ->
        final = next_ref w
        /\ exists meta,
             parse_meta src file = Ok meta
             /\ (started_value <$> deref (snd run) final)
                = Some (default (VBool false) (meta_started meta))
             /\ (filename <$> deref (snd run) final)
                = Some (default file (meta_filename meta))).
Proof.
  intros run. subst run.
  pose proof (convertPlugin_converting src file dd sp w) as H.
  destruct (convertPlugin src file dd sp w) as [[final|e] w'];
    cbn [fst snd].
  - destruct H as (-> & meta & Hmeta & H).
    destruct (converting_frame w (next_ref w) _ _ w' eq_refl H)
      as (Hp & Hg & Hs & He & Hx).
    do 5 (split; [assumption|]).
    intros final' [= <-]. split; [done|]. exists meta. split; [done|].
    destruct H as (_ & _ & _ & _ & _ & _ & a & Ha & Hst & Hfile).
    unfold deref. rewrite Ha. cbn. by rewrite Hst, Hfile.
  - destruct H as (Hp & Hg & Hs & He & Hx).
    do 5 (split; [assumption|]).
    intros final' [=].
Qed.

Abbreviation enable :=
  (enable parseLegacyMeta parseNewMeta wrapBetterDiscordPluginCode).
Abbreviation enable_resolved :=
  (enable_resolved parseLegacyMeta parseNewMeta wrapBetterDiscordPluginCode).

Lemma enable_unchanged_eval idOrFile w p o files f :
  resolvePluginByAny w idOrFile = Some p ->
  deref w p = Some o ->
  plugins w !! name o = Some p ->
  fs w = Some files ->
  str_truthy (filename o) = true ->
  files !! plugin_path (filename o) = Some f ->
  bdFileSig o = Some (to_int32 (mtimeMs f)) ->
  to_int32 (mtimeMs f) <> 0%Z ->
  exists w',
    enable idOrFile w = (Ok tt, w')
    /\ events w' = events w ++ [EvStartPlugin (Some p)]
    /\ plugins w' = plugins w
    /\ GeneratedPlugins w' = GeneratedPlugins w
    /\ queuedPlugins w' = queuedPlugins w
    /\ settings_enabled w' !! name o = Some true
    /\ pluginsStatus w' !! name o = Some true
    /\ deref w' p
       = Some (if negb (truthy (started_value o)) && start_returns o
               then set_started true o else o).
Proof.
  intros Hres Ho Hp Hfs Hfile Hf Hsig Hnz.
  rewrite (enable_marks_intent_first _ _ _ idOrFile w p o Hres Ho).
  set (w1 := set_pluginsStatus _ _).
  assert (Ho1 : deref w1 p = Some o) by exact Ho.
  unfold Compat.enable_resolved, bind at 1, get_world.
  change (plugins w1) with (plugins w). rewrite Hp. simpl (Some p ≫= _).
  rewrite Ho1. simpl (Some o ≫= _).
  assert (Hnow : getFileSig w1 (Some o) = Some (to_int32 (mtimeMs f))).
  { unfold getFileSig. change (fs w1) with (fs w). rewrite Hfs, Hfile, Hf. done. }
  rewrite Hnow, Hsig.
  assert (Hch : file_changed (Some o) (Some (to_int32 (mtimeMs f)))
                  (Some (to_int32 (mtimeMs f))) = false).
  { unfold file_changed. rewrite Hfile, Z.eqb_refl. simpl.
    by apply Z.eqb_neq. }
  rewrite Hch. unfold bind at 1, ret.
  unfold try_catch, bind at 1, get_world. change (plugins w1) with (plugins w).
  rewrite Hp. unfold bind at 1.
  rewrite (startPlugin_eval p o w1 Ho1). cbv zeta.
  set (o' := if negb (truthy (started_value o)) && start_returns o
             then set_started true o else o).
  set (w2 := if truthy (started_value o) then _ else _).
  assert (H2 : deref w2 p = Some o'
               /\ plugins w2 = plugins w /\ fs w2 = fs w
               /\ events w2 = events w ++ [EvStartPlugin (Some p)]
               /\ GeneratedPlugins w2 = GeneratedPlugins w
               /\ queuedPlugins w2 = queuedPlugins w
               /\ settings_enabled w2 !! name o = Some true
               /\ pluginsStatus w2 !! name o = Some true).
  { unfold w2, o', deref in *.
    destruct (truthy (started_value o)) eqn:Hs;
      [|destruct (instance o) eqn:Hi; destruct (start_returns o) eqn:Hsr];
      simpl; rewrite ?lookup_alter_eq, ?lookup_insert_eq, ?Ho; simpl;
      repeat split; done. }
  assert (Hfile' : filename o' = filename o).
  { unfold o'. by destruct (negb _ && _). }
  assert (Hsig' : bdFileSig o' = bdFileSig o).
  { unfold o'. by destruct (negb _ && _). }
  clearbody w2. destruct H2 as (Hd2 & Hp2 & Hfs2 & Hev2 & HG2 & HQ2 & He2 & Hs2).
  unfold stampFileSigOnCurrent, bind at 1, get_world.
  rewrite Hp2, Hp, Hd2.
  rewrite Hfile', Hfile. unfold when.
  assert (Hnow2 : getFileSig w2 (Some o') = Some (to_int32 (mtimeMs f))).
  { unfold getFileSig. rewrite Hfs2, Hfs.
    by rewrite Hfile', Hfile, Hf. }
  rewrite Hnow2. unfold update, modify. eexists. split; [reflexivity|].
  simpl. repeat split; try done.
  unfold deref in *. simpl. rewrite lookup_alter_eq, Hd2. simpl.
  f_equal. rewrite <- Hsig, <- Hsig'. by destruct o'.
Qed.

(** X10. enable of a registered plugin whose file on disk still carries the
    stamped signature, a signature other than 0, starts the instance in
    memory: it returns after one request to start the registered record,
    without a reload; the registry and the lists are unchanged, the setting
    and the remembered status are on, and the record is as before but for
    [started], which has become [true] when it was falsy and the record's
    [start] returned. *)
Theorem enable_unchanged_file idOrFile w p o files f :
  resolvePluginByAny w idOrFile = Some p ->
  deref w p = Some o ->
  plugins w !! name o = Some p ->
  fs w = Some files ->
  str_truthy (filename o) = true ->
  files !! plugin_path (filename o) = Some f ->
  bdFileSig o = Some (to_int32 (mtimeMs f)) ->
  to_int32 (mtimeMs f) <> 0%Z ->
  let run := enable idOrFile w in
  fst run = Ok tt
  /\ events (snd run) = events w ++ [EvStartPlugin (Some p)]
  /\ plugins (snd run) = plugins w
  /\ GeneratedPlugins (snd run) = GeneratedPlugins w
  /\ queuedPlugins (snd run) = queuedPlugins w
  /\ settings_enabled (snd run) !! name o = Some true
  /\ pluginsStatus (snd run) !! name o = Some true
  /\ deref (snd run) p
     = Some (if negb (truthy (started_value o)) && start_returns o
             then set_started true o else o).
Proof.
  intros Hres Ho Hp Hfs Hfile Hf Hsig Hnz run.
  destruct (enable_unchanged_eval idOrFile w p o files f
              Hres Ho Hp Hfs Hfile Hf Hsig Hnz) as (w' & Hrun & H).
  unfold run. rewrite Hrun. simpl. split; [done | exact H].
Qed.

Lemma stampFileSigOnCurrent_eval n w :
  exists w',
    stampFileSigOnCurrent n w = (Ok tt, w')
    /\ plugins w' = plugins w
    /\ pluginsStatus w' = pluginsStatus w
    /\ settings_enabled w' = settings_enabled w
    /\ (forall r, started_value <$> deref w' r = started_value <$> deref w r).
Proof.
  unfold stampFileSigOnCurrent, bind, get_world.
  destruct (plugins w !! n) as [r|]; [|by exists w].
  destruct (deref w r) as [inst|] eqn:Hr; [|by exists w].
  destruct (str_truthy (filename inst)); [|by exists w].
  unfold when, update, modify. eexists. split; [reflexivity|]. simpl.
  repeat split; try done. intros r'. unfold deref in *. simpl.
  destruct (decide (r' = r)) as [->|Hne].
  - by rewrite lookup_alter_eq, Hr.
  - by rewrite lookup_alter_ne.
Qed.

(** The first half of the soft reload, for a plugin that is running: the
    host calls the record's [stop], which clears the status that was
    remembered two lines before. *)
Lemma soft_detach_running p w o i files :
  deref w p = Some o -> plugins w !! name o = Some p ->
  started o = true -> instance o = Some i ->
  fs w = Some files -> str_truthy (filename o) = true ->
  exists w',
    soft_detach p w = (Ok tt, w')
    /\ plugins w' = delete (name o) (plugins w)
    /\ pluginsStatus w' !! name o = Some false
    /\ fs w' = fs w
    /\ (exists o', deref w' p = Some o' /\ name o' = name o
                   /\ filename o' = filename o).
Proof.
  intros Ho Hp Hs Hi Hfs Hfile.
  unfold soft_detach, bind at 1, get_world, bind at 1, read.
  rewrite Ho, Hfs, Hfile. change (negb true) with false. cbv beta iota.
  unfold bind at 1, set_status, modify at 1. cbv beta iota.
  set (w1 := set_pluginsStatus _ w).
  assert (Ho1 : deref w1 p = Some o) by exact Ho.
  assert (Hstop : exists w3,
    safeStopPlugin (name o) w1 = (Ok tt, w3)
    /\ plugins w3 = plugins w
    /\ pluginsStatus w3 !! name o = Some false
    /\ fs w3 = fs w
    /\ (exists o', deref w3 p = Some o' /\ name o' = name o
                   /\ filename o' = filename o)).
  { unfold safeStopPlugin, bind at 1, try_catch, bind at 1, get_world.
    change (plugins w1) with (plugins w). rewrite Hp.
    rewrite (stopPlugin_eval p o w1 Ho1). cbv zeta.
    rewrite (started_truthy _ Hs), Hi.
    unfold bind, emit, modify. unfold deref in *.
    destruct (stop_returns o); simpl;
      eexists; (split; [reflexivity|]); simpl;
      rewrite ?lookup_insert_eq, ?lookup_alter_eq, ?Ho; simpl;
      (repeat split; try done); by eexists. }
  destruct Hstop as (w3 & Hstop & Hp3 & Hs3 & Hfs3 & Ho3).
  unfold bind at 1. rewrite Hstop.
  unfold bind at 1, get_world. unfold bind at 1.
  destruct (plugins w3 !! name o ≫= _); unfold modify, ret;
    eexists; (split; [reflexivity|]); simpl;
    rewrite ?Hp3; repeat split; try done; congruence.
Qed.

(** X11. A soft reload of a running plugin does not start it again:
    stopping the old instance switches the remembered status off before
    the new record is registered.  After the reload the remembered status
    is off, and the record registered under the name, if there is one, has
    its setting off and has not been started: its [started] is [false], or
    what the key [started] of the metadata of the new text holds when there
    is such a key. *)
Theorem softReload_running_stays_stopped p w o i files :
  deref w p = Some o -> plugins w !! name o = Some p ->
  started o = true -> instance o = Some i ->
  fs w = Some files -> str_truthy (filename o) = true ->
  let run := softReloadBDPlugin p w in
  pluginsStatus (snd run) !! name o = Some false
  /\ (forall r a, plugins (snd run) !! name o = Some r ->
        deref (snd run) r = Some a ->
        settings_enabled (snd run) !! name o = Some false
        /\ exists f meta,
             files !! plugin_path (filename o) = Some f
             /\ parse_meta (content f) (filename o) = Ok meta
             /\ started_value a = default (VBool false) (meta_started meta)).
Proof.
  intros Ho Hp Hs Hi Hfs Hfile run.
  destruct (soft_detach_running p w o i files Ho Hp Hs Hi Hfs Hfile)
    as (w1 & Hdet & Hp1 & Hst1 & Hfs1 & (o1 & Ho1 & Hn1 & Hf1)).
  assert (Hnone1 : plugins w1 !! name o = None).
  { rewrite Hp1. apply lookup_delete_eq. }
  assert (Hgoal : forall res w',
    soft_reattach p w1 = (res, w') ->
    pluginsStatus w' !! name o = Some false
    /\ (forall r a, plugins w' !! name o = Some r -> deref w' r = Some a ->
          settings_enabled w' !! name o = Some false
          /\ exists f meta,
               files !! plugin_path (filename o) = Some f
               /\ parse_meta (content f) (filename o) = Ok meta
               /\ started_value a
                  = default (VBool false) (meta_started meta))).
  { intros res w'. unfold Compat.soft_reattach, bind at 1, read. rewrite Ho1.
    unfold bind at 1, readFileSync, bind at 1, emit, modify, bind at 1,
      get_world. cbv beta iota.
    set (w2 := set_events _ w1).
    change (fs w2) with (fs w1). rewrite Hfs1, Hfs, Hf1. cbn [mbind option_bind].
    destruct (files !! plugin_path (filename o)) as [f|] eqn:Hf.
    2: { unfold throw. intros [= <- <-]. simpl. by rewrite Hnone1. }
    unfold ret at 1. cbv beta iota. unfold bind at 1.
    pose proof (convertPlugin_converting (content f) (filename o) true
                  folder w2) as Hc.
    destruct (Compat.convertPlugin _ _ _ (content f) (filename o) true folder w2)
      as [[final|e] w3].
    2: { intros [= <- <-]. destruct Hc as (Hpc & _ & Hsc & _).
         rewrite Hsc, Hpc. simpl. by rewrite Hnone1. }
    destruct Hc as (-> & meta & Hmeta
                    & (Hpc & _ & Hsc & Hec & _ & _ & (a & Ha & Hsa & _))).
    unfold bind at 1, read, deref. rewrite Ha.
    destruct (addCustomPlugin_eval (next_ref w2) a w3 Ha)
      as (w4 & Hadd & Hp4 & _ & _ & He4 & _ & Hs4 & Hfr4 & Hst4 & Hv4).
    unfold bind at 1. rewrite Hadd.
    destruct (stampFileSigOnCurrent_eval (name o1) w4)
      as (w5 & Hstamp & Hp5 & Hs5 & He5 & Hd5).
    unfold bind at 1. rewrite Hstamp.
    assert (Hfin : forall w6 : World,
      plugins w6 = plugins w5 -> pluginsStatus w6 = pluginsStatus w5 ->
      settings_enabled w6 = settings_enabled w5 -> heap w6 = heap w5 ->
      pluginsStatus w6 !! name o = Some false
      /\ (forall r a0, plugins w6 !! name o = Some r -> deref w6 r = Some a0 ->
            settings_enabled w6 !! name o = Some false
            /\ exists f meta,
                 files !! plugin_path (filename o) = Some f
                 /\ parse_meta (content f) (filename o) = Ok meta
                 /\ started_value a0
                    = default (VBool false) (meta_started meta))).
    { intros w6 Hp6 Hs6 He6 Hh6.
      assert (Hst3 : pluginsStatus w3 !! name o = Some false).
      { rewrite Hsc. exact Hst1. }
      rewrite Hp6, Hs6, He6, Hp5, Hs5, He5, Hp4, Hpc.
      change (plugins w2) with (plugins w1).
      destruct (decide (name a = name o)) as [Hna|Hna].
      - rewrite Hna in *.
        assert (Hrem : pluginsStatus w3 !! name o <> Some true) by congruence.
        split.
        + by rewrite (Hst4 Hrem).
        + rewrite lookup_insert_eq. intros r a0 Hr0 Hr.
          assert (r = next_ref w2) as -> by congruence.
          split; [by rewrite He4, Hst3|].
          exists f, meta. split; [done|]. split; [done|].
          assert (H6 : started_value <$> deref w6 (next_ref w2)
                       = Some (started_value a)).
          { unfold deref. rewrite Hh6. fold (deref w5 (next_ref w2)).
            rewrite Hd5. by apply Hv4. }
          rewrite Hr in H6. injection H6 as ->. exact Hsa.
      - split.
        + destruct (Hfr4 (name o)) as [-> _]; [congruence | done].
        + rewrite lookup_insert_ne by done. by rewrite Hnone1. }
    rewrite <- Hf.
    destruct (version o1) as [ov|], (version a) as [nv|];
      try (unfold ret; intros [= <- <-]; by apply Hfin).
    destruct (str_truthy ov && str_truthy nv && negb (String.eqb ov nv));
      simpl; unfold emit, modify, ret; intros [= <- <-]; by apply Hfin. }
  unfold run, Compat.softReloadBDPlugin, bind. rewrite Hdet.
  destruct (soft_reattach p w1) as [res w'] eqn:Hre.
  destruct (Hgoal res w' eq_refl) as [H1 H2].
  by destruct res.
Qed.

End RegistryFacts.

Lemma get_then_resolve_witness :
  0%nat ∈ getAll Sample.loaded_world
  /\ (exists x, deref Sample.loaded_world 0%nat = Some x
                /\ (name x = "P" \/ originalName x = Some "P"))
  /\ (exists p x, resolvePluginByAny Sample.loaded_world "P" = Some p
                  /\ deref Sample.loaded_world p = Some x
                  /\ (name x = "P" \/ originalName x = Some "P"
                      \/ plugin_id x = "P" \/ filename x = "P")).
Proof. apply (get_then_resolve Sample.loaded_world "P" 0%nat). reflexivity. Defined.

Lemma disable_spec_witness :
  fst (disable "P.plugin.js" running_world) = Ok tt
  /\ settings_enabled (snd (disable "P.plugin.js" running_world)) !! "P"
     = Some false
  /\ (started <$> deref (snd (disable "P.plugin.js" running_world)) 0%nat)
     = Some false.
Proof.
  pose proof (disable_spec "P.plugin.js" running_world) as H.
  assert (Hres : resolvePluginByAny running_world "P.plugin.js" = Some 0%nat)
    by (vm_compute; reflexivity).
  rewrite Hres in H.
  destruct (H running_record ltac:(vm_compute; reflexivity))
    as (H1 & H2 & _ & _ & _ & _ & _ & H8).
  split; [exact H1|]. split.
  - rewrite H2. reflexivity.
  - exact (H8 0%nat running_record ltac:(vm_compute; reflexivity)
                                   ltac:(vm_compute; reflexivity)).
Defined.

Lemma removeAllCustomPlugins_spec_witness :
  Forall (fun r => is_Some (deref running_world r))
         (GeneratedPlugins running_world)
  /\ pluginsStatus running_world !! "P" = Some true
  /\ GeneratedPlugins (snd (removeAllCustomPlugins running_world)) = []
  /\ pluginsStatus (snd (removeAllCustomPlugins running_world)) !! "P"
     = Some true.
Proof.
  assert (Hv : Forall (fun r => is_Some (deref running_world r))
                      (GeneratedPlugins running_world)).
  { vm_compute. repeat constructor. by eexists. }
  assert (Hs : pluginsStatus running_world !! "P" = Some true)
    by (vm_compute; reflexivity).
  split; [exact Hv|]. split; [exact Hs|].
  destruct (removeAllCustomPlugins_spec running_world Hv)
    as (_ & HG & _ & _ & _ & Hst).
  split; [exact HG | exact (Hst "P" Hs)].
Defined.

Lemma addCustomPlugin_restores_state_witness :
  fst (addCustomPlugin 0%nat assembled_world) = Ok tt
  /\ (started <$> deref (snd (addCustomPlugin 0%nat assembled_world)) 0%nat)
     = Some true.
Proof.
  destruct (addCustomPlugin_restores_state 0%nat
              (mkPlugin "P" (Some "P") "P" "P.plugin.js" folder (Some "1.0.0")
                        "A plugin" false (Some Sample.quiet) None)
              assembled_world)
    as (H1 & _ & _ & _ & _ & _ & H7).
  - vm_compute. reflexivity.
  - left. vm_compute. eauto.
  - split; [exact H1 | exact H7].
Defined.

Lemma enable_unchanged_file_witness :
  fst (Sample.enable "P" Sample.loaded_world) = Ok tt
  /\ events (snd (Sample.enable "P" Sample.loaded_world))
     = events Sample.loaded_world ++ [EvStartPlugin (Some 0%nat)].
Proof.
  destruct (enable_unchanged_file
              Sample.parseLegacyMeta Sample.parseNewMeta
              Sample.wrapBetterDiscordPluginCode
              "P" Sample.loaded_world 0%nat Sample.loaded_record
              {[ plugin_path "P.plugin.js" := mkFile Sample.good_source 1000 ]}
              (mkFile Sample.good_source 1000))
    as (H1 & H2 & _).
  - vm_compute. reflexivity.
  - vm_compute. reflexivity.
  - vm_compute. reflexivity.
  - reflexivity.
  - reflexivity.
  - vm_compute. reflexivity.
  - vm_compute. reflexivity.
  - vm_compute. discriminate.
  - split; [exact H1 | exact H2].
Defined.

Lemma softReload_running_stays_stopped_witness :
  plugins (snd (Compat.softReloadBDPlugin
                  Sample.parseLegacyMeta Sample.parseNewMeta
                  Sample.wrapBetterDiscordPluginCode 0%nat running_world))
    !! "P" = Some 1%nat
  /\ pluginsStatus (snd (Compat.softReloadBDPlugin
                  Sample.parseLegacyMeta Sample.parseNewMeta
                  Sample.wrapBetterDiscordPluginCode 0%nat running_world))
       !! "P" = Some false
  /\ settings_enabled (snd (Compat.softReloadBDPlugin
                  Sample.parseLegacyMeta Sample.parseNewMeta
                  Sample.wrapBetterDiscordPluginCode 0%nat running_world))
       !! "P" = Some false.
Proof.
  destruct (softReload_running_stays_stopped
              Sample.parseLegacyMeta Sample.parseNewMeta
              Sample.wrapBetterDiscordPluginCode
              0%nat running_world running_record Sample.quiet
              {[ plugin_path "P.plugin.js" := mkFile Sample.good_source 1000 ]})
    as (H1 & H2).
  - vm_compute. reflexivity.
  - vm_compute. reflexivity.
  - reflexivity.
  - reflexivity.
  - vm_compute. reflexivity.
  - reflexivity.
  - assert (Hreg : plugins (snd (Compat.softReloadBDPlugin
                  Sample.parseLegacyMeta Sample.parseNewMeta
                  Sample.wrapBetterDiscordPluginCode 0%nat running_world))
                  !! "P" = Some 1%nat) by (vm_compute; reflexivity).
    split; [exact Hreg|]. split; [exact H1|].
    exact (proj1 (H2 1%nat
             (mkPlugin "P" (Some "P") "P" "P.plugin.js" folder (Some "1.0.0")
                       "A plugin" false (Some Sample.quiet) (Some 1000%Z))
             Hreg ltac:(vm_compute; reflexivity))).
Defined.

End LifecycleFacts.

(** ** Metadata parser *)
Module MetaParserFacts.
Import JS Text MetaParser.
Local Open Scope string_scope.

Ltac str_app :=
  repeat first
    [ progress change (String.append EmptyString ?b) with b
    | progress change (String.append (String ?c ?a) ?b)
        with (String c (String.append a b)) ].

Lemma split_by_absent sep s :
  includes sep s = false -> split_by sep s = [s].
Proof.
  unfold split_by. induction s as [|c s IH]; intros H; [reflexivity|].
  cbn [includes] in H. apply orb_false_iff in H as [H1 H2].
  cbn [split_by_from]. rewrite H1, (IH H2). reflexivity.
Qed.

Lemma split_on_absent c s :
  includes (String c EmptyString) s = false -> split_on c s = [s].
Proof.
  induction s as [|a s IH]; intros H; [reflexivity|].
  cbn [includes startsWith] in H. apply orb_false_iff in H as [H1 H2].
  rewrite andb_true_r in H1.
  cbn [split_on]. rewrite Ascii.eqb_sym, H1, (IH H2). reflexivity.
Qed.

Lemma startsWith_prefix p q s :
  startsWith (p ++ q) s = true -> startsWith p s = true.
Proof.
  revert s. induction p as [|a p IH]; intros s H; [destruct s; reflexivity|].
  destruct s as [|b s]; [discriminate|].
  cbn [String.append startsWith] in *. apply andb_true_iff in H as [H1 H2].
  rewrite H1, (IH _ H2). reflexivity.
Qed.

Section ParserFacts.
Variable basename : string -> Result string.
Variable BigInt : string -> Result Z.
Abbreviation parseNewMeta := (parseNewMeta basename BigInt).
Abbreviation meta_step := (meta_step basename BigInt).
Abbreviation meta_loop := (meta_loop basename BigInt).

(** X13. A plugin text without [/**] makes parseNewMeta throw: there is no
    second piece of [split("/**")] to read the comment from. *)
Theorem parseNewMeta_no_comment pluginCode filename :
  includes "/**" pluginCode = false ->
  parseNewMeta pluginCode filename = Throw TypeError.
Proof.
  intros H. unfold MetaParser.parseNewMeta, metadata_of.
  rewrite (split_by_absent _ _ H). reflexivity.
Qed.

Lemma free_text_throws filename st raw :
  free_text (trim raw) = true -> meta_step filename st raw = Throw TypeError.
Proof.
  unfold free_text. intros H.
  repeat (apply andb_true_iff in H as [H ?]).
  apply negb_true_iff in H.
  repeat match goal with X : negb _ = true |- _ => apply negb_true_iff in X end.
  unfold MetaParser.meta_step. cbv zeta.
  rewrite H.
  match goal with X : startsWith "@description" _ = false |- _ => rewrite X end.
  assert (startsWith "@authorLink" (trim raw) = false) as ->.
  { destruct (startsWith "@authorLink" (trim raw)) eqn:E; [|reflexivity].
    apply (startsWith_prefix "@author" "Link") in E. congruence. }
  assert (startsWith "@authorId" (trim raw) = false) as ->.
  { destruct (startsWith "@authorId" (trim raw)) eqn:E; [|reflexivity].
    apply (startsWith_prefix "@author" "Id") in E. congruence. }
  match goal with X : startsWith "@author" _ = false |- _ => rewrite X end.
  match goal with X : (2 <? _)%nat = true |- _ => rewrite X end.
  assert (String.eqb (trim raw) "" = false) as ->.
  { destruct (trim raw); [discriminate|reflexivity]. }
  cbn [negb andb].
  rewrite split_on_absent by assumption. reflexivity.
Qed.

Lemma meta_loop_throws filename metadata raw :
  raw ∈ metadata ->
  (forall st, exists e, meta_step filename st raw = Throw e) ->
  forall st, exists e, meta_loop filename st metadata = Throw e.
Proof.
  intros Hin Hraw. induction metadata as [|x rest IH]; intros st.
  - inversion Hin.
  - cbn [MetaParser.meta_loop].
    apply elem_of_cons in Hin as [->|Hin].
    + destruct (Hraw st) as [e ->]. eauto.
    + destruct (meta_step filename st x); [apply IH; assumption|eauto].
Qed.

(** X14. A line of the comment that is longer than two characters, starts
    with none of the tags and holds no [@] makes parseNewMeta throw, whatever
    the other lines are: a comment with a sentence of prose is refused. *)
Theorem parseNewMeta_free_text pluginCode filename metadata raw :
  metadata_of pluginCode = Ok metadata ->
  raw ∈ metadata ->
  free_text (trim raw) = true ->
  exists e, parseNewMeta pluginCode filename = Throw e.
Proof.
  intros Hm Hin Hfree. unfold MetaParser.parseNewMeta. rewrite Hm.
  destruct (meta_loop_throws filename metadata raw Hin) with (st := initial_loop)
    as [e ->]; [|eauto].
  intros st. exists TypeError. apply free_text_throws. assumption.
Qed.

Lemma startsWith_word p k v :
  all_chars (fun c => negb (Ascii.eqb c " ")) p = true ->
  startsWith p (k ++ String " " v) = startsWith p k.
Proof.
  revert k. induction p as [|a p IH]; intros k Hp.
  - destruct k; reflexivity.
  - cbn [all_chars] in Hp. apply andb_true_iff in Hp as [Ha Hp].
    apply negb_true_iff in Ha.
    destruct k as [|b k]; str_app; cbn [startsWith].
    + rewrite Ha. reflexivity.
    + rewrite (IH _ Hp). reflexivity.
Qed.

Lemma key_of_line k v :
  all_chars (fun c => negb (Ascii.eqb c " ") && negb (Ascii.eqb c "@")) k = true ->
  List.hd EmptyString
    (split_on " " (List.hd EmptyString (split_on "@" (k ++ String " " v)))) = k.
Proof.
  induction k as [|c k IH]; intros Hk.
  - str_app. cbn [split_on]. change (Ascii.eqb " " "@") with false. cbv iota.
    destruct (split_on "@" v); reflexivity.
  - cbn [all_chars] in Hk. apply andb_true_iff in Hk as [Hc Hk].
    apply andb_true_iff in Hc as [Hc1 Hc2].
    apply negb_true_iff in Hc1, Hc2.
    specialize (IH Hk).
    str_app. cbn [split_on]. rewrite Hc2.
    destruct (split_on "@" (k ++ String " " v)) as [|x xs] eqn:E.
    + cbn [List.hd] in *. cbn [split_on]. rewrite Hc1. cbn [split_on].
      subst k. reflexivity.
    + cbn [List.hd] in *. cbn [split_on]. rewrite Hc1.
      destruct (split_on " " x) as [|y ys]; cbn [List.hd] in *; subst; reflexivity.
Qed.

Lemma split_on_hd_some c s : exists x xs, split_on c s = x :: xs.
Proof.
  destruct s as [|a s]; cbn [split_on]; [eauto|].
  destruct (Ascii.eqb a c); [eauto|].
  destruct (split_on c s); eauto.
Qed.

Lemma drop_chars_app a b :
  drop_chars (String.length a) (a ++ b) = b.
Proof. induction a; [reflexivity|assumption]. Qed.

Lemma assoc_get_set_same kvs k v : assoc_get (assoc_set kvs k v) k = Some v.
Proof.
  induction kvs as [|[k' v'] rest IH]; cbn [assoc_set assoc_get].
  - rewrite String.eqb_refl. reflexivity.
  - destruct (String.eqb k' k) eqn:E; cbn [assoc_get]; rewrite E; auto.
Qed.

Lemma assoc_get_set_other kvs k v k' :
  k' <> k -> assoc_get (assoc_set kvs k v) k' = assoc_get kvs k'.
Proof.
  intros Hne. induction kvs as [|[k0 v0] rest IH]; cbn [assoc_set assoc_get].
  - destruct (String.eqb_spec k k'); [congruence|reflexivity].
  - destruct (String.eqb_spec k0 k); cbn [assoc_get].
    + subst k0. destruct (String.eqb_spec k k'); [congruence|reflexivity].
    + destruct (String.eqb k0 k'); auto.
Qed.

Ltac key_cases k :=
  destruct (String.eqb_spec k "name") as [->|?];
  [|destruct (String.eqb_spec k "id") as [->|?];
  [|destruct (String.eqb_spec k "description") as [->|?];
  [|destruct (String.eqb_spec k "authors") as [->|?];
  [|destruct (String.eqb_spec k "version") as [->|?];
  [|destruct (String.eqb_spec k "__proto__") as [->|?]]]]]].

Lemma field_get_set_same rm k v :
  k <> "__proto__" -> get_field (set_field rm k v) k = Some v.
Proof.
  intros Hp. unfold set_field, get_field.
  key_cases k; try reflexivity; try congruence.
  cbn. apply assoc_get_set_same.
Qed.

Lemma field_get_set_other rm k v k' :
  k' <> k -> get_field (set_field rm k v) k' = get_field rm k'.
Proof.
  intros Hne. unfold set_field, get_field.
  key_cases k; key_cases k'; try reflexivity; try congruence;
    cbn; apply assoc_get_set_other; assumption.
Qed.

Lemma rm_id_set_field rm k v :
  k <> "id" -> rm_id (set_field rm k v) = rm_id rm.
Proof.
  intros Hne. unfold set_field. key_cases k; try reflexivity; congruence.
Qed.

Lemma rm_authors_set_field rm k v :
  k <> "authors" -> rm_authors (set_field rm k v) = rm_authors rm.
Proof.
  intros Hne. unfold set_field. key_cases k; try reflexivity; congruence.
Qed.

(** One turn of the loop on a plain tag. *)
Lemma meta_step_tag filename st raw t :
  trim raw = tag_line t ->
  plain_tag t = true ->
  exists st',
    meta_step filename st raw = Ok st'
    /\ authorNames st' = authorNames st
    /\ rm_authors (resultMeta st') = rm_authors (resultMeta st)
    /\ get_field (resultMeta st') (fst t) = Some (stored t)
    /\ (fst t = "name" -> rm_id (resultMeta st') = stored t)
    /\ (fst t <> "name" -> rm_id (resultMeta st') = rm_id (resultMeta st))
    /\ (forall k, k <> fst t -> k <> "id" ->
          get_field (resultMeta st') k = get_field (resultMeta st) k).
Proof.
  destruct t as [k v]. unfold tag_line, plain_tag, stored. cbn [fst snd].
  intros Hraw Hplain. apply andb_true_iff in Hplain as [Hword Hplain].
  unfold word in Hword. apply andb_true_iff in Hword as [Hk Hchars].
  unfold MetaParser.meta_step. cbv zeta. rewrite Hraw.
  destruct (String.eqb_spec k "name") as [->|Hname].
  { apply andb_true_iff in Hplain as [Hv Hinc]. apply negb_true_iff in Hinc.
    change (startsWith "@name" ("@" ++ "name" ++ " " ++ v)) with true. cbv iota.
    assert (split_by "@name" ("@" ++ "name" ++ " " ++ v) !! 1%nat
            = Some (String " " v)) as ->.
    { pose proof (split_by_absent _ _ Hinc) as Hsplit.
      unfold split_by in *. str_app. cbn. rewrite Hsplit. reflexivity. }
    change (" " ++ v)%string with (String " " v) in *.
    rewrite Hv. eexists. split; [reflexivity|].
    cbn. repeat split; try reflexivity; try congruence.
    intros k Hk1 Hk2. unfold get_field. cbn.
    destruct (String.eqb_spec k "name"); [congruence|].
    destruct (String.eqb_spec k "id"); [congruence|]. reflexivity. }
  destruct (String.eqb_spec k "description") as [->|Hdesc].
  { apply negb_true_iff in Hplain.
    change (startsWith "@name" ("@" ++ "description" ++ " " ++ v)) with false.
    change (startsWith "@description" ("@" ++ "description" ++ " " ++ v)) with true.
    cbv iota.
    assert (split_by "@description " ("@" ++ "description" ++ " " ++ v) !! 1%nat
            = Some v) as ->.
    { pose proof (split_by_absent _ _ Hplain) as Hsplit.
      unfold split_by in *. str_app. cbn. rewrite Hsplit. reflexivity. }
    eexists. split; [reflexivity|].
    cbn. repeat split; try reflexivity; try congruence.
    intros k Hk1 Hk2. unfold get_field. cbn.
    destruct (String.eqb_spec k "name"); [reflexivity|].
    destruct (String.eqb_spec k "id"); [reflexivity|].
    destruct (String.eqb_spec k "description"); [congruence|]. reflexivity. }
  repeat (apply andb_true_iff in Hplain as [Hplain ?]).
  repeat match goal with X : negb _ = true |- _ => apply negb_true_iff in X end.
  assert (Hsw : forall p, all_chars (fun c => negb (Ascii.eqb c " ")) p = true ->
            startsWith (String "@" p) ("@" ++ k ++ " " ++ v) = startsWith p k).
  { intros p Hp. change ("@" ++ k ++ " " ++ v) with (String "@" (k ++ String " " v)).
    cbn [startsWith]. rewrite Ascii.eqb_refl. cbn [andb].
    apply startsWith_word. assumption. }
  rewrite (Hsw "name") by reflexivity. rewrite Hplain.
  rewrite (Hsw "description") by reflexivity.
  match goal with X : startsWith "description" k = false |- _ => rewrite X end.
  assert (Hauthor : startsWith "@author" ("@" ++ k ++ " " ++ v) = false).
  { rewrite (Hsw "author") by reflexivity. assumption. }
  assert (startsWith "@authorLink" ("@" ++ k ++ " " ++ v) = false) as ->.
  { destruct (startsWith "@authorLink" _) eqn:E; [|reflexivity].
    apply (startsWith_prefix "@author" "Link") in E. congruence. }
  assert (startsWith "@authorId" ("@" ++ k ++ " " ++ v) = false) as ->.
  { destruct (startsWith "@authorId" _) eqn:E; [|reflexivity].
    apply (startsWith_prefix "@author" "Id") in E. congruence. }
  rewrite Hauthor.
  assert (negb (String.eqb ("@" ++ k ++ " " ++ v) "")
          && (2 <? String.length ("@" ++ k ++ " " ++ v))%nat = true) as ->.
  { destruct k as [|c k]; [discriminate|]. destruct k; reflexivity. }
  change ("@" ++ k ++ " " ++ v) with (String "@" (k ++ String " " v)).
  cbn [split_on]. change (Ascii.eqb "@" "@") with true. cbv iota.
  destruct (split_on_hd_some "@" (k ++ String " " v)) as (x & xs & Hx).
  pose proof (key_of_line k v Hchars) as Hkey. rewrite Hx in Hkey |- *.
  cbn [List.hd] in Hkey.
  change ((EmptyString :: x :: xs) !! 1%nat) with (Some x).
  cbv beta iota zeta. rewrite Hkey.
  assert (drop_chars (String.length k + 2) (String "@" (k ++ String " " v)) = v) as ->.
  { replace (String.length k + 2)%nat with (S (String.length (k ++ " "))).
    - cbn [drop_chars].
      replace (k ++ String " " v) with ((k ++ " ") ++ v).
      + apply drop_chars_app.
      + clear. induction k as [|c k IH]; str_app; [reflexivity|].
        f_equal. exact IH.
    - clear. induction k as [|c k IH]; str_app; cbn [String.length] in *; lia. }
  assert (Hid : k <> "id") by (intros ->; discriminate).
  assert (Hproto : k <> "__proto__") by (intros ->; discriminate).
  assert (Hauthors : k <> "authors") by (intros ->; discriminate).
  eexists. split; [reflexivity|].
  cbn [authorNames resultMeta].
  destruct (String.eqb_spec k "name"); [congruence|].
  repeat split.
  - apply rm_authors_set_field. assumption.
  - apply field_get_set_same. assumption.
  - congruence.
  - intros _. apply rm_id_set_field. assumption.
  - intros k' Hk1 Hk2. apply field_get_set_other. assumption.
Qed.

Lemma meta_loop_tags filename tags :
  forall metadata st,
    map trim metadata = map tag_line tags ->
    NoDup (map fst tags) ->
    forallb plain_tag tags = true ->
    exists st',
      meta_loop filename st metadata = Ok st'
      /\ authorNames st' = authorNames st
      /\ rm_authors (resultMeta st') = rm_authors (resultMeta st)
      /\ (forall t, t ∈ tags ->
            get_field (resultMeta st') (fst t) = Some (stored t)
            /\ (fst t = "name" -> rm_id (resultMeta st') = stored t))
      /\ ("name" ∉ map fst tags ->
            rm_id (resultMeta st') = rm_id (resultMeta st))
      /\ (forall k, k ∉ map fst tags -> k <> "id" ->
            get_field (resultMeta st') k = get_field (resultMeta st) k).
Proof.
  induction tags as [|t tags IH]; intros metadata st Hmap Hnd Hplain.
  - destruct metadata; [|discriminate]. exists st. cbn.
    split; [reflexivity|]. split; [reflexivity|]. split; [reflexivity|].
    split; [intros t0 Ht; inversion Ht|]. split; intros; reflexivity.
  - destruct metadata as [|raw metadata]; [discriminate|].
    cbn [map] in Hmap. injection Hmap as Hraw Hmap.
    cbn [forallb] in Hplain. apply andb_true_iff in Hplain as [Ht Hplain].
    cbn [map] in Hnd. apply NoDup_cons in Hnd as [Hnotin Hnd].
    destruct (meta_step_tag filename st raw t Hraw Ht)
      as (st1 & Hstep & Hn1 & Ha1 & Hg1 & Hi1 & Hi1' & Hf1).
    destruct (IH metadata st1 Hmap Hnd Hplain)
      as (st' & Hloop & Hn & Ha & Hg & Hi & Hf).
    exists st'. cbn [MetaParser.meta_loop]. rewrite Hstep.
    split; [exact Hloop|]. split; [congruence|]. split; [congruence|].
    assert (Hidt : fst t <> "id").
    { destruct t as [k v]. cbn [fst]. intros ->.
      cbv in Ht. discriminate. }
    split; [|split].
    + intros t' Hin. apply elem_of_cons in Hin as [->|Hin]; [|apply Hg; exact Hin].
      split.
      * rewrite (Hf (fst t) Hnotin Hidt). exact Hg1.
      * intros Hname. rewrite Hi; [apply Hi1; exact Hname|].
        rewrite <- Hname. exact Hnotin.
    + intros Hno. cbn [map] in Hno. apply not_elem_of_cons in Hno as [Hne Hno].
      rewrite (Hi Hno). apply Hi1'. congruence.
    + intros k Hno Hkid. cbn [map] in Hno.
      apply not_elem_of_cons in Hno as [Hne Hno].
      rewrite (Hf k Hno Hkid). apply Hf1; assumption.
Qed.

(** X15. A comment whose lines are plain tags [@key value] with distinct
    keys is read back as written: parseNewMeta returns, with the number of
    lines plus three, an object that holds under every key its value
    (trimmed for [@name], which also gives the id) and no author. *)
Theorem parseNewMeta_plain_tags pluginCode filename metadata tags :
  metadata_of pluginCode = Ok metadata ->
  map trim metadata = map tag_line tags ->
  NoDup (map fst tags) ->
  forallb plain_tag tags = true ->
  exists rm,
    parseNewMeta pluginCode filename = Ok (rm, (List.length tags + 3)%nat)
    /\ rm_authors rm = AuthorList []
    /\ (forall t, t ∈ tags ->
          get_field rm (fst t) = Some (stored t)
          /\ (fst t = "name" -> rm_id rm = stored t))
    /\ ("name" ∉ map fst tags -> rm_name rm = "" /\ rm_id rm = "").
Proof.
  intros Hm Hmap Hnd Hplain.
  destruct (meta_loop_tags filename tags metadata initial_loop Hmap Hnd Hplain)
    as (st' & Hloop & Hn & Ha & Hg & Hi & Hf).
  exists (resultMeta st').
  unfold MetaParser.parseNewMeta. rewrite Hm, Hloop.
  unfold push_authors. rewrite Hn. cbn [authorNames initial_loop].
  assert (List.length metadata = List.length tags) as ->.
  { rewrite <- (length_map trim metadata), Hmap. apply length_map. }
  split; [reflexivity|]. split; [exact Ha|]. split; [exact Hg|].
  intros Hno. split; [|apply Hi; exact Hno].
  specialize (Hf "name" Hno). unfold get_field in Hf. cbn in Hf.
  assert (Some (rm_name (resultMeta st')) = Some "") as [= ->]
    by (apply Hf; discriminate).
  reflexivity.
Qed.

End ParserFacts.

Lemma parseNewMeta_plain_tags_witness :
  exists rm,
    parseNewMeta no_basename no_BigInt sample_header "Sample.plugin.js"
    = Ok (rm, 6%nat)
    /\ rm_authors rm = AuthorList []
    /\ (forall t, t ∈ [("name", "Sample Plugin"); ("version", "1.2.3");
                       ("description", "Does things.")] ->
          get_field rm (fst t) = Some (stored t)
          /\ (fst t = "name" -> rm_id rm = stored t))
    /\ ("name" ∉ map fst [("name", "Sample Plugin"); ("version", "1.2.3");
                          ("description", "Does things.")] ->
        rm_name rm = "" /\ rm_id rm = "").
Proof.
  apply (parseNewMeta_plain_tags no_basename no_BigInt sample_header
           "Sample.plugin.js"
           [" @name Sample Plugin "; " @version 1.2.3 ";
            " @description Does things. "]
           [("name", "Sample Plugin"); ("version", "1.2.3");
            ("description", "Does things.")]).
  - vm_compute. reflexivity.
  - vm_compute. reflexivity.
  - apply (bool_decide_unpack _). vm_compute. exact I.
  - vm_compute. reflexivity.
Defined.

Lemma parseNewMeta_no_comment_witness :
  parseNewMeta no_basename no_BigInt "module.exports = class {};" "P.plugin.js"
  = Throw TypeError.
Proof. apply parseNewMeta_no_comment. reflexivity. Defined.

Lemma parseNewMeta_free_text_witness :
  exists e, parseNewMeta no_basename no_BigInt prose_header "P.plugin.js"
            = Throw e.
Proof.
  apply (parseNewMeta_free_text no_basename no_BigInt prose_header "P.plugin.js"
           [" A plugin that does things. "; " @name Sample Plugin "]
           " A plugin that does things. ").
  - vm_compute. reflexivity.
  - apply elem_of_cons. left. reflexivity.
  - vm_compute. reflexivity.
Defined.

End MetaParserFacts.

(** ** Persistent data: round trips *)
Module PersistenceFacts.
Import JS Data Persistence.

Section DataHolderRoundTrips.
Variable Engine : Type.
Variable JSON_parse : string -> option Cached.
Variable JSON_stringify : Engine -> Cached -> Result (option string).
Variable ToString : JSValue -> string.
Variable Object_prototype : JSValue.
Variable get_inherited : Engine -> JSValue -> string -> Result JSValue.
Variable assign_inherited :
  Engine -> JSValue -> string -> JSValue -> Assignment Engine.
Variable get_property : Engine -> JSValue -> string -> Result JSValue.
Variable set_property :
  Engine -> JSValue -> string -> JSValue -> Result unit * Engine.
Variable write_undefined :
  string -> gmap string string -> Result unit * gmap string string.

Abbreviation latestDataCheck :=
  (latestDataCheck Engine JSON_parse Object_prototype get_inherited).
Abbreviation load :=
  (load Engine JSON_parse ToString Object_prototype get_inherited get_property).
Abbreviation save :=
  (save Engine JSON_parse JSON_stringify ToString Object_prototype
        get_inherited assign_inherited set_property write_undefined).
Abbreviation entries_of := (entries_of (Engine := Engine) JSON_parse Object_prototype).
Abbreviation cached := (cached Engine Object_prototype get_inherited).

(** What [latestDataCheck] leaves in the cache for a label under which
    nothing is inherited and whose entries are a plain object. *)
Lemma latestDataCheck_plain key (st : Store Engine) own proto :
  is_Some (pluginData st !! key)
  \/ get_inherited (engine st) Object_prototype key = Ok VUndefined ->
  entries_of key st = Plain own proto ->
  exists st1,
    latestDataCheck key st = (Ok tt, st1)
    /\ pluginData st1 = <[key := Plain own proto]> (pluginData st)
    /\ engine st1 = engine st
    /\ disk st1 = disk st
    /\ cached key st1 = Ok (Plain own proto).
Proof.
  intros Hlabel Hentries.
  unfold Persistence.entries_of in Hentries.
  unfold Data.latestDataCheck, Data.cached.
  destruct (pluginData st !! key) as [c|] eqn:Hc.
  - subst c. cbn. exists st. rewrite Hc.
    repeat split; try done. by rewrite insert_id.
  - destruct Hlabel as [[? ?]|Hnone]; [done|]. rewrite Hnone. cbn.
    unfold empty_object.
    destruct (disk st !! config_path key) as [text|]; cbn in *.
    + destruct (JSON_parse text) as [parsed|]; cbn in *; simplify_eq;
        eexists; (split; [reflexivity|]); cbn;
        by rewrite lookup_insert_eq.
    + simplify_eq. eexists; (split; [reflexivity|]); cbn.
      by rewrite lookup_insert_eq.
Qed.


Lemma load_eval key value (st : Store Engine) own proto :
  truthy key = true -> truthy value = true ->
  is_Some (pluginData st !! ToString key)
  \/ get_inherited (engine st) Object_prototype (ToString key) = Ok VUndefined ->
  entries_of (ToString key) st = Plain own proto ->
  fst (load key value st)
  = match own !! ToString value with
    | Some v => Ok v
    | None => get_inherited (engine st) proto (ToString value)
    end.
Proof.
  intros Hk Hv Hlabel Hentries. unfold Data.load. rewrite Hk, Hv. cbn.
  destruct (latestDataCheck_plain _ _ _ _ Hlabel Hentries)
    as (st1 & -> & _ & He & _ & ->).
  cbn. by rewrite He.
Qed.

(** What [save] does under a label under which nothing is inherited, whose
    entries are a plain object that owns the key or can be given it. *)
Lemma save_eval key value data (st : Store Engine) own proto :
  truthy key = true -> truthy value = true -> truthy data = true ->
  is_Some (pluginData st !! ToString key)
  \/ get_inherited (engine st) Object_prototype (ToString key) = Ok VUndefined ->
  entries_of (ToString key) st = Plain own proto ->
  is_Some (own !! ToString value)
  \/ assign_inherited (engine st) proto (ToString value) data = Creates ->
  let stored := Plain (<[ToString value := data]> own) proto in
  let run := save key value data st in
  pluginData (snd run) = <[ToString key := stored]> (pluginData st)
  /\ engine (snd run) = engine st
  /\ (fst run, disk (snd run))
     = match JSON_stringify (engine st) stored with
       | Throw e => (Throw e, disk st)
       | Ok (Some text) =>
           (Ok tt, <[config_path (ToString key) := text]> (disk st))
       | Ok None => write_undefined (config_path (ToString key)) (disk st)
       end.
Proof.
  intros Hk Hv Hd Hlabel Hentries Hkey stored run. subst run.
  unfold Data.save. rewrite Hk, Hv, Hd. cbn.
  destruct (latestDataCheck_plain _ _ _ _ Hlabel Hentries)
    as (st1 & -> & Hp & He & Hdisk & ->).
  assert (Hwrite : write_entry Engine assign_inherited set_property
                     (Plain own proto) (ToString value) data (engine st1)
                   = (Ok tt, stored, engine st)).
  { unfold write_entry. rewrite He.
    destruct Hkey as [[v ->]| ->]; [reflexivity|].
    by destruct (own !! ToString value). }
  rewrite Hwrite.
  unfold Data.cached. cbn. rewrite Hp.
  rewrite lookup_alter_eq, lookup_insert_eq. cbn.
  rewrite alter_insert_eq.
  destruct (JSON_stringify (engine st) stored) as [[text|]|e]; cbn.
  - by rewrite Hdisk.
  - rewrite Hdisk.
    by destruct (write_undefined (config_path (ToString key)) (disk st)).
  - by rewrite Hdisk.
Qed.

(** X16. Under a label under which nothing is inherited and whose entries
    are a plain object that owns the key or can be given it, what [save]
    stores under the key, [load] gives back, from the cache and without a
    file system call, whether or not the text of the entries could be
    written; the other keys of the label read as before the [save]. *)
Theorem save_then_load key value data (st : Store Engine) own proto :
  truthy key = true -> truthy value = true -> truthy data = true ->
  is_Some (pluginData st !! ToString key)
  \/ get_inherited (engine st) Object_prototype (ToString key) = Ok VUndefined ->
  entries_of (ToString key) st = Plain own proto ->
  is_Some (own !! ToString value)
  \/ assign_inherited (engine st) proto (ToString value) data = Creates ->
  let st' := snd (save key value data st) in
  load key value st' = (Ok data, st')
  /\ (forall value', truthy value' = true ->
        ToString value' <> ToString value ->
        fst (load key value' st') = fst (load key value' st)).
Proof.
  intros Hk Hv Hd Hlabel Hentries Hkey st'.
  destruct (save_eval key value data st own proto Hk Hv Hd Hlabel Hentries Hkey)
    as (Hp & He & _).
  fold st' in Hp, He.
  assert (Hcached : pluginData st' !! ToString key
                    = Some (Plain (<[ToString value := data]> own) proto))
    by (by rewrite Hp, lookup_insert_eq).
  split.
  - unfold Data.load, Data.latestDataCheck, Data.cached.
    rewrite Hk, Hv, Hcached. cbn. rewrite Hcached. cbn.
    by rewrite lookup_insert_eq.
  - intros value' Hv' Hne.
    rewrite (load_eval key value' st' (<[ToString value := data]> own) proto
               Hk Hv');
      [|left; by rewrite Hcached
       |unfold Persistence.entries_of; by rewrite Hcached].
    rewrite (load_eval key value' st own proto Hk Hv' Hlabel Hentries).
    by rewrite lookup_insert_ne, He.
Qed.

(** X17. Saved data survive a restart: under such a label, when the engine
    makes a text of the label's entries and parses that text back to a
    plain object that holds the data under the key, [save] returns, and a
    session that starts with an empty cache on the same disk, in which
    nothing is inherited under the label, loads the saved value. *)
Theorem saved_data_survive_restart key value data (st : Store Engine)
    own proto text own' proto' e :
  truthy key = true -> truthy value = true -> truthy data = true ->
  is_Some (pluginData st !! ToString key)
  \/ get_inherited (engine st) Object_prototype (ToString key) = Ok VUndefined ->
  entries_of (ToString key) st = Plain own proto ->
  is_Some (own !! ToString value)
  \/ assign_inherited (engine st) proto (ToString value) data = Creates ->
  JSON_stringify (engine st) (Plain (<[ToString value := data]> own) proto)
  = Ok (Some text) ->
  JSON_parse text = Some (Plain own' proto') ->
  own' !! ToString value = Some data ->
  get_inherited e Object_prototype (ToString key) = Ok VUndefined ->
  let run := save key value data st in
  fst run = Ok tt
  /\ fst (load key value (restarted e (snd run))) = Ok data.
Proof.
  intros Hk Hv Hd Hlabel Hentries Hkey Htext Hparse Hdata Hfresh run.
  destruct (save_eval key value data st own proto Hk Hv Hd Hlabel Hentries Hkey)
    as (_ & _ & Hrun).
  fold run in Hrun. rewrite Htext in Hrun. injection Hrun as Hres Hdisk.
  split; [assumption|].
  rewrite (load_eval key value (restarted e (snd run)) own' proto' Hk Hv).
  - by rewrite Hdata.
  - by right.
  - unfold Persistence.entries_of. cbn [restarted pluginData disk].
    by rewrite lookup_empty, Hdisk, lookup_insert_eq, Hparse.
Qed.



End DataHolderRoundTrips.

Lemma save_then_load_witness :
  let st' := snd (Sample.save (fun _ => None) (VString "P") (VString "j")
                    (VString "new") Sample.store) in
  Sample.load (fun _ => None) (VString "P") (VString "j") st'
  = (Ok (VString "new"), st')
  /\ (forall value', truthy value' = true ->
        Sample.ToString value' <> Sample.ToString (VString "j") ->
        fst (Sample.load (fun _ => None) (VString "P") value' st')
        = fst (Sample.load (fun _ => None) (VString "P") value' Sample.store)).
Proof.
  apply (save_then_load unit (fun _ => None) Sample.JSON_stringify
           Sample.ToString Sample.Object_prototype Sample.get_inherited
           Sample.assign_inherited Sample.get_property Sample.set_property
           Sample.write_undefined
           (VString "P") (VString "j") (VString "new") Sample.store
           {[ "k" := VString "old" ]} Sample.Object_prototype);
    try reflexivity.
  - left. eexists. vm_compute. reflexivity.
  - right. reflexivity.
Defined.

Lemma saved_data_survive_restart_witness :
  let run := Sample.save (fun _ => Some sample_entries) (VString "Q")
               (VString "k") (VString "new") Sample.store in
  fst run = Ok tt
  /\ fst (Sample.load (fun _ => Some sample_entries) (VString "Q")
            (VString "k") (restarted tt (snd run)))
     = Ok (VString "new").
Proof.
  apply (saved_data_survive_restart unit (fun _ => Some sample_entries)
           Sample.JSON_stringify
           Sample.ToString Sample.Object_prototype Sample.get_inherited
           Sample.assign_inherited Sample.get_property Sample.set_property
           Sample.write_undefined
           (VString "Q") (VString "k") (VString "new") Sample.store
           ∅ Sample.Object_prototype "{}"
           {[ "k" := VString "new" ]} Sample.Object_prototype tt);
    try reflexivity.
  - right. reflexivity.
  - right. reflexivity.
Defined.


End PersistenceFacts.

(** ** Helpers of the facade *)
Module HelpersFacts.
Import JS Text Helpers MetaParserFacts.
Local Open Scope string_scope.

Lemma split_on_app c a b :
  split_on c (a ++ String c b) = (split_on c a ++ split_on c b)%list.
Proof.
  induction a as [|x a IH]; str_app; cbn [split_on].
  - rewrite Ascii.eqb_refl. reflexivity.
  - rewrite IH. destruct (Ascii.eqb x c); [reflexivity|].
    destruct (split_on_hd_some c a) as (y & ys & ->). reflexivity.
Qed.

Section GetNestedValueFacts.
Variable get_prop : JSValue -> string -> JSValue.
Abbreviation getNestedValue := (getNestedValue get_prop).
Abbreviation getNestedValue_loop := (getNestedValue_loop get_prop).

Lemma getNestedValue_loop_app current l1 l2 :
  l2 <> [] ->
  getNestedValue_loop current (l1 ++ l2)%list
  = getNestedValue_loop (getNestedValue_loop current l1) l2.
Proof.
  intros Hl2. revert current. induction l1 as [|p l1 IH]; intros current.
  - reflexivity.
  - cbn [app Helpers.getNestedValue_loop].
    destruct (nullish current); [|apply IH].
    destruct l2; [congruence|reflexivity].
Qed.

(** X19. getNestedValue follows a dotted path one property at a time:
    reading [p.q] is reading [q] in what reading [p] gives, and the answer
    is [undefined], never an exception, as soon as a value on the way is
    [null] or [undefined]. *)
Theorem getNestedValue_compose obj p q :
  getNestedValue obj (p ++ "." ++ q)
  = getNestedValue (getNestedValue obj p) q
  /\ (nullish (getNestedValue obj p) = true ->
      getNestedValue obj (p ++ "." ++ q) = VUndefined).
Proof.
  assert (Heq : getNestedValue obj (p ++ "." ++ q)
                = getNestedValue (getNestedValue obj p) q).
  { unfold Helpers.getNestedValue.
    change (p ++ "." ++ q) with (p ++ String "." q).
    rewrite split_on_app. apply getNestedValue_loop_app.
    destruct (split_on_hd_some "." q) as (x & xs & ->). discriminate. }
  split; [exact Heq|].
  intros Hnull. rewrite Heq. unfold Helpers.getNestedValue at 1.
  destruct (split_on_hd_some "." q) as (x & xs & ->).
  cbn [Helpers.getNestedValue_loop]. rewrite Hnull. reflexivity.
Qed.
End GetNestedValueFacts.

Lemma replace_runs_id_chars b s :
  all_chars is_id_char (replace_runs b s) = true.
Proof.
  revert b. induction s as [|c s IH]; intros b; [reflexivity|].
  cbn [replace_runs]. destruct (is_id_char c) eqn:Hc.
  - cbn [all_chars]. rewrite Hc, IH. reflexivity.
  - destruct b; [apply IH|]. cbn [all_chars]. rewrite IH. reflexivity.
Qed.

Lemma replace_runs_fixed b s :
  all_chars is_id_char s = true -> replace_runs b s = s.
Proof.
  revert b. induction s as [|c s IH]; intros b H; [reflexivity|].
  cbn [all_chars] in H. apply andb_true_iff in H as [Hc H].
  cbn [replace_runs]. rewrite Hc, (IH _ H). reflexivity.
Qed.

Lemma span_chars_rest p s lead rest :
  span_chars p s = (lead, rest) ->
  match rest with
  | EmptyString => True
  | String c _ => p c = false
  end
  /\ (lead = EmptyString -> rest = s).
Proof.
  revert lead rest. induction s as [|c s IH]; intros lead rest H.
  - injection H as <- <-. auto.
  - cbn [span_chars] in H. destruct (p c) eqn:Hc.
    + destruct (span_chars p s) as [a b]. injection H as <- <-.
      destruct (IH a b eq_refl) as [H1 _]. split; [exact H1|discriminate].
    + injection H as <- <-. auto.
Qed.

Lemma is_letter_id_char c : is_letter c = true -> is_id_char c = true.
Proof. unfold is_id_char. intros ->. reflexivity. Qed.

(** X20. The id that addStyle, removeStyle, injectScript and removeScript
    look for holds only letters, digits, [_] and [-], starts with a letter
    or with [-], and is left as it is by a second pass: an id that was
    cleaned once names the same element again. *)
Theorem sanitize_spec id :
  all_chars is_id_char (sanitize id) = true
  /\ sanitize (sanitize id) = sanitize id
  /\ match sanitize id with
     | EmptyString => id = EmptyString
     | String c _ => is_letter c = true \/ c = "-"%char
     end.
Proof.
  unfold sanitize at 1 3 4 5.
  destruct (span_chars (fun c => negb (is_letter c)) id) as [lead rest] eqn:E.
  destruct (span_chars_rest _ _ _ _ E) as [Hrest Hlead].
  destruct lead as [|l lead].
  - specialize (Hlead eq_refl). subst rest.
    split; [apply replace_runs_id_chars|].
    destruct id as [|c s]; [split; reflexivity|].
    apply negb_false_iff in Hrest.
    cbn [replace_runs]. rewrite (is_letter_id_char c Hrest).
    split; [|left; exact Hrest].
    unfold sanitize. cbn [span_chars]. rewrite Hrest. cbn [negb].
    apply replace_runs_fixed.
    cbn [all_chars].
    rewrite (is_letter_id_char c Hrest), replace_runs_id_chars. reflexivity.
  - split; [cbn [all_chars]; rewrite replace_runs_id_chars; reflexivity|].
    split; [|right; reflexivity].
    unfold sanitize. cbn [span_chars]. change (negb (is_letter "-")) with true.
    cbv iota.
    destruct rest as [|c s].
    + reflexivity.
    + apply negb_false_iff in Hrest.
      cbn [replace_runs]. rewrite (is_letter_id_char c Hrest).
      cbn [span_chars]. rewrite Hrest. cbn [negb].
      f_equal. apply replace_runs_fixed.
      cbn [all_chars].
      rewrite (is_letter_id_char c Hrest), replace_runs_id_chars. reflexivity.
Qed.

Lemma append_assoc (a b c : string) : (a ++ b) ++ c = a ++ b ++ c.
Proof. induction a as [|x a IH]; str_app; [reflexivity|]. f_equal. exact IH. Qed.

Lemma length_append (a b : string) :
  String.length (a ++ b) = (String.length a + String.length b)%nat.
Proof.
  induction a as [|x a IH]; str_app; [reflexivity|].
  change (S (String.length (a ++ b)) = S (String.length a + String.length b)).
  rewrite IH. reflexivity.
Qed.

Lemma startsWith_app p x : startsWith p (p ++ x) = true.
Proof.
  induction p as [|c p IH]; str_app; [destruct x; reflexivity|].
  cbn [startsWith]. rewrite Ascii.eqb_refl, IH. reflexivity.
Qed.

Lemma includes_mid p x y : includes p (x ++ p ++ y) = true.
Proof.
  induction x as [|c x IH]; str_app.
  - destruct (p ++ y) as [|c s] eqn:E; cbn [includes]; rewrite <- E;
      rewrite startsWith_app; reflexivity.
  - cbn [includes]. rewrite IH. apply orb_true_r.
Qed.

Lemma startsWith_short p w z :
  (String.length p <= String.length w)%nat ->
  startsWith p (w ++ z) = startsWith p w.
Proof.
  revert w. induction p as [|c p IH]; intros w Hl.
  - destruct w, z; reflexivity.
  - destruct w as [|d w]; [inversion Hl|]. str_app. cbn [startsWith].
    rewrite IH; [reflexivity|].
    change (S (String.length p) <= S (String.length w))%nat in Hl. lia.
Qed.

Lemma replace_first_unfold pat rep s :
  replace_first pat rep s
  = if startsWith pat s then rep ++ drop_chars (String.length pat) s
    else match s with
         | EmptyString => EmptyString
         | String c s' => String c (replace_first pat rep s')
         end.
Proof. destruct s; reflexivity. Qed.

(** The first occurrence of a pattern is the one that nothing precedes. *)
Lemma replace_first_at pat c rep x y :
  includes (pat ++ String c EmptyString) (x ++ pat) = false ->
  replace_first (pat ++ String c EmptyString) rep
    (x ++ (pat ++ String c EmptyString) ++ y)
  = x ++ rep ++ y.
Proof.
  induction x as [|a x IH]; intros H; str_app.
  - rewrite replace_first_unfold, startsWith_app, drop_chars_app. reflexivity.
  - change (includes (pat ++ String c EmptyString) (String a (x ++ pat)) = false)
      in H.
    cbn [includes] in H. apply orb_false_iff in H as [H1 H2].
    rewrite replace_first_unfold.
    assert (startsWith (pat ++ String c EmptyString)
              (String a (x ++ (pat ++ String c EmptyString) ++ y)) = false) as ->.
    { rewrite <- H1.
      change (String a (x ++ (pat ++ String c EmptyString) ++ y))
        with (String a x ++ (pat ++ String c EmptyString) ++ y).
      rewrite (append_assoc pat), <- (append_assoc (String a x)).
      apply startsWith_short.
      change (String.length (pat ++ String c EmptyString)
              <= S (String.length (x ++ pat)))%nat.
      rewrite !length_append.
      change (String.length (String c EmptyString)) with 1%nat. lia. }
    rewrite (IH H2). reflexivity.
Qed.

(** X21. fixGhRaw turns the address of a raw file on github.com,
    [https://github.com/<a>/raw/<b>], into the one on
    raw.githubusercontent.com, [.../<a>/<b>], when the [/raw/] before [<b>]
    is the first one of the address. *)
Theorem fixGhRaw_rewrites a b :
  includes "/raw/" ("/" ++ a ++ "/raw") = false ->
  fixGhRaw ("https://github.com/" ++ a ++ "/raw/" ++ b)
  = "https://raw.githubusercontent.com/" ++ a ++ "/" ++ b.
Proof.
  intros H. unfold fixGhRaw.
  rewrite startsWith_app.
  assert (includes "/raw/" ("https://github.com/" ++ a ++ "/raw/" ++ b) = true)
    as ->.
  { rewrite <- (append_assoc "https://github.com/" a). apply includes_mid. }
  cbn [andb].
  rewrite (replace_first_unfold "https://github.com/"), startsWith_app.
  rewrite (drop_chars_app "https://github.com/").
  rewrite <- (append_assoc "https://raw.githubusercontent.com/" a).
  pose proof (replace_first_at "/raw" "/" "/"
                ("https://raw.githubusercontent.com/" ++ a) b) as Hfirst.
  change ("/raw" ++ String "/" EmptyString) with "/raw/" in Hfirst.
  rewrite Hfirst.
  - rewrite append_assoc. reflexivity.
  - rewrite append_assoc.
    set (w := "/" ++ a ++ "/raw") in H.
    change ("https://raw.githubusercontent.com/" ++ a ++ "/raw")
      with ("https://raw.githubusercontent.com" ++ w).
    clearbody w. str_app. cbn [includes startsWith]. cbn. exact H.
Qed.

Lemma fixGhRaw_rewrites_witness :
  fixGhRaw "https://github.com/org/repo/raw/main/P.plugin.js"
  = "https://raw.githubusercontent.com/org/repo/main/P.plugin.js".
Proof. apply (fixGhRaw_rewrites "org/repo" "main/P.plugin.js"). reflexivity. Defined.

End HelpersFacts.

(** ** The plugin itself and the [crypto] shim *)
Module IndexFacts.
Import JS Text Index.
Local Open Scope string_scope.

(** X22. [stop] never completes: what it does before it removes
    [window.BdApi] may throw, and the call on [getGlobalApi()] that follows
    the removal throws; so [stop] removes no [bd-flex-styles] style and
    disables no theme. *)
Theorem stop_rejects teardown p :
  exists e,
    fst (stop teardown p) = Throw e
    /\ calls (snd (stop teardown p)) = calls (snd (teardown p))
    /\ themes (snd (stop teardown p)) = themes (snd (teardown p)).
Proof.
  unfold stop. destruct (teardown p) as [[[]|e] p1]; cbn; eauto.
Qed.

Lemma fold_append_acc (f : Byte.byte -> string) out acc :
  fold_left (fun s b => (s ++ f b)%string) out acc
  = (acc ++ fold_left (fun s b => (s ++ f b)%string) out EmptyString)%string.
Proof.
  revert acc. induction out as [|b out IH]; intros acc.
  - cbn. clear. induction acc as [|c acc IH]; [reflexivity|].
    change (String c acc = String c (acc ++ "")). f_equal. exact IH.
  - cbn [fold_left]. rewrite IH. rewrite (IH (EmptyString ++ f b)%string).
    change (EmptyString ++ f b)%string with (f b).
    clear. induction acc as [|c acc IH]; [reflexivity|].
    change (String c ((acc ++ f b) ++ fold_left (fun s b0 => s ++ f b0) out "")
            = String c (acc ++ f b ++ fold_left (fun s b0 => s ++ f b0) out "")).
    f_equal. exact IH.
Qed.

Lemma digest_hex_cons b out :
  digest_hex (b :: out)
  = (padStart 2 "0" (toString16 (Byte.to_N b)) ++ digest_hex out)%string.
Proof.
  unfold digest_hex. cbn [fold_left]. rewrite fold_append_acc. reflexivity.
Qed.

Lemma byte_hex_check b :
  match padStart 2 "0" (toString16 (Byte.to_N b)) with
  | String h (String l EmptyString) =>
      is_hex h && is_hex l
      && match hex_value h, hex_value l with
         | Some x, Some y =>
             match Byte.of_N (16 * x + y) with
             | Some b' => Byte.eqb b b'
             | None => false
             end
         | _, _ => false
         end
  | _ => false
  end = true.
Proof. destruct b; vm_compute; reflexivity. Qed.

Lemma byte_hex b :
  exists h l,
    padStart 2 "0" (toString16 (Byte.to_N b)) = String h (String l EmptyString)
    /\ is_hex h = true /\ is_hex l = true
    /\ match hex_value h, hex_value l with
       | Some x, Some y => Byte.of_N (16 * x + y) = Some b
       | _, _ => False
       end.
Proof.
  pose proof (byte_hex_check b) as H.
  destruct (padStart 2 "0" (toString16 (Byte.to_N b))) as [|h [|l [|]]];
    try discriminate.
  exists h, l. apply andb_true_iff in H as [H H3].
  apply andb_true_iff in H as [H1 H2].
  split; [reflexivity|]. split; [exact H1|]. split; [exact H2|].
  destruct (hex_value h), (hex_value l); try discriminate.
  destruct (Byte.of_N (16 * n + n0)) as [b'|]; [|discriminate].
  apply Byte.byte_dec_bl in H3. congruence.
Qed.

(** X23. [digest("hex")] writes every byte of the digest as two lower-case
    hexadecimal digits, the high one first: the text is twice as long as the
    digest, holds hexadecimal digits only, and reads back as the digest. *)
Theorem digest_hex_spec out :
  String.length (digest_hex out) = (2 * List.length out)%nat
  /\ all_chars is_hex (digest_hex out) = true
  /\ unhex (List.length out) (digest_hex out) = Some out.
Proof.
  induction out as [|b out (IH1 & IH2 & IH3)]; [repeat split|].
  rewrite digest_hex_cons.
  destruct (byte_hex b) as (h & l & -> & Hh & Hl & Hb).
  change (String h (String l EmptyString) ++ digest_hex out)%string
    with (String h (String l (digest_hex out))).
  split; [cbn [String.length List.length]; rewrite IH1; lia|].
  split; [cbn; rewrite Hh, Hl, IH2; reflexivity|].
  cbn [List.length unhex].
  destruct (hex_value h), (hex_value l); try contradiction.
  rewrite Hb, IH3. reflexivity.
Qed.

End IndexFacts.

(** ** Scoped API instances and their labels *)
Module ScopingFacts.
Import JS ScopedApi Scoping ScopedApiFacts.

Lemma bound_to_kept api api' r l :
  instances api' !! r = instances api !! r ->
  bound_to api r l -> bound_to api' r l.
Proof.
  intros Hsame (inst & i1 & i2 & i3 & Hi & H). exists inst, i1, i2, i3.
  by rewrite Hsame.
Qed.

Lemma construct_labels_bound label api v api' :
  global_ready api = true -> well_formed api -> labels_bound api ->
  construct label api = Ok (v, api') ->
  labels_bound api'.
Proof.
  intros Hready Hwf Hb. unfold construct. rewrite Hready.
  destruct (opt_truthy label).
  - destruct (lookup_label api (default "" label)) as [existing|] eqn:Hl.
    + intros [= <- <-]. intros l r Hr. cbn in Hr.
      apply (bound_to_kept api); [reflexivity|]. by apply Hb.
    + intros [= <- <-]. intros l r. cbn [labelsOfInstancedAPI].
      destruct (decide (l = default "" label)) as [->|Hne].
      * rewrite lookup_insert_eq. intros [= <-].
        eexists _, _, _, _. cbn [instances]. rewrite lookup_insert_eq.
        repeat split; reflexivity.
      * rewrite lookup_insert_ne by done. intros Hr.
        apply (bound_to_kept api); [|by apply Hb].
        cbn [instances]. rewrite lookup_insert_ne; [reflexivity|].
        specialize (Hwf l r Hr). lia.
  - intros [= <- <-]. intros l r Hr. cbn in Hr.
    apply (bound_to_kept api); [|by apply Hb].
    cbn [instances]. rewrite lookup_insert_ne; [reflexivity|].
    specialize (Hwf l r Hr). lia.
Qed.

Lemma construct_all_labels_bound labels : forall api,
  global_ready api = true -> well_formed api -> labels_bound api ->
  labels_bound (construct_all labels api).
Proof.
  induction labels as [|label labels IH]; intros api Hready Hwf Hb; [exact Hb|].
  change (construct_all (label :: labels) api)
    with (construct_all labels (construct_then api label)).
  destruct (construct_ready label api Hready) as (v & api' & Hc).
  assert (construct_then api label = api') as ->
    by (unfold construct_then; by rewrite Hc).
  destruct (construct_step _ _ _ _ Hready Hwf Hc) as (Hready' & Hwf' & _).
  apply IH; [done|done|]. by apply (construct_labels_bound label api v).
Qed.

Lemma initial_api_invariant :
  global_ready initial_api = true /\ well_formed initial_api
  /\ labels_bound initial_api.
Proof.
  split; [reflexivity|]. split; intros l r Hr; cbn in Hr;
    by rewrite lookup_empty in Hr.
Qed.

(** The construction for a label that is no member of [Object.prototype]
    gives an instance bound to the label. *)
Lemma construct_bound api l :
  global_ready api = true -> well_formed api -> labels_bound api ->
  str_truthy l = true -> on_Object_prototype l = false ->
  exists r api',
    construct (Some l) api = Ok (Scoped r, api')
    /\ global_ready api' = true /\ well_formed api' /\ labels_bound api'
    /\ labelsOfInstancedAPI api' !! l = Some r.
Proof.
  intros Hready Hwf Hb Hl Hproto.
  destruct (construct_ready (Some l) api Hready) as (v & api' & Hc).
  destruct (construct_step _ _ _ _ Hready Hwf Hc) as (Hready' & Hwf' & _).
  pose proof (construct_labels_bound _ _ _ _ Hready Hwf Hb Hc) as Hb'.
  revert Hc. unfold construct.
  change (default "" (Some l)) with l.
  change (opt_truthy (Some l)) with (str_truthy l). rewrite Hl, Hready.
  unfold lookup_label.
  destruct (labelsOfInstancedAPI api !! l) as [r|] eqn:Hr; [|rewrite Hproto].
  - intros [= <- <-]. exists r. eexists. split; [reflexivity|].
    repeat split; try done.
  - intros [= <- <-]. exists (next_ref api). eexists. split; [reflexivity|].
    repeat split; try done. cbn. by rewrite lookup_insert_eq.
Qed.

(** X25. Scoped instances are bound to their labels: after any sequence of
    constructions, the instances constructed for two labels that are no
    members of [Object.prototype] carry each its own label as target plugin
    and in its Patcher, Data and DOM wrappers, and two different labels
    give two different instances. *)
Theorem scoped_instances_by_label others l1 l2 :
  str_truthy l1 = true -> on_Object_prototype l1 = false ->
  str_truthy l2 = true -> on_Object_prototype l2 = false ->
  let api := construct_all others initial_api in
  exists r1 r2 api1 api2,
    construct (Some l1) api = Ok (Scoped r1, api1)
    /\ construct (Some l2) api1 = Ok (Scoped r2, api2)
    /\ bound_to api2 r1 l1
    /\ bound_to api2 r2 l2
    /\ (l1 <> l2 -> r1 <> r2).
Proof.
  intros H1 P1 H2 P2 api.
  destruct initial_api_invariant as (Hready0 & Hwf0 & Hb0).
  destruct (construct_all_keeps others initial_api Hready0 Hwf0)
    as (Hready & Hwf & _).
  pose proof (construct_all_labels_bound others initial_api Hready0 Hwf0 Hb0)
    as Hb.
  fold api in Hready, Hwf, Hb.
  destruct (construct_bound api l1 Hready Hwf Hb H1 P1)
    as (r1 & api1 & Hc1 & Hready1 & Hwf1 & Hb1 & Hr1).
  destruct (construct_bound api1 l2 Hready1 Hwf1 Hb1 H2 P2)
    as (r2 & api2 & Hc2 & Hready2 & Hwf2 & Hb2 & Hr2).
  exists r1, r2, api1, api2.
  split; [exact Hc1|]. split; [exact Hc2|].
  assert (Hr1' : labelsOfInstancedAPI api2 !! l1 = Some r1).
  { destruct (construct_step _ _ _ _ Hready1 Hwf1 Hc2)
      as (_ & _ & _ & _ & Hlab & _).
    specialize (Hlab l1 (Scoped r1)). unfold lookup_label in Hlab.
    rewrite Hr1 in Hlab. specialize (Hlab eq_refl).
    destruct (labelsOfInstancedAPI api2 !! l1) as [r|].
    - by injection Hlab as ->.
    - by destruct (on_Object_prototype l1). }
  pose proof (Hb2 _ _ Hr1') as B1. pose proof (Hb2 _ _ Hr2) as B2.
  split; [exact B1|]. split; [exact B2|].
  intros Hne ->.
  destruct B1 as (i & _ & _ & _ & Hi & Ht & _).
  destruct B2 as (i' & _ & _ & _ & Hi' & Ht' & _).
  congruence.
Qed.

Lemma scoped_instances_by_label_witness :
  exists r1 r2 api1 api2,
    construct (Some "PluginA") (construct_all [Some "PluginB"; None] initial_api)
    = Ok (Scoped r1, api1)
    /\ construct (Some "PluginB") api1 = Ok (Scoped r2, api2)
    /\ bound_to api2 r1 "PluginA"
    /\ bound_to api2 r2 "PluginB"
    /\ ("PluginA" <> "PluginB" -> r1 <> r2).
Proof.
  apply (scoped_instances_by_label [Some "PluginB"; None] "PluginA" "PluginB");
    reflexivity.
Defined.

End ScopingFacts.
